(** * The agent loop and the streaming event classifier, verified

    A shallow embedding of the conversation controller of
    [backend/biomni/agent/a1.py] (the nodes [generate], [execute] and
    [execute_self_critic] built by [A1.configure], and the classifiers
    [_classify_message] / [_classify_message_multi]) and of the streaming
    orchestrator of [backend/server/biomni_a1_orchestrator.py]
    ([EventOrchestrator] and [SmartEventProcessor]).

    Conventions.
    - A Python [str] is the list of its code points ([len] is [length]).
    - What the source obtains from the outside world (the language model, the
      code runners, the clock, the Unicode tables behind [str.lower], [\d] and
      [re.IGNORECASE]) is a parameter of the model.
    - The stream-writer notifications and [print] calls of the nodes write to
      a log that no later step reads; the [timestamp] field of an event is a
      wall-clock reading that nothing compares.  Neither is part of the
      model. *)

From Stdlib Require Import String Ascii.
From Stdlib Require Import List Sorted Bool Arith NArith ZArith QArith Lia Lqa.
From Stdlib Require DecimalPos DecimalN DecimalZ DecimalFacts.
Import ListNotations.

Local Open Scope nat_scope.
Local Open Scope list_scope.

(* ================================================================== *)
(** * Python strings *)
(* ================================================================== *)

Module PyStr.

Definition char := N.
Definition str := list char.

(** A literal of the source whose characters are all ASCII. *)
Definition lit (s : string) : str :=
  map N_of_ascii (list_ascii_of_string s).
Arguments lit s%_string.

Definition NL : char := 10%N.

Fixpoint str_eqb (a b : str) : bool :=
  match a, b with
  | [], [] => true
  | x :: a', y :: b' => N.eqb x y && str_eqb a' b'
  | _, _ => false
  end.

(** [s.startswith(p)] *)
Fixpoint startswith (p s : str) : bool :=
  match p, s with
  | [], _ => true
  | _ :: _, [] => false
  | x :: p', y :: s' => N.eqb x y && startswith p' s'
  end.

(** [s.find(p)]: the index of the first occurrence, [None] for Python's -1. *)
Fixpoint find (p s : str) : option nat :=
  if startswith p s then Some 0
  else match s with
       | [] => None
       | _ :: s' => option_map S (find p s')
       end.

(** [p in s] *)
Definition contains (p s : str) : bool :=
  match find p s with Some _ => true | None => false end.

(** [any(p in s for p in ps)] *)
Definition contains_any (ps : list str) (s : str) : bool :=
  existsb (fun p => contains p s) ps.

(** [str.isspace] on one character, which is also the class [\s] of [re]
    on [str] patterns. *)
Definition isspace (c : char) : bool :=
  ((9 <=? c) && (c <=? 13) || (28 <=? c) && (c <=? 32)
   || (c =? 133) || (c =? 160) || (c =? 5760)
   || (8192 <=? c) && (c <=? 8202)
   || (c =? 8232) || (c =? 8233) || (c =? 8239) || (c =? 8287)
   || (c =? 12288))%N.

Fixpoint lstrip (s : str) : str :=
  match s with
  | c :: s' => if isspace c then lstrip s' else s
  | [] => []
  end.

Definition rstrip (s : str) : str := rev (lstrip (rev s)).

(** [s.strip()] *)
Definition strip (s : str) : str := rstrip (lstrip s).

(** [s.split('\n')] *)
Fixpoint split_nl (s : str) : list str :=
  match s with
  | [] => [[]]
  | c :: s' =>
      if N.eqb c NL then [] :: split_nl s'
      else match split_nl s' with
           | l :: ls => (c :: l) :: ls
           | [] => [[c]]
           end
  end.

(** ['\n'.join(ls)] *)
Fixpoint join_nl (ls : list str) : str :=
  match ls with
  | [] => []
  | [l] => l
  | l :: ls' => l ++ NL :: join_nl ls'
  end.

(** [s.replace("\n", " ")] *)
Definition replace_nl_space (s : str) : str :=
  map (fun c => if N.eqb c NL then 32%N else c) s.

(** [len(s)], a Python [int]. *)
Definition len (s : str) : Z := Z.of_nat (length s).

(** [s[:n]] and [s[n:]] for [n >= 0]. *)
Definition slice_to (n : Z) (s : str) : str := firstn (Z.to_nat n) s.
Definition slice_from (n : Z) (s : str) : str := skipn (Z.to_nat n) s.

(** [c * n] for a one-character string [c]. *)
Definition times (c : char) (n : nat) : str := repeat c n.

(** Decimal rendering of a non-negative [int], as [str(n)] and [f"{n}"]. *)
Fixpoint str_of_uint (d : Decimal.uint) : str :=
  match d with
  | Decimal.Nil => []
  | Decimal.D0 d => 48%N :: str_of_uint d
  | Decimal.D1 d => 49%N :: str_of_uint d
  | Decimal.D2 d => 50%N :: str_of_uint d
  | Decimal.D3 d => 51%N :: str_of_uint d
  | Decimal.D4 d => 52%N :: str_of_uint d
  | Decimal.D5 d => 53%N :: str_of_uint d
  | Decimal.D6 d => 54%N :: str_of_uint d
  | Decimal.D7 d => 55%N :: str_of_uint d
  | Decimal.D8 d => 56%N :: str_of_uint d
  | Decimal.D9 d => 57%N :: str_of_uint d
  end.

(** [str(z)] for any [int]. *)
Definition str_of_Z (z : Z) : str :=
  match z with
  | Zneg p => 45%N :: str_of_uint (Pos.to_uint p)
  | _ => str_of_uint (N.to_uint (Z.to_N z))
  end.

(** A proper, non-empty tail of [p] with which [t] begins: an occurrence of
    [p] across the end of a text to which [t] is appended would need one. *)
Definition overlap (p t : str) : bool :=
  existsb (fun k => startswith (skipn k p) t) (seq 1 (length p - 1)).

(** The Unicode tables the source reaches through [str.lower], the class
    [\d] and the flag [re.IGNORECASE]. *)
Record unicode := {
  lower : str -> str;              (* str.lower *)
  re_digit : char -> bool;         (* \d : category Nd *)
  re_ieq : char -> char -> bool    (* a pattern letter against a text
                                      character under re.IGNORECASE *)
}.

Definition ascii_lower_char (c : char) : char :=
  if ((65 <=? c) && (c <=? 90))%N then (c + 32)%N else c.

(** The tables restricted to ASCII text, where they are what Python has. *)
Definition ascii_tables : unicode := {|
  lower := map ascii_lower_char;
  re_digit := fun c => ((48 <=? c) && (c <=? 57))%N;
  re_ieq := fun p c => N.eqb (ascii_lower_char p) (ascii_lower_char c)
|}.

End PyStr.
Import PyStr.

(* ================================================================== *)
(** * The regular expressions of the source *)
(* ================================================================== *)

Module Re.

(** A match of [open(.*?)close] under [re.DOTALL]: where it starts, its
    group 1, and where it ends. *)
Record tag_match := { m_start : nat; m_group : str; m_end : nat }.

(** [re.search(open + "(.*?)" + close, s, re.DOTALL)].  The search tries the
    start positions from the left; at a position where [open] stands, the
    lazy group stops at the first [close] that follows. *)
Fixpoint search_from (op cl : str) (i : nat) (s : str) : option tag_match :=
  match s with
  | [] => None
  | _ :: s' =>
      if startswith op s then
        let body := skipn (length op) s in
        match find cl body with
        | Some k =>
            Some {| m_start := i; m_group := firstn k body;
                    m_end := i + length op + k + length cl |}
        | None => search_from op cl (S i) s'
        end
      else search_from op cl (S i) s'
  end.

Definition search_tag (op cl s : str) : option tag_match :=
  search_from op cl 0 s.

Definition matched (m : option tag_match) : bool :=
  match m with Some _ => true | None => false end.

End Re.
Import Re.

(* ================================================================== *)
(** * The conversation controller ([A1.configure]) *)
(* ================================================================== *)

Module Controller.

Inductive role := System | Human | AI.

Record message := { msg_role : role; content : str }.

Definition SystemMessage (c : str) : message := {| msg_role := System; content := c |}.
Definition HumanMessage (c : str) : message := {| msg_role := Human; content := c |}.
Definition AIMessage (c : str) : message := {| msg_role := AI; content := c |}.

(** [isinstance(m, AIMessage)] *)
Definition is_ai (m : message) : bool :=
  match msg_role m with AI => true | _ => false end.

(** The values [next_step] takes: "execute", "generate", "end". *)
Inductive step := Execute | Generate | End.

(** [AgentState] *)
Record AgentState := { messages : list message; next_step : option step }.

(** What [self.llm.invoke] can do: return a response object (whose content
    may be [None]), return [None], or raise an exception [e] (carried as
    [str(e)]). *)
Inductive llm_outcome :=
| Returned (c : option str)
| ReturnedNone
| Failed (e : str).

(** A node either returns or lets an exception escape. *)
Inductive result (A : Type) :=
| Ok (a : A)
| Raised (e : str).
Arguments Ok {A} a.
Arguments Raised {A} e.

(** The three runners handed to [run_with_timeout]. *)
Inductive runner := run_r_code | run_bash_script | run_python_repl.

Definition MAX_OUTPUT_LENGTH : Z := 10000.
Definition SUMMARY_THRESHOLD : Z := 5000.

Definition execute_open := lit "<execute>".
Definition execute_close := lit "</execute>".
Definition solution_open := lit "<solution>".
Definition solution_close := lit "</solution>".
Definition think_open := lit "<think>".
Definition think_close := lit "</think>".
Definition observation_open := lit "<observation>".
Definition observation_close := lit "</observation>".

(** "Check for incomplete tags and fix them" *)
Definition close_tag (op cl msg : str) : str :=
  if contains op msg && negb (contains cl msg) then msg ++ cl else msg.

Definition fix_tags (msg : str) : str :=
  close_tag think_open think_close
    (close_tag solution_open solution_close
       (close_tag execute_open execute_close msg)).

Definition no_tags_marker := lit "There are no tags".

Definition termination_notice : str :=
  lit "Execution terminated due to repeated parsing errors. Please check your input and try again.".

Definition corrective_instruction : str :=
  lit "Each response must include thinking process followed by either <execute> or <solution> tag. But there are no tags in the current response. Please follow the instruction, fix and regenerate the response again.".

(** [sum(1 for m in messages if isinstance(m, AIMessage) and
    "There are no tags" in m.content)] *)
Definition error_count (ms : list message) : nat :=
  length (filter (fun m => is_ai m && contains no_tags_marker (content m)) ms).

(** The second half of [generate]: from the reply text to the new state. *)
Definition parse_reply (ms : list message) (reply : str) : AgentState :=
  let msg := fix_tags reply in
  let think_match := search_tag think_open think_close msg in
  let execute_match := search_tag execute_open execute_close msg in
  let answer_match := search_tag solution_open solution_close msg in
  let ms := ms ++ [AIMessage (strip msg)] in
  if matched answer_match then {| messages := ms; next_step := Some End |}
  else if matched execute_match then {| messages := ms; next_step := Some Execute |}
  else if matched think_match then {| messages := ms; next_step := Some Generate |}
  else
    if 2 <=? error_count ms then
      {| messages := ms ++ [AIMessage termination_notice]; next_step := Some End |}
    else
      {| messages := ms ++ [HumanMessage corrective_instruction];
         next_step := Some Generate |}.

(** The replacement written over a long observation during recovery. *)
Definition truncated_observation (obs_content : str) : message :=
  AIMessage
    (lit "<observation>[TRUNCATED DUE TO CONTEXT OVERFLOW - Original: "
       ++ str_of_Z (len obs_content) ++ lit " chars]" ++ [NL]
       ++ slice_to 2000 obs_content ++ [NL]
       ++ lit "[...truncated...]</observation>").

(** [for i in range(len(messages) - 1, -1, -1)]: the scan runs over the
    messages from the most recent one, here the head of the list. *)
Fixpoint truncate_scan (newest_first : list message) : list message :=
  match newest_first with
  | [] => []
  | msg :: older =>
      if is_ai msg && contains observation_open (content msg) then
        match search_tag observation_open observation_close (content msg) with
        | Some obs_match =>
            let obs_content := m_group obs_match in
            if (2000 <? len obs_content)%Z
            then truncated_observation obs_content :: older
            else msg :: truncate_scan older
        | None => msg :: truncate_scan older
        end
      else msg :: truncate_scan older
  end.

Definition truncate_last_observation (ms : list message) : list message :=
  rev (truncate_scan (rev ms)).

Definition auth_failure_reply : str :=
  lit "<solution>Error: API authentication or endpoint configuration issue. Please check your Azure OpenAI API key and endpoint settings in the .env file.</solution>".

Definition context_failure_reply : str :=
  lit "<solution>Error: The context was too long for the model to process. The task output exceeded the maximum context window. Please try breaking down the task into smaller steps or working with smaller data samples.</solution>".

Definition feedback_prompt (user_task : str) : str :=
  let ind := times 32%N 16 in
  [NL] ++ ind ++ lit "Here is a reminder of what is the user requested: " ++ user_task ++ [NL]
  ++ ind ++ lit "Examine the previous executions, reaosning, and solutions." ++ [NL]
  ++ ind ++ lit "Critic harshly on what could be improved?" ++ [NL]
  ++ ind ++ lit "Be specific and constructive." ++ [NL]
  ++ ind ++ lit "Think hard what are missing to solve the task." ++ [NL]
  ++ ind ++ lit "No question asked, just feedbacks." ++ [NL]
  ++ ind.

(** [re.sub(r"^m1|^m2|...", "", code, 1)]: without [re.MULTILINE] the
    anchor holds at position 0 only, and the alternatives are tried in
    order. *)
Fixpoint remove_marker (markers : list str) (code : str) : str :=
  match markers with
  | [] => code
  | m :: rest =>
      if startswith m code then skipn (length m) code
      else remove_marker rest code
  end.

(** "Handle very long outputs more intelligently" *)
Definition bound_output (result : str) : str :=
  if (MAX_OUTPUT_LENGTH <? len result)%Z then
    let truncated_result := slice_to MAX_OUTPUT_LENGTH result in
    let summary_parts :=
      if contains (lit ">") (slice_to 1000 result) then
        let lines := split_nl result in
        let sequence_count :=
          Z.of_nat (length (filter (startswith (lit ">")) lines)) in
        let total_length := len result in
        [ lit "[OUTPUT TRUNCATED: " ++ str_of_Z total_length ++ lit " total characters]";
          lit "[Contains " ++ str_of_Z sequence_count ++ lit " sequences/entries]";
          lit "[Showing first 10K characters below]";
          times 61%N 50;
          truncated_result ]
      else
        [ lit "[OUTPUT TRUNCATED: " ++ str_of_Z (len result) ++ lit " total characters]";
          lit "[First 10K characters shown below]";
          times 61%N 50;
          truncated_result ]
    in
    join_nl summary_parts
  else if (SUMMARY_THRESHOLD <? len result)%Z then
    lit "[Output length: " ++ str_of_Z (len result) ++ lit " characters]" ++ [NL] ++ result
  else result.

(** The message [execute] appends for a (bounded) result. *)
Definition observation_message (result : str) : message :=
  AIMessage (strip ([NL] ++ observation_open ++ result ++ observation_close)).

(** [routing_function]: the edge taken after [generate]. *)
Definition routing_function (state : AgentState) : result step :=
  match next_step state with
  | Some s => Ok s
  | None => Raised (lit "Unexpected next_step: None")
  end.

(** [routing_function_self_critic]: the edge taken after the self-critique. *)
Definition routing_function_self_critic (state : AgentState) : result step :=
  match next_step state with
  | Some Generate => Ok Generate
  | Some End => Ok End
  | Some Execute => Raised (lit "Unexpected next_step: execute")
  | None => Raised (lit "Unexpected next_step: None")
  end.

(** The nodes of the workflow and its edges: from [START] to [generate],
    from [execute] to [generate], and after [generate] by [path_map]. *)
Inductive node := generate_node | execute_node | self_critic_node | END.

Definition after_generate (self_critic : bool) (s : step) : node :=
  match s with
  | Execute => execute_node
  | Generate => generate_node
  | End => if self_critic then self_critic_node else END
  end.

Definition after_self_critic (s : step) : node :=
  match s with
  | Generate => generate_node
  | _ => END
  end.

Section Nodes.

(** The world around the controller. *)
Variable U : unicode.
Variable LLM : Type.                        (* hidden state of the provider *)
Variable invoke : LLM -> list message -> llm_outcome * LLM.
Variable system_prompt : str.
Variable Env : Type.                        (* interpreters, files, ... *)
Variable run_with_timeout : runner -> str -> Env -> str * Env.
Variable inject_custom_functions_to_repl : Env -> Env.
Variable test_time_scale_round : nat.
Variable user_task : str.

(** "Common Azure OpenAI error patterns" *)
Definition recoverable (error_msg : str) : bool :=
  contains_any
    [ lit "null value for choices"; lit "context"; lit "token";
      lit "content filter"; lit "rate limit" ]
    (lower U error_msg).

(** One guarded call: the reply text, or [str(e)] of what the [except]
    clause catches, the [ValueError] of the null check included. *)
Definition try_invoke (null_error : str) (llm : LLM) (ms : list message)
  : (str + str) * LLM :=
  match invoke llm (SystemMessage system_prompt :: ms) with
  | (Returned (Some c), llm') => (inl c, llm')
  | (Returned None, llm') => (inr null_error, llm')
  | (ReturnedNone, llm') => (inr null_error, llm')
  | (Failed e, llm') => (inr e, llm')
  end.

(** The reply synthesized when the retry fails too. *)
Definition failure_reply (e2 : str) : str :=
  if contains (lit "api key") (lower U e2) || contains (lit "endpoint") (lower U e2)
  then auth_failure_reply
  else context_failure_reply.

(** The first half of [generate]: the reply text and the message list as
    the recovery left it, or the exception that is re-raised. *)
Definition obtain_reply (ms : list message) (llm : LLM)
  : result (str * list message * LLM) :=
  match try_invoke (lit "Received null response from LLM") llm ms with
  | (inl reply, llm1) => Ok (reply, ms, llm1)
  | (inr error_msg, llm1) =>
      if recoverable error_msg then
        let ms' := truncate_last_observation ms in
        match try_invoke (lit "Still received null response after truncation") llm1 ms' with
        | (inl reply, llm2) => Ok (reply, ms', llm2)
        | (inr e2, llm2) => Ok (failure_reply e2, ms', llm2)
        end
      else Raised error_msg
  end.

Definition generate (state : AgentState) (llm : LLM) : result (AgentState * LLM) :=
  match obtain_reply (messages state) llm with
  | Ok (reply, ms, llm') => Ok (parse_reply ms reply, llm')
  | Raised e => Raised e
  end.

(** The language dispatch of [execute]. *)
Definition run_code (code : str) (env : Env) : str * Env :=
  let sc := strip code in
  if startswith (lit "#!R") sc || startswith (lit "# R code") sc
     || startswith (lit "# R script") sc then
    let r_code := strip (remove_marker [lit "#!R"; lit "# R code"; lit "# R script"] code) in
    run_with_timeout run_r_code r_code env
  else if startswith (lit "#!BASH") sc || startswith (lit "# Bash script") sc
          || startswith (lit "#!CLI") sc then
    if startswith (lit "#!CLI") sc then
      let cli_command := replace_nl_space (strip (remove_marker [lit "#!CLI"] code)) in
      run_with_timeout run_bash_script cli_command env
    else
      let bash_script := strip (remove_marker [lit "#!BASH"; lit "# Bash script"] code) in
      run_with_timeout run_bash_script bash_script env
  else
    run_with_timeout run_python_repl code (inject_custom_functions_to_repl env).

(** The code [execute] extracts from the text of the last message. *)
Definition extract_code (last_message : str) : option str :=
  option_map m_group
    (search_tag execute_open execute_close
       (close_tag execute_open execute_close last_message)).

Definition execute (state : AgentState) (env : Env) : result (AgentState * Env) :=
  match rev (messages state) with
  | [] => Raised (lit "list index out of range")
  | last :: _ =>
      match extract_code (content last) with
      | Some code =>
          let (result, env') := run_code code env in
          Ok ({| messages := messages state ++ [observation_message (bound_output result)];
                 next_step := next_step state |}, env')
      | None => Ok (state, env)
      end
  end.

Definition execute_self_critic (state : AgentState) (critic_count : nat) (llm : LLM)
  : result (AgentState * nat * LLM) :=
  if critic_count <? test_time_scale_round then
    let feedback_of (c : str) (llm' : LLM) :=
      Ok ({| messages := messages state ++
               [HumanMessage (lit "Wait... this is not enough to solve the task. Here are some feedbacks for improvement:" ++ [NL] ++ c)];
             next_step := Some Generate |}, S critic_count, llm') in
    match invoke llm (messages state ++ [HumanMessage (feedback_prompt user_task)]) with
    | (Returned (Some c), llm') => feedback_of c llm'
    | (Returned None, llm') => feedback_of (lit "None") llm'
    | (ReturnedNone, llm') => Raised (lit "'NoneType' object has no attribute 'content'")
    | (Failed e, llm') => Raised e
    end
  else Ok ({| messages := messages state; next_step := Some End |}, critic_count, llm).

End Nodes.

End Controller.

(* ================================================================== *)
(** * The event classifier ([A1._classify_message_multi]) *)
(* ================================================================== *)

Module Classifier.

(** The argument of the classifier: a message object with a [content]
    attribute, or any other value; [str(message)] is defined for both. *)
Record py_message := { attr_content : option str; as_str : str }.

Inductive kind :=
| planning | reasoning | tool_call | tool_output | final_result | thinking.

Inductive step_status := completed | failed | pending.
Inductive code_type := python | r | bash.

Record plan_step := { step : str; status : step_status }.

(** The dictionaries the classifier builds; the keys a kind of event does
    not have are [None]. *)
Record event := {
  type : kind;
  content : str;
  plan_steps : option (list plan_step);
  subtype : option code_type;
  full_message : str
}.

Definition mk (k : kind) (c full : str) : event :=
  {| type := k; content := c; plan_steps := None; subtype := None;
     full_message := full |}.

(** The checklist markers as the source file spells them. *)
Definition box_open : str := lit "[ ]".
Definition box_done : str := [91; 8218; 250; 236; 93]%N.
Definition box_fail : str := [91; 8218; 250; 243; 93]%N.
Definition markers : list str := [box_open; box_done; box_fail].

Fixpoint drop_while (f : char -> bool) (s : str) : str :=
  match s with
  | c :: s' => if f c then drop_while f s' else s
  | [] => []
  end.

(** [s[:s.index(tag)]] when [tag in s]. *)
Definition before (tag s : str) : option str :=
  option_map (fun i => firstn i s) (find tag s).

Section WithTables.
Variable U : unicode.

(** [re.match(r'^\d+\.\s*\[.\]\s*', line)]: what is left of the line after
    the match, which is also what [re.sub] of that pattern by [''] leaves. *)
Definition plan_line (line : str) : option str :=
  match line with
  | d :: _ =>
      if re_digit U d then
        match drop_while (re_digit U) line with
        | 46%N :: after_dot =>
            match lstrip after_dot with
            | 91%N :: c :: 93%N :: rest =>
                if N.eqb c NL then None else Some (lstrip rest)
            | _ => None
            end
        | _ => None
        end
      else None
  | [] => None
  end.

Definition status_of (line : str) : step_status :=
  if contains box_done line then completed
  else if contains box_fail line then failed
  else pending.

Fixpoint extract_plan_steps (lines : list str) : list plan_step :=
  match lines with
  | [] => []
  | line :: rest =>
      match plan_line line with
      | Some step_text =>
          {| step := step_text; status := status_of line |} :: extract_plan_steps rest
      | None => extract_plan_steps rest
      end
  end.

(** FIRST: planning *)
Definition planning_events (content : str) : list event :=
  if contains_any markers content then
    let planning_content :=
      match before Controller.execute_open content with
      | Some p => p
      | None => content
      end in
    let plan_steps := extract_plan_steps (split_nl planning_content) in
    match plan_steps with
    | [] => []
    | _ :: _ =>
        [ {| type := planning; content := planning_content;
             plan_steps := Some plan_steps; subtype := None;
             full_message := content |} ]
    end
  else [].

(** The loop over the four tags, which stops at the first tag present. *)
Fixpoint text_before_tags (tags : list str) (content : str) : str :=
  match tags with
  | [] => content
  | tag :: rest =>
      match before tag content with
      | Some t => t
      | None => text_before_tags rest content
      end
  end.

Definition observe_open := lit "<observe>".
Definition observe_close := lit "</observe>".

(** SECOND: reasoning *)
Definition reasoning_events (content : str) : list event :=
  let t :=
    text_before_tags
      [Controller.execute_open; Controller.solution_open; observe_open;
       Controller.think_open] content in
  match strip t with
  | [] => []
  | _ :: _ =>
      if negb (contains_any markers t) && (50 <? len (strip t))%Z
      then [mk reasoning (strip t) content]
      else []
  end.

Definition code_type_of (code : str) : code_type :=
  if startswith (lit "#!R") (strip code) then r
  else if startswith (lit "#!BASH") (strip code) then bash
  else python.

(** THIRD to SIXTH: one tagged block each. *)
Definition block_events (k : kind) (op cl content : str) : list event :=
  if contains op content then
    match search_tag op cl content with
    | Some m =>
        match k with
        | tool_call =>
            [ {| type := tool_call; content := m_group m; plan_steps := None;
                 subtype := Some (code_type_of (m_group m));
                 full_message := content |} ]
        | _ => [mk k (m_group m) content]
        end
    | None => []
    end
  else [].

Definition content_of (message : py_message) : str :=
  match attr_content message with
  | Some c => c
  | None => as_str message
  end.

Definition _classify_message_multi (message : py_message) : list event :=
  let content := content_of message in
  let events :=
    planning_events content
    ++ reasoning_events content
    ++ block_events tool_call Controller.execute_open Controller.execute_close content
    ++ block_events tool_output observe_open observe_close content
    ++ block_events final_result Controller.solution_open Controller.solution_close content
    ++ block_events thinking Controller.think_open Controller.think_close content in
  match events with
  | [] => [mk reasoning content content]
  | _ :: _ => events
  end.

Definition _classify_message (message : py_message) : event :=
  match _classify_message_multi message with
  | e :: _ => e
  | [] => mk reasoning (as_str message) (as_str message)
  end.

End WithTables.

End Classifier.

(* ================================================================== *)
(** * Python dictionaries with string keys, in insertion order *)
(* ================================================================== *)

Module PyDict.

Definition dict (V : Type) := list (str * V).

Section Ops.
Context {V : Type}.

(** [d.get(k)] *)
Fixpoint get (k : str) (d : dict V) : option V :=
  match d with
  | [] => None
  | (k', v) :: d' => if str_eqb k k' then Some v else get k d'
  end.

(** [d[k] = v]: an existing key keeps its place. *)
Fixpoint set (k : str) (v : V) (d : dict V) : dict V :=
  match d with
  | [] => [(k, v)]
  | (k', v') :: d' =>
      if str_eqb k k' then (k, v) :: d' else (k', v') :: set k v d'
  end.

(** [del d[k]] for a key that is present. *)
Fixpoint del (k : str) (d : dict V) : dict V :=
  match d with
  | [] => []
  | (k', v') :: d' => if str_eqb k k' then d' else (k', v') :: del k d'
  end.

Definition keys (d : dict V) : list str := map fst d.

(** Every key occurs once: what makes an association list a dictionary. *)
Definition wf (d : dict V) : Prop := NoDup (keys d).

End Ops.

End PyDict.

(* ================================================================== *)
(** * The streaming orchestrator ([biomni_a1_orchestrator.py]) *)
(* ================================================================== *)

Module Orchestrator.

Inductive priority := HIGH | NORMAL.

Inductive etype :=
| observation | ai_message | planning | reasoning | tool_call
| final_answer | human_message | message | tool_output.

Definition etype_eqb (a b : etype) : bool :=
  match a, b with
  | observation, observation | ai_message, ai_message | planning, planning
  | reasoning, reasoning | tool_call, tool_call | final_answer, final_answer
  | human_message, human_message | message, message
  | tool_output, tool_output => true
  | _, _ => false
  end.

Inductive todo_status := completed | failed | pending.
Record todo := { step : str; status : todo_status }.

(** The event dictionaries of the module, one constructor for each shape
    the source builds. *)
Inductive event :=
| Observation (content : str)        (* "output" repeats the content; HIGH *)
| AiMessage (content : str) (p : priority)
| Planning (steps : list todo)
| Reasoning (content : str)
| ToolCall (tool_id code : str)      (* tool_name, language fixed; HIGH *)
| FinalAnswer (content : str)        (* HIGH *)
| HumanMessage (content : str)
| Message (content : str)
| TimeoutObservation (tool_id : str) (* type observation, "timeout": True *)
| Placeholder (tool_id : str).       (* type tool_output, "placeholder": True *)

(** [event["type"]] *)
Definition type (e : event) : etype :=
  match e with
  | Observation _ | TimeoutObservation _ => observation
  | AiMessage _ _ => ai_message
  | Planning _ => planning
  | Reasoning _ => reasoning
  | ToolCall _ _ => tool_call
  | FinalAnswer _ => final_answer
  | HumanMessage _ => human_message
  | Message _ => message
  | Placeholder _ => tool_output
  end.

(** [event.get("priority")] *)
Definition priority_of (e : event) : option priority :=
  match e with
  | Observation _ | ToolCall _ _ | FinalAnswer _ => Some HIGH
  | AiMessage _ p => Some p
  | _ => None
  end.

(** [event.get("tool_id")] *)
Definition tool_id_of (e : event) : option str :=
  match e with
  | ToolCall i _ | TimeoutObservation i | Placeholder i => Some i
  | _ => None
  end.

Definition nonempty {A : Type} (l : list A) : bool :=
  match l with [] => false | _ :: _ => true end.

Definition ai_header : str :=
  lit "================================== Ai Message ==================================".

Definition protocol_keywords : list str :=
  [ lit "step-by-step protocol:"; lit "experimental protocol:";
    lit "cloning protocol:"; lit "final protocol:";
    lit "here is the complete protocol"; lit "here's the step-by-step";
    lit "detailed experimental procedure:" ].

Definition lab_keywords : list str :=
  [ lit "incubate"; lit "ligate"; lit "transform"; lit "plate";
    lit "digest"; lit "pcr"; lit "amplif" ].

(** [int(x)] of a number: truncation towards zero.  Where the source takes
    [int(time.time()*1000)] the product is taken exactly here, while the
    float product of the source is rounded first: the two integers are the
    same for a reading that is a whole number of milliseconds, and can
    differ by one otherwise, in the digits of a tool id. *)
Definition int_of_Q (q : Q) : Z := Z.quot (Qnum q) (Zpos (Qden q)).

(** The text before the first [c], and the text after it. *)
Fixpoint break_at (c : char) (s : str) : option (str * str) :=
  match s with
  | [] => None
  | x :: s' =>
      if N.eqb x c then Some ([], s')
      else match break_at c s' with
           | Some (a, b) => Some (x :: a, b)
           | None => None
           end
  end.

Fixpoint take_until_dot (s : str) : str :=
  match s with
  | [] => []
  | c :: s' => if N.eqb c 46%N then [] else c :: take_until_dot s'
  end.

(** The tail [\s*(.+?)(?:\.|$)] of the three checklist patterns, on a line
    without newline: group 2.  The lazy group takes one character and grows
    up to the next full stop or the end of the line; when only blanks are
    left, the greedy [\s*] gives its last one back. *)
Definition lazy_task (rest : str) : option str :=
  match lstrip rest with
  | x :: more => Some (x :: take_until_dot more)
  | [] => match rev rest with
          | w :: _ => Some [w]
          | [] => None
          end
  end.

(** The bracketed group 1 (every character up to the first closing
    bracket) followed by the tail, from just after the opening bracket:
    groups 1 and 2. *)
Definition checkbox_and_task (s : str) : option (str * str) :=
  match break_at 93%N s with
  | Some (box, rest) => option_map (fun t => (box, t)) (lazy_task rest)
  | None => None
  end.

Definition after_open_bracket (s : str) : option (str * str) :=
  match lstrip s with
  | 91%N :: s' => checkbox_and_task s'
  | _ => None
  end.

Section WithWorld.
Variable U : unicode.
Variable time_time : nat -> Q.   (* the successive readings of [time.time()] *)

(** [re.search(r'(?i)(a|b|...)', s)] for literal alternatives. *)
Fixpoint istartswith (p s : str) : bool :=
  match p, s with
  | [], _ => true
  | _ :: _, [] => false
  | x :: p', y :: s' => re_ieq U x y && istartswith p' s'
  end.

Fixpoint isearch (alts : list str) (s : str) : bool :=
  existsb (fun p => istartswith p s) alts
  || match s with
     | [] => false
     | _ :: s' => isearch alts s'
     end.

(** The three patterns of [extract_todos], tried in this order. *)
Definition numbered_item (line : str) : option (str * str) :=
  match lstrip line with
  | d :: _ as l =>
      if re_digit U d then
        match Classifier.drop_while (re_digit U) l with
        | 46%N :: s => after_open_bracket s
        | _ => None
        end
      else None
  | [] => None
  end.

Definition bullet_item (line : str) : option (str * str) :=
  match lstrip line with
  | c :: s =>
      if (N.eqb c 45%N || N.eqb c 42%N || N.eqb c 43%N)%bool
      then after_open_bracket s else None
  | [] => None
  end.

Definition bare_item (line : str) : option (str * str) :=
  after_open_bracket line.

Definition match_item (line : str) : option (str * str) :=
  match numbered_item line with
  | Some g => Some g
  | None =>
      match bullet_item line with
      | Some g => Some g
      | None => bare_item line
      end
  end.

Definition in_list (x : str) (l : list str) : bool := existsb (str_eqb x) l.

Definition status_of (checkbox : str) : todo_status :=
  if in_list checkbox [[10003%N]; [10004%N]; lit "x"; lit "X"; lit "done"]
  then completed
  else if in_list checkbox [[10007%N]; [10005%N]; [10006%N]; lit "failed"]
  then failed
  else pending.

Fixpoint todos_of_lines (lines : list str) : list todo :=
  match lines with
  | [] => []
  | line :: rest =>
      match match_item (strip line) with
      | Some (g1, g2) =>
          {| step := strip g2; status := status_of (strip g1) |} :: todos_of_lines rest
      | None => todos_of_lines rest
      end
  end.

Definition extract_todos (content : str) : list todo :=
  todos_of_lines (split_nl content).

(** What [parse_chunk_with_llm] reads and writes besides its argument: the
    orchestrator's own table of pending calls and the clock. *)
Record pstate := { pending_tool_calls : PyDict.dict bool; ticks : nat }.

Definition parser := str -> pstate -> list event * pstate.

(** [rec s] if [s] is not empty, as in [if before: events.extend(...)]. *)
Definition parse_if_nonempty (rec : parser) (s : str) (st : pstate)
  : list event * pstate :=
  if nonempty s then rec s st else ([], st).

Fixpoint index_where {A : Type} (f : A -> bool) (l : list A) : option nat :=
  match l with
  | [] => None
  | x :: l' => if f x then Some 0 else option_map S (index_where f l')
  end.

(** The text after the header line. *)
Definition ai_content_of (chunk : str) : str :=
  let lines := split_nl chunk in
  let content_start :=
    match index_where (contains (lit "Ai Message")) lines with
    | Some i => S i
    | None => 0
    end in
  strip (join_nl (skipn content_start lines)).

(** Priority 0: a chunk with the AI message header.  [None] when the rule
    does not return and the next one is tried. *)
Definition rule_header (rec : parser) (chunk : str) (st : pstate)
  : option (list event * pstate) :=
  if contains ai_header chunk then
    let ai_content := ai_content_of chunk in
    if nonempty ai_content then
      let events :=
        if contains Controller.observation_open ai_content
           && contains Controller.observation_close ai_content then
          match search_tag Controller.observation_open Controller.observation_close ai_content with
          | Some obs_match =>
              let before := strip (firstn (m_start obs_match) ai_content) in
              let after := strip (skipn (m_end obs_match) ai_content) in
              Observation (strip (m_group obs_match))
              :: (if nonempty before || nonempty after then
                    let remaining_content := strip (before ++ [NL] ++ after) in
                    if nonempty remaining_content
                    then [AiMessage remaining_content NORMAL] else []
                  else [])
          | None => []
          end
        else [AiMessage ai_content HIGH] in
      if contains Controller.execute_open ai_content then
        let (remaining_events, st') := rec ai_content st in
        Some (events ++
              filter (fun evt => negb (etype_eqb (type evt) ai_message
                                       || etype_eqb (type evt) observation))
                     remaining_events, st')
      else Some (events, st)
    else None
  else None.

(** Priority 1: an observation block. *)
Definition rule_observation (rec : parser) (chunk : str) (st : pstate)
  : option (list event * pstate) :=
  if contains Controller.observation_open chunk
     && contains Controller.observation_close chunk then
    match search_tag Controller.observation_open Controller.observation_close chunk with
    | Some obs_match =>
        let output := strip (m_group obs_match) in
        let before := strip (firstn (m_start obs_match) chunk) in
        let (events_before, st1) := parse_if_nonempty rec before st in
        let after := strip (skipn (m_end obs_match) chunk) in
        let (events_after, st2) := parse_if_nonempty rec after st1 in
        Some (Observation output :: events_before ++ events_after, st2)
    | None => None
    end
  else None.

(** Priority 2: an execute block. *)
Definition rule_execute (rec : parser) (chunk : str) (st : pstate)
  : option (list event * pstate) :=
  if contains Controller.execute_open chunk
     && contains Controller.execute_close chunk then
    match search_tag Controller.execute_open Controller.execute_close chunk with
    | Some code_match =>
        let code := strip (m_group code_match) in
        let tool_id :=
          lit "tool_" ++ str_of_Z (int_of_Q (time_time (ticks st) * 1000)) in
        let before_code := strip (firstn (m_start code_match) chunk) in
        let events_before :=
          if nonempty before_code then
            let todos := extract_todos before_code in
            if nonempty todos then [Planning todos]
            else if isearch [lit "thinking"; lit "plan"; lit "approach"] before_code
                 then [Reasoning before_code]
                 else []
          else [] in
        let st1 :=
          {| pending_tool_calls := PyDict.set tool_id true (pending_tool_calls st);
             ticks := S (ticks st) |} in
        let after := strip (skipn (m_end code_match) chunk) in
        let (events_after, st2) := parse_if_nonempty rec after st1 in
        Some (events_before ++ [ToolCall tool_id code] ++ events_after, st2)
    | None => None
    end
  else None.

(** Priority 3: a solution block. *)
Definition rule_solution (chunk : str) : option (list event) :=
  if contains Controller.solution_open chunk
     && contains Controller.solution_close chunk then
    match search_tag Controller.solution_open Controller.solution_close chunk with
    | Some sol_match => Some [FinalAnswer (strip (m_group sol_match))]
    | None => None
    end
  else None.

(** A protocol written without solution tags. *)
Definition rule_protocol (chunk : str) : option (list event) :=
  if contains_any protocol_keywords (lower U chunk) then
    if (300 <? len chunk)%Z && contains_any lab_keywords (lower U chunk)
    then Some [FinalAnswer chunk] else None
  else None.

(** Priority 4: checklist lines. *)
Definition rule_todos (chunk : str) : option (list event) :=
  let todos := extract_todos chunk in
  if nonempty todos then Some [Planning todos] else None.

(** [content = '\n'.join(lines[2:]) if len(lines) > 2 else ''] *)
Definition after_two_lines (chunk : str) : str :=
  let lines := split_nl chunk in
  if 2 <? length lines then join_nl (skipn 2 lines) else [].

(** Priority 5: message headers. *)
Definition rule_message_header (rec : parser) (chunk : str) (st : pstate)
  : option (list event * pstate) :=
  if contains (lit "Ai Message") chunk then
    let content := after_two_lines chunk in
    if nonempty (strip content) then
      let todos := extract_todos content in
      let events :=
        AiMessage content HIGH :: (if nonempty todos then [Planning todos] else []) in
      if contains Controller.execute_open content then
        let (remaining_events, st') := rec content st in
        Some (events ++
              filter (fun evt => negb (etype_eqb (type evt) message)) remaining_events,
              st')
      else Some (events, st)
    else Some ([], st)
  else if contains (lit "Human Message") chunk then
    let content := after_two_lines chunk in
    if nonempty (strip content) then Some ([HumanMessage content], st)
    else Some ([], st)
  else None.

Definition reasoning_words : list str :=
  [ lit "thinking"; lit "analyzing"; lit "planning"; lit "approach";
    lit "need to"; lit "will"; lit "should" ].

(** Priority 6: reasoning words. *)
Definition rule_reasoning (chunk : str) : option (list event) :=
  if isearch reasoning_words chunk then Some [Reasoning chunk] else None.

(** "Default: treat as message" *)
Definition default_rule (chunk : str) : list event :=
  if nonempty chunk && negb (startswith (lit "=") chunk)
  then [Message chunk] else [].

Definition pure (st : pstate) (r : option (list event))
  : option (list event * pstate) :=
  option_map (fun es => (es, st)) r.

Definition or_else {A : Type} (a : option A) (b : A) : A :=
  match a with Some x => x | None => b end.

(** The rules after the emptiness test, in the order of the source. *)
Definition parse_rules (rec : parser) (chunk : str) (st : pstate)
  : list event * pstate :=
  or_else (rule_header rec chunk st)
  (or_else (rule_observation rec chunk st)
  (or_else (rule_execute rec chunk st)
  (or_else (pure st (rule_solution chunk))
  (or_else (pure st (rule_protocol chunk))
  (or_else (pure st (rule_todos chunk))
  (or_else (rule_message_header rec chunk st)
  (or_else (pure st (rule_reasoning chunk))
  (default_rule chunk, st)))))))).

(** [parse_chunk_with_llm], with the depth of the recursion bounded by
    [fuel].  Every recursive call is on a strictly shorter text, so one unit
    of fuel for each character of the chunk and one more never run out
    ([OrchestratorFacts.parse_fuel_enough]). *)
Fixpoint parse_fuel (fuel : nat) (chunk : str) (st : pstate)
  : list event * pstate :=
  match fuel with
  | 0 => ([], st)
  | S fuel' =>
      let chunk := strip chunk in
      if nonempty chunk then parse_rules (parse_fuel fuel') chunk st
      else ([], st)
  end.

Definition parse_chunk_with_llm (chunk : str) (st : pstate)
  : list event * pstate :=
  parse_fuel (S (length chunk)) chunk st.

(** [ensure_event_completion]: a placeholder for every pending call whose
    entry is true, and the entry is deleted. *)
Fixpoint ensure_event_completion (d : PyDict.dict bool)
  : list event * PyDict.dict bool :=
  match d with
  | [] => ([], [])
  | (tool_id, flag) :: d' =>
      let (events, kept) := ensure_event_completion d' in
      if flag then (Placeholder tool_id :: events, kept)
      else (events, (tool_id, flag) :: kept)
  end.

(** [EventOrchestrator] *)
Record orchestrator_state := {
  o_pending_tool_calls : PyDict.dict bool;
  chunk_buffer : list str;
  last_event_type : option etype
}.

(** [collections.deque(maxlen=n).append] *)
Definition deque_append {A : Type} (maxlen : nat) (x : A) (d : list A) : list A :=
  let d' := d ++ [x] in skipn (length d' - maxlen) d'.

(** [SmartEventProcessor] *)
Record processor := {
  orchestrator : orchestrator_state;
  event_history : list event;
  last_sent_time : Q;
  p_pending_tool_calls : PyDict.dict Q;
  tool_timeout : Q
}.

Definition init_orchestrator : orchestrator_state :=
  {| o_pending_tool_calls := []; chunk_buffer := []; last_event_type := None |}.

(** [SmartEventProcessor.__init__], which reads the clock once. *)
Definition init_processor (now : nat) : processor * nat :=
  ({| orchestrator := init_orchestrator; event_history := [];
      last_sent_time := time_time now; p_pending_tool_calls := [];
      tool_timeout := 600 |}, S now).

Definition exempt_from_dedup (t : etype) : bool :=
  etype_eqb t tool_call || etype_eqb t tool_output || etype_eqb t planning.

(** The loop of [process_chunk_stream] over the parsed events: what is
    yielded, and the last event type afterwards. *)
Fixpoint dedup (events : list event) (last : option etype)
  : list event * option etype :=
  match events with
  | [] => ([], last)
  | e :: rest =>
      match priority_of e with
      | Some HIGH => let (ys, l) := dedup rest last in (e :: ys, l)
      | _ =>
          let same := match last with
                      | Some t => etype_eqb (type e) t
                      | None => false
                      end in
          if negb same || exempt_from_dedup (type e)
          then let (ys, l) := dedup rest (Some (type e)) in (e :: ys, l)
          else dedup rest last
      end
  end.

Definition process_chunk_stream (chunk : str) (o : orchestrator_state) (now : nat)
  : list event * orchestrator_state * nat :=
  let (events, st) :=
    parse_chunk_with_llm chunk
      {| pending_tool_calls := o_pending_tool_calls o; ticks := now |} in
  let (yielded, last) := dedup events (last_event_type o) in
  (yielded,
   {| o_pending_tool_calls := pending_tool_calls st;
      chunk_buffer := chunk_buffer o ++ [chunk];
      last_event_type := last |},
   ticks st).

(** The body of the loop of [process_agent_output] for one event. *)
Definition track (p : processor) (now : nat) (e : event) : processor * nat :=
  let history := deque_append 50 e (event_history p) in
  let (pend, now1) :=
    if etype_eqb (type e) tool_call then
      (* the default of [event.get] is evaluated, which reads the clock *)
      let tool_id := match tool_id_of e with
                     | Some i => i
                     | None => lit "tool_" ++ str_of_Z (int_of_Q (time_time now * 1000))
                     end in
      (PyDict.set tool_id (time_time (S now)) (p_pending_tool_calls p), S (S now))
    else if etype_eqb (type e) tool_output || etype_eqb (type e) observation then
      match tool_id_of e with
      | Some tool_id =>
          if nonempty tool_id
             && match PyDict.get tool_id (p_pending_tool_calls p) with
                | Some _ => true | None => false end
          then (PyDict.del tool_id (p_pending_tool_calls p), now)
          else (p_pending_tool_calls p, now)
      | None => (p_pending_tool_calls p, now)
      end
    else (p_pending_tool_calls p, now) in
  ({| orchestrator := orchestrator p; event_history := history;
      last_sent_time := time_time now1; p_pending_tool_calls := pend;
      tool_timeout := tool_timeout p |}, S now1).

Fixpoint track_all (p : processor) (now : nat) (events : list event)
  : processor * nat :=
  match events with
  | [] => (p, now)
  | e :: rest => let (p', now') := track p now e in track_all p' now' rest
  end.

(** [process_agent_output], run to the end of its stream. *)
Definition process_agent_output (content : str) (p : processor) (now : nat)
  : list event * processor * nat :=
  if nonempty content && nonempty (strip content) then
    let '(events, orch, now1) := process_chunk_stream content (orchestrator p) now in
    let p1 := {| orchestrator := orch; event_history := event_history p;
                 last_sent_time := last_sent_time p;
                 p_pending_tool_calls := p_pending_tool_calls p;
                 tool_timeout := tool_timeout p |} in
    let (p2, now2) := track_all p1 now1 events in
    (events, p2, now2)
  else ([], p, now).

(** The first loop of [check_pending_events], over a snapshot of the items:
    the timeout events, and the table without the entries that timed out.
    A time is the rational value of the float of the source, and the
    difference [current_time - sent_time] is taken exactly.  The source
    subtracts floats, which rounds the exact difference to the nearest
    float: the two agree when the exact difference is a float, as it is for
    two readings of [time.time()] less than 2^31 seconds apart
    ([Statements.on_grid], [OrchestratorFacts.grid_difference_exact]), and
    can differ on other floats (the floats 700.1 and 100.1 are more than 600
    apart, their float difference is 600.0). *)
Fixpoint expire (current_time timeout : Q) (items : list (str * Q))
                (table : PyDict.dict Q) : list event * PyDict.dict Q :=
  match items with
  | [] => ([], table)
  | (tool_id, sent_time) :: rest =>
      if Qlt_le_dec timeout (current_time - sent_time) then
        let (events, table') :=
          expire current_time timeout rest (PyDict.del tool_id table) in
        (TimeoutObservation tool_id :: events, table')
      else expire current_time timeout rest table
  end.

Fixpoint append_all {A : Type} (maxlen : nat) (xs : list A) (d : list A) : list A :=
  match xs with
  | [] => d
  | x :: xs' => append_all maxlen xs' (deque_append maxlen x d)
  end.

(** [check_pending_events], run to the end of its stream.  The difference
    compared with 2.0 is exact, as in [expire]. *)
Definition check_pending_events (p : processor) (now : nat)
  : list event * processor * nat :=
  let current_time := time_time now in
  let (timeouts, pend) :=
    expire current_time (tool_timeout p) (p_pending_tool_calls p)
           (p_pending_tool_calls p) in
  let (completion_events, o') :=
    if Qlt_le_dec 2 (time_time (S now) - last_sent_time p) then
      let (events, kept) :=
        ensure_event_completion (o_pending_tool_calls (orchestrator p)) in
      (events, {| o_pending_tool_calls := kept;
                  chunk_buffer := chunk_buffer (orchestrator p);
                  last_event_type := last_event_type (orchestrator p) |})
    else ([], orchestrator p) in
  (timeouts ++ completion_events,
   {| orchestrator := o';
      event_history := append_all 50 (timeouts ++ completion_events) (event_history p);
      last_sent_time := last_sent_time p;
      p_pending_tool_calls := pend;
      tool_timeout := tool_timeout p |},
   S (S now)).

End WithWorld.

End Orchestrator.

(* ================================================================== *)
(** * Scripted surroundings for concrete runs *)
(* ================================================================== *)

Module Scenario.
Import Controller.

(** A model that answers from a script, one outcome per call. *)
Definition script := list llm_outcome.

Definition scripted (l : script) (_ : list message) : llm_outcome * script :=
  match l with
  | [] => (ReturnedNone, [])
  | o :: l' => (o, l')
  end.

(** Runners that give the code back as their output. *)
Definition echo (_ : runner) (code : str) (env : unit) : str * unit := (code, env).

Definition gen (state : AgentState) (l : script) : result (AgentState * script) :=
  generate ascii_tables script scripted (lit "You are a helpful assistant.") state l.

Definition exe (state : AgentState) : result (AgentState * unit) :=
  execute unit echo (fun e => e) state tt.

Definition question : AgentState :=
  {| messages := [HumanMessage (lit "compute 2+2")]; next_step := None |}.

(** [n] rounds of [generate] against a model that gives the same answer
    every time, following the edge from [generate] back to itself. *)
Fixpoint rounds (reply : str) (n : nat) (state : AgentState) : option AgentState :=
  match n with
  | 0 => Some state
  | S n' =>
      match gen state [Returned (Some reply)] with
      | Ok (state', _) =>
          match routing_function state' with
          | Ok Generate => rounds reply n' state'
          | _ => None
          end
      | Raised _ => None
      end
  end.

Definition long_text : str := times 65%N 2001.

Definition long_observation : message :=
  AIMessage (observation_open ++ long_text ++ observation_close).

Definition short_observation : message :=
  AIMessage (lit "<observation>4</observation>").

Definition history : AgentState :=
  {| messages := [HumanMessage (lit "list the genes"); long_observation; short_observation];
     next_step := Some Generate |}.

(** A clock that advances by one second at every reading. *)
Definition clock (n : nat) : Q := inject_Z (1700000000 + Z.of_nat n).

Definition fresh : Orchestrator.pstate :=
  {| Orchestrator.pending_tool_calls := []; Orchestrator.ticks := 0 |}.

(** A processor with one call dispatched at second 100 and still pending. *)
Definition waiting : Orchestrator.processor :=
  {| Orchestrator.orchestrator := Orchestrator.init_orchestrator;
     Orchestrator.event_history := [];
     Orchestrator.last_sent_time := 100;
     Orchestrator.p_pending_tool_calls := [(lit "tool_100000", 100%Q)];
     Orchestrator.tool_timeout := 600 |}.

(** A processor with one call dispatched at second 1,699,999,000 and still
    pending: 1000 seconds before the first reading of [clock]. *)
Definition stale : Orchestrator.processor :=
  {| Orchestrator.orchestrator := Orchestrator.init_orchestrator;
     Orchestrator.event_history := [];
     Orchestrator.last_sent_time := 1699999000;
     Orchestrator.p_pending_tool_calls := [(lit "tool_1699999000000", 1699999000%Q)];
     Orchestrator.tool_timeout := 600 |}.

Definition overflow : llm_outcome := Failed (lit "maximum context length exceeded").

Definition done : llm_outcome := Returned (Some (lit "<solution>done</solution>")).

(** The state [generate] leaves when the first call on [history] overflows
    and the second call answers [done]. *)
Definition recovered : AgentState :=
  {| messages := [HumanMessage (lit "list the genes");
                  truncated_observation long_text;
                  short_observation;
                  AIMessage (lit "<solution>done</solution>")];
     next_step := Some End |}.

(** A reply that asks for one line to be run. *)
Definition short_run : AgentState :=
  {| messages := [HumanMessage (lit "compute 2+2");
                  AIMessage (lit "<execute>print(2+2)</execute>")];
     next_step := Some Execute |}.

End Scenario.

(* ================================================================== *)
(** * Notions used in the statements *)
(* ================================================================== *)

Module Statements.

(** An opening tag of [s] that no closing tag follows. *)
Definition unterminated (op cl s : str) : Prop :=
  exists i, startswith op (skipn i s) = true
            /\ contains cl (skipn (i + length op) s) = false.

(** The observation text of an AI message that holds a complete
    observation block of more than 2,000 characters: the messages the
    recovery of [generate] rewrites. *)
Definition long_observation_of (m : Controller.message) : option str :=
  if Controller.is_ai m
     && contains Controller.observation_open (Controller.content m) then
    match search_tag Controller.observation_open Controller.observation_close
                     (Controller.content m) with
    | Some obs_match =>
        if (2000 <? len (m_group obs_match))%Z
        then Some (m_group obs_match) else None
    | None => None
    end
  else None.

(** A message the recovery leaves as it is. *)
Definition untouched (m : Controller.message) : Prop :=
  long_observation_of m = None.

(** An AI message that bears an observation at all. *)
Definition bears_observation (m : Controller.message) : bool :=
  Controller.is_ai m
  && contains Controller.observation_open (Controller.content m).


Definition kinds (events : list Classifier.event) : list Classifier.kind :=
  map Classifier.type events.

(** A classifier argument with the given [content]. *)
Definition with_content (c : str) : Classifier.py_message :=
  {| Classifier.attr_content := Some c; Classifier.as_str := lit "<message>" |}.

(** Two parsers that give the same result on every text shorter than [n]. *)
Definition agree_below (n : nat) (f g : Orchestrator.parser) : Prop :=
  forall s st, length s < n -> f s st = g s st.

(** A parser that finds nothing, to ask whether a rule returns at all. *)
Definition idle : Orchestrator.parser := fun _ st => ([], st).

(** None of the rules of [parse_chunk_with_llm] returns on [chunk], so that
    the default at its end is reached. *)
Definition unmatched (U : unicode) (time_time : nat -> Q)
           (chunk : str) (st : Orchestrator.pstate) : Prop :=
  Orchestrator.rule_header idle chunk st = None
  /\ Orchestrator.rule_observation idle chunk st = None
  /\ Orchestrator.rule_execute U time_time idle chunk st = None
  /\ Orchestrator.rule_solution chunk = None
  /\ Orchestrator.rule_protocol U chunk = None
  /\ Orchestrator.rule_todos U chunk = None
  /\ Orchestrator.rule_message_header U idle chunk st = None
  /\ Orchestrator.rule_reasoning U chunk = None.

(** A time that is a whole multiple of 2^-22 seconds.  Every float of
    magnitude 2^30 or more is one (its unit in the last place is 2^-22 or a
    multiple of it), so every reading of [time.time()] since January 2004 is
    one. *)
Definition on_grid (q : Q) : Prop := exists k : Z, (q == k # 4194304)%Q.

(** The decision of [check_pending_events] on one entry. *)
Definition timed_out (current_time timeout sent_time : Q) : bool :=
  if Qlt_le_dec timeout (current_time - sent_time) then true else false.

(** The timeout event of [check_pending_events] for the call [tool_id]. *)
Definition is_timeout_for (tool_id : str) (e : Orchestrator.event) : bool :=
  match e with
  | Orchestrator.TimeoutObservation i => str_eqb i tool_id
  | _ => false
  end.

End Statements.

(* ================================================================== *)
(** * The workflow built by [A1.configure] *)
(* ================================================================== *)

Module Workflow.
Import Controller.

(** What the nodes read and write: the agent state, the provider, the
    interpreters, and [self.critic_count]. *)
Record world (LLM Env : Type) := {
  state : AgentState;
  llm : LLM;
  env : Env;
  critic_count : nat
}.
Arguments state {LLM Env} w.
Arguments llm {LLM Env} w.
Arguments env {LLM Env} w.
Arguments critic_count {LLM Env} w.

(** How a run of the compiled workflow ends: at [END], by an exception that
    escapes a node or a routing function, or at the recursion limit. *)
Inductive outcome (W : Type) :=
| Finished (w : W)
| Crashed (e : str)
| OutOfSteps.
Arguments Finished {W} w.
Arguments Crashed {W} e.
Arguments OutOfSteps {W}.

Section Graph.
Variable U : unicode.
Variable LLM : Type.
Variable invoke : LLM -> list message -> llm_outcome * LLM.
Variable system_prompt : str.
Variable Env : Type.
Variable run_with_timeout : runner -> str -> Env -> str * Env.
Variable inject_custom_functions_to_repl : Env -> Env.
Variable self_critic : bool.
Variable test_time_scale_round : nat.
Variable user_task : str.

(** One node and the edge that leaves it. *)
Definition node_step (n : node) (w : world LLM Env) : result (node * world LLM Env) :=
  match n with
  | generate_node =>
      match generate U LLM invoke system_prompt (state w) (llm w) with
      | Ok (st, l) =>
          match routing_function st with
          | Ok s => Ok (after_generate self_critic s,
                        {| state := st; llm := l; env := env w;
                           critic_count := critic_count w |})
          | Raised e => Raised e
          end
      | Raised e => Raised e
      end
  | execute_node =>
      match execute Env run_with_timeout inject_custom_functions_to_repl
                    (state w) (env w) with
      | Ok (st, e) =>
          Ok (generate_node,
              {| state := st; llm := llm w; env := e;
                 critic_count := critic_count w |})
      | Raised e => Raised e
      end
  | self_critic_node =>
      match execute_self_critic LLM invoke test_time_scale_round user_task
                                (state w) (critic_count w) (llm w) with
      | Ok (st, k, l) =>
          match routing_function_self_critic st with
          | Ok s => Ok (after_self_critic s,
                        {| state := st; llm := l; env := env w;
                           critic_count := k |})
          | Raised e => Raised e
          end
      | Raised e => Raised e
      end
  | END => Ok (END, w)
  end.

(** The run of the workflow from a node, for at most [limit] nodes. *)
Fixpoint run (limit : nat) (n : node) (w : world LLM Env) : outcome (world LLM Env) :=
  match n with
  | END => Finished w
  | _ =>
      match limit with
      | 0 => OutOfSteps
      | S limit' =>
          match node_step n w with
          | Ok (n', w') => run limit' n' w'
          | Raised e => Crashed e
          end
      end
  end.

End Graph.

(** [go]: the counter of critiques starts at 0, the task is the prompt, the
    list of messages holds the prompt alone, and the run starts at
    [generate].  [limit] stands for the recursion limit handed to the
    library. *)
Definition go (U : unicode) (LLM : Type)
    (invoke : LLM -> list message -> llm_outcome * LLM) (system_prompt : str)
    (Env : Type) (run_with_timeout : runner -> str -> Env -> str * Env)
    (inject_custom_functions_to_repl : Env -> Env)
    (self_critic : bool) (test_time_scale_round : nat)
    (limit : nat) (prompt : str) (l : LLM) (e : Env)
  : outcome (world LLM Env) :=
  run U LLM invoke system_prompt Env run_with_timeout
      inject_custom_functions_to_repl self_critic test_time_scale_round prompt
      limit generate_node
      {| state := {| messages := [HumanMessage prompt]; next_step := None |};
         llm := l; env := e; critic_count := 0 |}.

End Workflow.

(* ================================================================== *)
(** * More notions used in the statements *)
(* ================================================================== *)

Module Statements2.

(** [s.endswith(a)] *)
Definition endswith (a s : str) : bool := startswith (rev a) (rev s).

(** No occurrence of [p] can begin in [s] and end after it: no proper,
    non-empty head of [p] ends [s]. *)
Definition no_straddle (p s : str) : bool :=
  forallb (fun k => negb (endswith (firstn k p) s)) (seq 1 (length p - 1)).

(** An event of the kind the chunk parser builds: neither the timeout
    observation nor the placeholder, which only the processor yields. *)
Definition from_parser (e : Orchestrator.event) : bool :=
  match e with
  | Orchestrator.TimeoutObservation _ | Orchestrator.Placeholder _ => false
  | _ => true
  end.

Definition is_tool_call (e : Orchestrator.event) : bool :=
  Orchestrator.etype_eqb (Orchestrator.type e) Orchestrator.tool_call.

(** The events [process_chunk_stream] always yields: those of high
    priority, and the tool calls, tool outputs and plans. *)
Definition always_yielded (e : Orchestrator.event) : bool :=
  match Orchestrator.priority_of e with
  | Some Orchestrator.HIGH => true
  | _ => Orchestrator.exempt_from_dedup (Orchestrator.type e)
  end.

(** An event of high priority. *)
Definition is_high (e : Orchestrator.event) : bool :=
  match Orchestrator.priority_of e with
  | Some Orchestrator.HIGH => true
  | _ => false
  end.

(** What [last_event_type] holds after the events [ys] have been yielded:
    the type of the last of them that is not of high priority, and [last]
    when there is none. *)
Fixpoint recorded (last : option Orchestrator.etype) (ys : list Orchestrator.event)
  : option Orchestrator.etype :=
  match ys with
  | [] => last
  | y :: r => recorded (if is_high y then last else Some (Orchestrator.type y)) r
  end.

(** Among the events of [ys] that are not of high priority, none has the
    type of the one before it ([last], for the first of them), tool calls,
    tool outputs and plans apart. *)
Fixpoint no_repeat (last : option Orchestrator.etype) (ys : list Orchestrator.event)
  : bool :=
  match ys with
  | [] => true
  | y :: r =>
      if is_high y then no_repeat last r
      else (negb match last with
                 | Some t => Orchestrator.etype_eqb (Orchestrator.type y) t
                 | None => false
                 end
            || Orchestrator.exempt_from_dedup (Orchestrator.type y))
           && no_repeat (Some (Orchestrator.type y)) r
  end.

(** The events of a parse and the states before and after it: every tool
    call of the events is pending after it, what was pending still is, the
    clock was read once for each tool call, the events are the parser's own,
    the table is still a dictionary, and its flags are true if they were. *)
Definition tracked (events : list Orchestrator.event) (st st' : Orchestrator.pstate) : Prop :=
  (forall id code, In (Orchestrator.ToolCall id code) events ->
     PyDict.get id (Orchestrator.pending_tool_calls st') = Some true)
  /\ (forall id, PyDict.get id (Orchestrator.pending_tool_calls st) = Some true ->
        PyDict.get id (Orchestrator.pending_tool_calls st') = Some true)
  /\ Orchestrator.ticks st' = Orchestrator.ticks st + length (filter is_tool_call events)
  /\ forallb from_parser events = true
  /\ (PyDict.wf (Orchestrator.pending_tool_calls st) ->
      PyDict.wf (Orchestrator.pending_tool_calls st'))
  /\ (forallb snd (Orchestrator.pending_tool_calls st) = true ->
      forallb snd (Orchestrator.pending_tool_calls st') = true).

(** A parser whose every result is [tracked]. *)
Definition sound (rec : Orchestrator.parser) : Prop :=
  forall s st, tracked (fst (rec s st)) st (snd (rec s st)).

(** [ys] is [l] with some elements left out. *)
Inductive subseq {A : Type} : list A -> list A -> Prop :=
| subseq_nil : subseq [] []
| subseq_keep x ys l : subseq ys l -> subseq (x :: ys) (x :: l)
| subseq_drop x ys l : subseq ys l -> subseq ys (x :: l).


End Statements2.

(* ================================================================== *)
(** * The custom data of the agent ([A1.add_data] and its companions) *)
(* ================================================================== *)

Module Registry.

(** [os.path.basename] of a POSIX path: what follows the last slash. *)
Fixpoint basename (p : str) : str :=
  match p with
  | [] => []
  | c :: p' =>
      if existsb (N.eqb 47) p' then basename p'
      else if N.eqb c 47 then p' else p
  end.

(** [os.path.basename(file_path) if "/" in file_path else file_path] *)
Definition filename_of (file_path : str) : str :=
  if contains (lit "/") file_path then basename file_path else file_path.

(** The value stored for a data item. *)
Record data_item := { path : str; description : str }.

(** The attributes the four methods read and write: [_custom_data], absent
    until the first call of [add_data], and [data_lake_dict]. *)
Record agent := {
  _custom_data : option (PyDict.dict data_item);
  data_lake_dict : PyDict.dict str
}.

(** The argument of [add_data]: some value that is not a dictionary, or a
    dictionary, whose keys and values may fail to be strings ([None]). *)
Inductive data_arg :=
| NotADict
| Dict (items : list (option str * option str)).

Definition or_empty (d : option (PyDict.dict data_item)) : PyDict.dict data_item :=
  match d with Some t => t | None => [] end.

(** The loop of [add_data] over the items of the dictionary. *)
Fixpoint add_items (items : list (option str * option str))
         (custom : PyDict.dict data_item) (lake : PyDict.dict str)
  : PyDict.dict data_item * PyDict.dict str :=
  match items with
  | [] => (custom, lake)
  | (Some file_path, Some descr) :: rest =>
      let filename := filename_of file_path in
      add_items rest
        (PyDict.set filename {| path := file_path; description := descr |} custom)
        (PyDict.set filename descr lake)
  | _ :: rest => add_items rest custom lake
  end.

(** [add_data].  [configure_returns] tells whether the call of
    [self.configure()] at its end returns; when it raises, the exception is
    caught and the result is [False], the items staying added. *)
Definition add_data (data : data_arg) (configure_returns : bool) (a : agent)
  : agent * bool :=
  match data with
  | NotADict => (a, false)
  | Dict items =>
      let (custom, lake) := add_items items (or_empty (_custom_data a)) (data_lake_dict a) in
      ({| _custom_data := Some custom; data_lake_dict := lake |}, configure_returns)
  end.

Definition has_key {V : Type} (k : str) (d : PyDict.dict V) : bool :=
  match PyDict.get k d with Some _ => true | None => false end.

(** [get_custom_data] *)
Definition get_custom_data (name : str) (a : agent) : option data_item :=
  match _custom_data a with
  | Some custom => PyDict.get name custom
  | None => None
  end.

(** [list_custom_data] *)
Definition list_custom_data (a : agent) : list (str * str) :=
  match _custom_data a with
  | Some custom => map (fun kv => (fst kv, description (snd kv))) custom
  | None => []
  end.

(** [remove_custom_data] *)
Definition remove_custom_data (name : str) (a : agent) : agent * bool :=
  let (custom, removed1) :=
    match _custom_data a with
    | Some custom =>
        if has_key name custom then (Some (PyDict.del name custom), true)
        else (Some custom, false)
    | None => (None, false)
    end in
  let (lake, removed2) :=
    if has_key name (data_lake_dict a)
    then (PyDict.del name (data_lake_dict a), true)
    else (data_lake_dict a, false) in
  ({| _custom_data := custom; data_lake_dict := lake |}, removed1 || removed2).

(** ** The custom software ([A1.add_software] and its companions) *)

Record software_item := { name : str; sw_description : str }.

(** [_custom_software], absent until the first call of [add_software], and
    [library_content_dict]. *)
Record library := {
  _custom_software : option (PyDict.dict software_item);
  library_content_dict : PyDict.dict str
}.

Definition or_none (d : option (PyDict.dict software_item)) : PyDict.dict software_item :=
  match d with Some t => t | None => [] end.

(** The loop of [add_software]: the name is the key as it is given. *)
Fixpoint add_software_items (items : list (option str * option str))
         (custom : PyDict.dict software_item) (lib : PyDict.dict str)
  : PyDict.dict software_item * PyDict.dict str :=
  match items with
  | [] => (custom, lib)
  | (Some software_name, Some descr) :: rest =>
      add_software_items rest
        (PyDict.set software_name {| name := software_name; sw_description := descr |} custom)
        (PyDict.set software_name descr lib)
  | _ :: rest => add_software_items rest custom lib
  end.

(** [add_software], with [configure_returns] as for [add_data]. *)
Definition add_software (software : data_arg) (configure_returns : bool) (a : library)
  : library * bool :=
  match software with
  | NotADict => (a, false)
  | Dict items =>
      let (custom, lib) :=
        add_software_items items (or_none (_custom_software a)) (library_content_dict a) in
      ({| _custom_software := Some custom; library_content_dict := lib |}, configure_returns)
  end.

(** [get_custom_software] *)
Definition get_custom_software (n : str) (a : library) : option software_item :=
  match _custom_software a with
  | Some custom => PyDict.get n custom
  | None => None
  end.

(** [list_custom_software] *)
Definition list_custom_software (a : library) : list (str * str) :=
  match _custom_software a with
  | Some custom => map (fun kv => (fst kv, sw_description (snd kv))) custom
  | None => []
  end.

(** [remove_custom_software] *)
Definition remove_custom_software (n : str) (a : library) : library * bool :=
  let (custom, removed1) :=
    match _custom_software a with
    | Some custom =>
        if has_key n custom then (Some (PyDict.del n custom), true)
        else (Some custom, false)
    | None => (None, false)
    end in
  let (lib, removed2) :=
    if has_key n (library_content_dict a)
    then (PyDict.del n (library_content_dict a), true)
    else (library_content_dict a, false) in
  ({| _custom_software := custom; library_content_dict := lib |}, removed1 || removed2).

(** The names under which the valid items of a dictionary are stored. *)
Definition later_names (items : list (option str * option str)) : list str :=
  flat_map (fun it => match it with
                      | (Some p, Some _) => [filename_of p]
                      | _ => []
                      end) items.

(** The names of the valid items of a dictionary of software. *)
Definition valid_names (items : list (option str * option str)) : list str :=
  flat_map (fun it => match it with
                      | (Some n, Some _) => [n]
                      | _ => []
                      end) items.

(** No listed name holds a slash, and no name is repeated. *)
Definition base_names (a : agent) : Prop :=
  (forall n, In n (map fst (list_custom_data a)) -> contains (lit "/") n = false) /\
  PyDict.wf (or_empty (_custom_data a)) /\
  PyDict.wf (data_lake_dict a).

End Registry.

(* ================================================================== *)
(** * More concrete runs *)
(* ================================================================== *)

Module Scenario2.
Import Controller Workflow Scenario.

Definition system_prompt : str := lit "You are a helpful assistant.".

(** The state after the model has answered [question] with [done]. *)
Definition answered : AgentState :=
  {| messages := [HumanMessage (lit "compute 2+2");
                  AIMessage (lit "<solution>done</solution>")];
     next_step := Some End |}.

Definition thought : str := lit "<think>add the numbers</think>".

Definition asks_to_run : llm_outcome :=
  Returned (Some (lit "<execute>print(2+2)</execute>")).

Definition critique : str :=
  lit "Wait... this is not enough to solve the task. Here are some feedbacks for improvement:"
  ++ [NL] ++ lit "show the steps".

(** A run with one round of self-critique: the model answers, criticises
    its answer when asked, and answers again. *)
Definition start : world script unit :=
  {| state := question;
     llm := [done; Returned (Some (lit "show the steps")); done];
     env := tt; critic_count := 0 |}.

Definition finish : world script unit :=
  {| state := {| messages := [HumanMessage (lit "compute 2+2");
                              AIMessage (lit "<solution>done</solution>");
                              HumanMessage critique;
                              AIMessage (lit "<solution>done</solution>")];
                 next_step := Some End |};
     llm := []; env := tt; critic_count := 1 |}.

(** The state the self-critique node leaves after [answered]. *)
Definition criticised : AgentState :=
  {| messages := messages answered ++ [HumanMessage critique];
     next_step := Some Generate |}.

(** A chunk that asks for one line to be run, the event of its dispatch
    (the clock of [Scenario.clock] reads 1700000000 at its first reading),
    and what the parser, the orchestrator and the processor hold after it. *)
Definition run_chunk : str := lit "<execute>print(1)</execute>".

Definition dispatched : Orchestrator.event :=
  Orchestrator.ToolCall (lit "tool_1700000000000") (lit "print(1)").

Definition after_dispatch : Orchestrator.pstate :=
  {| Orchestrator.pending_tool_calls := [(lit "tool_1700000000000", true)];
     Orchestrator.ticks := 1 |}.

Definition after_chunk : Orchestrator.orchestrator_state :=
  {| Orchestrator.o_pending_tool_calls := [(lit "tool_1700000000000", true)];
     Orchestrator.chunk_buffer := [run_chunk];
     Orchestrator.last_event_type := None |}.

Definition after_output : Orchestrator.processor :=
  {| Orchestrator.orchestrator := after_chunk;
     Orchestrator.event_history := [dispatched];
     Orchestrator.last_sent_time := clock 3;
     Orchestrator.p_pending_tool_calls :=
       [(lit "tool_100000", 100%Q); (lit "tool_1700000000000", clock 2)];
     Orchestrator.tool_timeout := 600 |}.

(** A clock that stands at second 650. *)
Definition stopped (_ : nat) : Q := 650.

(** A chunk with code and a remark after it, for an orchestrator whose last
    yielded event of normal priority was a piece of reasoning. *)
Definition run_and_remark : str := lit "<execute>print(1)</execute> we should wrap up.".

Definition remark : Orchestrator.event := Orchestrator.Reasoning (lit "we should wrap up.").

Definition reasoned : Orchestrator.orchestrator_state :=
  {| Orchestrator.o_pending_tool_calls := [];
     Orchestrator.chunk_buffer := [];
     Orchestrator.last_event_type := Some Orchestrator.reasoning |}.

Definition after_remark : Orchestrator.orchestrator_state :=
  {| Orchestrator.o_pending_tool_calls := [(lit "tool_1700000000000", true)];
     Orchestrator.chunk_buffer := [run_and_remark];
     Orchestrator.last_event_type := Some Orchestrator.reasoning |}.

End Scenario2.

(* ================================================================== *)
(** * Facts about strings and tag matching *)
(* ================================================================== *)

Module StrFacts.

Lemma startswith_refl_app (p s : str) : startswith p (p ++ s) = true.
Proof.
  induction p as [|x p IH]; simpl; [reflexivity|].
  now rewrite N.eqb_refl, IH.
Qed.

Lemma startswith_length (p s : str) :
  startswith p s = true -> length p <= length s.
Proof.
  revert s; induction p as [|x p IH]; intros [|y s]; simpl; try lia; try discriminate.
  intros H; apply andb_true_iff in H as [_ H]. apply IH in H. lia.
Qed.

Lemma startswith_app (p s t : str) :
  startswith p s = true -> startswith p (s ++ t) = true.
Proof.
  revert s; induction p as [|x p IH]; intros [|y s]; simpl; try reflexivity; try discriminate.
  intros H; apply andb_true_iff in H as [-> H]. simpl. now apply IH.
Qed.

Lemma startswith_app_inv (p s t : str) :
  length p <= length s -> startswith p (s ++ t) = startswith p s.
Proof.
  revert s; induction p as [|x p IH]; intros [|y s]; simpl; try reflexivity; try lia.
  intros H. f_equal. apply IH. lia.
Qed.

Lemma startswith_split (p s : str) :
  startswith p s = true -> s = p ++ skipn (length p) s.
Proof.
  revert s; induction p as [|x p IH]; intros [|y s]; simpl; try reflexivity; try discriminate.
  intros H; apply andb_true_iff in H as [E H]. apply N.eqb_eq in E. subst y.
  f_equal. now apply IH.
Qed.

Lemma find_bound (p s : str) (i : nat) :
  find p s = Some i -> i + length p <= length s.
Proof.
  revert i; induction s as [|c s IH]; intros i.
  - simpl. destruct (startswith p []) eqn:E; [|discriminate].
    intros [= <-]. apply startswith_length in E. simpl in *. lia.
  - cbn [find]. destruct (startswith p (c :: s)) eqn:E.
    + intros [= <-]. apply startswith_length in E. lia.
    + destruct (find p s) as [j|]; [|discriminate]. intros [= <-].
      specialize (IH j eq_refl). simpl. lia.
Qed.

Lemma find_startswith (p s : str) (i : nat) :
  find p s = Some i -> startswith p (skipn i s) = true.
Proof.
  revert i; induction s as [|c s IH]; intros i.
  - simpl. destruct (startswith p []) eqn:E; [|discriminate]. now intros [= <-].
  - cbn [find]. destruct (startswith p (c :: s)) eqn:E.
    + now intros [= <-].
    + destruct (find p s) as [j|]; [|discriminate]. intros [= <-].
      simpl. now apply IH.
Qed.

(** The first occurrence is not moved by text added at the end. *)
Lemma find_app (p s t : str) (i : nat) :
  find p s = Some i -> find p (s ++ t) = Some i.
Proof.
  revert i; induction s as [|c s IH]; intros i.
  - simpl. destruct (startswith p []) eqn:E; [|discriminate]. intros [= <-].
    destruct p; [|discriminate]. now destruct t.
  - cbn [find app]. destruct (startswith p (c :: s)) eqn:E.
    + intros [= <-]. change (c :: s ++ t) with ((c :: s) ++ t).
      now rewrite (startswith_app _ _ t E).
    + destruct (find p s) as [j|] eqn:F; [|discriminate]. intros [= <-].
      change (c :: s ++ t) with ((c :: s) ++ t).
      rewrite startswith_app_inv, E.
      * now rewrite (IH j eq_refl).
      * apply find_bound in F. simpl. lia.
Qed.

Lemma contains_app_l (p s t : str) :
  contains p s = true -> contains p (s ++ t) = true.
Proof.
  unfold contains. destruct (find p s) as [i|] eqn:F; [|discriminate].
  now rewrite (find_app _ _ t _ F).
Qed.

Lemma contains_cons (p : str) (c : char) (s : str) :
  contains p s = true -> contains p (c :: s) = true.
Proof.
  unfold contains. cbn [find]. destruct (startswith p (c :: s)); [reflexivity|].
  now destruct (find p s).
Qed.

Lemma contains_app_r (p s t : str) :
  contains p t = true -> contains p (s ++ t) = true.
Proof.
  intros H. induction s as [|c s IH]; [exact H|].
  simpl. now apply contains_cons.
Qed.

Lemma contains_self (p : str) : contains p p = true.
Proof.
  unfold contains. destruct p as [|c p]; [reflexivity|].
  cbn [find]. rewrite <- (app_nil_r (c :: p)) at 2.
  now rewrite startswith_refl_app.
Qed.

Lemma contains_skipn (p s : str) (n : nat) :
  contains p (skipn n s) = true -> contains p s = true.
Proof.
  revert s; induction n as [|n IH]; intros s; [now rewrite skipn_O|].
  destruct s as [|c s]; simpl; [tauto|].
  intros H. apply contains_cons. now apply IH.
Qed.

Lemma find_none_skipn (p s : str) (n : nat) :
  find p s = None -> find p (skipn n s) = None.
Proof.
  intros H. destruct (find p (skipn n s)) eqn:F; [|reflexivity].
  assert (C : contains p (skipn n s) = true) by (unfold contains; now rewrite F).
  apply contains_skipn in C. unfold contains in C. now rewrite H in C.
Qed.

Lemma startswith_across (p s t : str) :
  startswith p (s ++ t) = true -> length s < length p ->
  startswith (skipn (length s) p) t = true.
Proof.
  revert p; induction s as [|c s IH]; intros p; simpl.
  - now intros H _.
  - destruct p as [|x p]; simpl; [lia|].
    intros H L. apply andb_true_iff in H as [_ H]. apply IH; [exact H|lia].
Qed.

Lemma contains_app_split (p s t : str) :
  contains p (s ++ t) = true ->
  contains p s = true \/ overlap p t = true \/ contains p t = true.
Proof.
  induction s as [|c s IH]; intros H.
  - right; right; exact H.
  - unfold contains in H. cbn [app find] in H.
    destruct (startswith p (c :: s ++ t)) eqn:E.
    + destruct (Nat.le_gt_cases (length p) (length (c :: s))) as [L|L].
      * left. change (c :: s ++ t) with ((c :: s) ++ t) in E.
        rewrite startswith_app_inv in E by exact L.
        unfold contains. cbn [find]. now rewrite E.
      * right; left. unfold overlap. apply existsb_exists.
        exists (length (c :: s)). split.
        -- apply in_seq. simpl in *. lia.
        -- apply startswith_across; [exact E|exact L].
    + assert (C : contains p (s ++ t) = true).
      { unfold contains. now destruct (find p (s ++ t)). }
      destruct (IH C) as [A|[A|A]]; [left|right; left|right; right]; try exact A.
      now apply contains_cons.
Qed.

(** When no occurrence can lie across the junction or inside [t], appending
    [t] does not create one. *)
Lemma contains_app_same (p s t : str) :
  overlap p t = false -> contains p t = false ->
  contains p (s ++ t) = contains p s.
Proof.
  intros O T. destruct (contains p s) eqn:C.
  - now apply contains_app_l.
  - destruct (contains p (s ++ t)) eqn:D; [|reflexivity].
    destruct (contains_app_split _ _ _ D) as [A|[A|A]]; congruence.
Qed.

(** The leftmost match starts at the first opening tag and ends at the first
    closing tag after it. *)
Lemma search_from_spec (op cl : str) (i : nat) (s : str) :
  op <> [] ->
  search_from op cl i s =
  match find op s with
  | Some j =>
      let body := skipn (j + length op) s in
      match find cl body with
      | Some k => Some {| m_start := i + j; m_group := firstn k body;
                          m_end := i + j + length op + k + length cl |}
      | None => None
      end
  | None => None
  end.
Proof.
  intros Hop. revert i; induction s as [|c s IH]; intros i.
  - simpl. destruct op; [congruence|reflexivity].
  - cbn [search_from find]. destruct (startswith op (c :: s)) eqn:E.
    + cbn [Nat.add]. destruct (find cl (skipn (length op) (c :: s))) eqn:F.
      * now rewrite Nat.add_0_r.
      * rewrite IH. destruct (find op s) as [j|]; [|reflexivity].
        cbv zeta.
        assert (G : find cl (skipn (j + length op) s) = None).
        { destruct op as [|x op]; [congruence|]. simpl in F |- *.
          replace (j + S (length op)) with (S j + length op) by lia.
          rewrite <- skipn_skipn. now apply find_none_skipn. }
        now rewrite G.
    + rewrite IH. destruct (find op s) as [j|]; [|reflexivity].
      cbn [option_map]. cbv zeta. cbn [Nat.add skipn].
      destruct (find cl (skipn (j + length op) s)); [|reflexivity].
      f_equal. f_equal; lia.
Qed.

Lemma skipn_app_le {A : Type} (n : nat) (l t : list A) :
  n <= length l -> skipn n (l ++ t) = skipn n l ++ t.
Proof.
  intros H. rewrite skipn_app. replace (n - length l) with 0 by lia. reflexivity.
Qed.

Lemma firstn_app_le {A : Type} (n : nat) (l t : list A) :
  n <= length l -> firstn n (l ++ t) = firstn n l.
Proof.
  intros H. rewrite firstn_app. replace (n - length l) with 0 by lia.
  simpl. now rewrite app_nil_r.
Qed.

(** A match is not changed by text added at the end. *)
Lemma search_tag_app (op cl s t : str) (m : tag_match) :
  op <> [] ->
  search_tag op cl s = Some m -> search_tag op cl (s ++ t) = Some m.
Proof.
  intros Hop. unfold search_tag. rewrite !search_from_spec by exact Hop.
  destruct (find op s) as [j|] eqn:F; [|discriminate].
  rewrite (find_app _ _ t _ F). cbv zeta.
  pose proof (find_bound _ _ _ F) as B.
  rewrite skipn_app_le by lia.
  destruct (find cl (skipn (j + length op) s)) as [k|] eqn:G; [|discriminate].
  rewrite (find_app _ _ t _ G).
  pose proof (find_bound _ _ _ G) as B'.
  rewrite firstn_app_le by lia. tauto.
Qed.

Lemma matched_app (op cl s t : str) :
  op <> [] ->
  matched (search_tag op cl s) = true -> matched (search_tag op cl (s ++ t)) = true.
Proof.
  intros Hop. destruct (search_tag op cl s) as [m|] eqn:E; [|discriminate].
  intros _. now rewrite (search_tag_app _ _ _ t _ Hop E).
Qed.

(** An opening tag followed by the closing tag at the very end matches. *)
Lemma matched_closed (op cl s : str) :
  op <> [] ->
  contains op s = true -> matched (search_tag op cl (s ++ cl)) = true.
Proof.
  intros Hop C. unfold search_tag. rewrite search_from_spec by exact Hop.
  unfold contains in C. destruct (find op s) as [j|] eqn:F; [|discriminate].
  rewrite (find_app _ _ cl _ F). cbv zeta.
  pose proof (find_bound _ _ _ F) as B.
  rewrite skipn_app_le by lia.
  assert (D : contains cl (skipn (j + length op) s ++ cl) = true)
    by (apply contains_app_r, contains_self).
  unfold contains in D.
  now destruct (find cl (skipn (j + length op) s ++ cl)).
Qed.

(** A match needs both tags in the text. *)
Lemma matched_contains (op cl s : str) :
  op <> [] ->
  matched (search_tag op cl s) = true ->
  contains op s = true /\ contains cl s = true.
Proof.
  intros Hop. unfold search_tag. rewrite search_from_spec by exact Hop.
  unfold contains at 1. destruct (find op s) as [j|]; [|discriminate]. cbv zeta.
  destruct (find cl (skipn (j + length op) s)) as [k|] eqn:G; [|discriminate].
  intros _. split; [reflexivity|].
  apply (contains_skipn _ _ (j + length op)). unfold contains. now rewrite G.
Qed.

Lemma lstrip_head (c : char) (s : str) :
  isspace c = false -> lstrip (c :: s) = c :: s.
Proof. simpl. now intros ->. Qed.

Lemma rstrip_last (s : str) (c : char) :
  isspace c = false -> rstrip (s ++ [c]) = s ++ [c].
Proof.
  intros H. unfold rstrip. rewrite rev_app_distr. cbn [rev app lstrip].
  rewrite H. cbn [rev]. now rewrite rev_involutive.
Qed.

(** Text that neither begins nor ends with white space is its own strip. *)
Lemma strip_solid (a z : char) (s : str) :
  isspace a = false -> isspace z = false ->
  strip (a :: s ++ [z]) = a :: s ++ [z].
Proof.
  intros Ha Hz. unfold strip. rewrite lstrip_head by exact Ha.
  change (a :: s ++ [z]) with ((a :: s) ++ [z]). now apply rstrip_last.
Qed.

Lemma str_of_uint_inj (d d' : Decimal.uint) :
  str_of_uint d = str_of_uint d' -> d = d'.
Proof.
  revert d'; induction d; intros d'; destruct d'; simpl; intros H;
    try discriminate; try reflexivity; injection H as H; f_equal; now apply IHd.
Qed.

Lemma str_of_uint_not_minus (d : Decimal.uint) (s : str) :
  str_of_uint d <> 45%N :: s.
Proof. destruct d; simpl; discriminate. Qed.

(** The decimal rendering determines the number. *)
Lemma str_of_Z_inj (a b : Z) : str_of_Z a = str_of_Z b -> a = b.
Proof.
  assert (P : forall x y : Z, (0 <= x)%Z -> (0 <= y)%Z ->
              str_of_uint (N.to_uint (Z.to_N x)) = str_of_uint (N.to_uint (Z.to_N y)) ->
              x = y).
  { intros x y Hx Hy H. apply str_of_uint_inj, DecimalN.Unsigned.to_uint_inj in H. lia. }
  destruct a as [|p|p], b as [|q|q]; unfold str_of_Z; intros H;
    try (apply P; [lia|lia|exact H]);
    try (exfalso; exact (str_of_uint_not_minus _ _ H));
    try (exfalso; symmetry in H; exact (str_of_uint_not_minus _ _ H)).
  injection H as H. apply str_of_uint_inj, DecimalPos.Unsigned.to_uint_inj in H.
    now subst.
Qed.

Lemma lstrip_length (s : str) : length (lstrip s) <= length s.
Proof.
  induction s as [|c s IH]; simpl; [lia|]. destruct (isspace c); simpl; lia.
Qed.

Lemma strip_length (s : str) : length (strip s) <= length s.
Proof.
  unfold strip, rstrip. rewrite length_rev.
  etransitivity; [apply lstrip_length|]. rewrite length_rev. apply lstrip_length.
Qed.

(** An occurrence, spelled out. *)
Lemma contains_iff (p s : str) :
  contains p s = true <-> exists a b, s = a ++ p ++ b.
Proof.
  split.
  - unfold contains. destruct (find p s) as [i|] eqn:F; [|discriminate]. intros _.
    exists (firstn i s), (skipn (length p) (skipn i s)).
    rewrite <- (startswith_split _ _ (find_startswith _ _ _ F)).
    now rewrite firstn_skipn.
  - intros (a & b & ->). apply contains_app_r. unfold contains.
    destruct (p ++ b) as [|c t] eqn:E.
    + destruct p; [reflexivity|discriminate].
    + cbn [find]. rewrite <- E. now rewrite startswith_refl_app.
Qed.

Lemma split_nl_cons (s : str) : exists l ls, split_nl s = l :: ls.
Proof.
  induction s as [|c s (l & ls & E)]; simpl; [now eexists; eexists|].
  destruct (N.eqb c NL); [now eexists; eexists|]. rewrite E. now eexists; eexists.
Qed.

Lemma join_split (s : str) : join_nl (split_nl s) = s.
Proof.
  induction s as [|c s IH]; [reflexivity|]. simpl.
  destruct (N.eqb_spec c NL) as [->|N].
  - destruct (split_nl_cons s) as (l & ls & E). rewrite E in *.
    change (join_nl ([] :: l :: ls)) with ([] ++ NL :: join_nl (l :: ls)).
    now rewrite IH.
  - destruct (split_nl_cons s) as (l & ls & E). rewrite E in *.
    destruct ls as [|l' ls].
    + simpl in *. now rewrite IH.
    + change (join_nl ((c :: l) :: l' :: ls))
        with (c :: (l ++ NL :: join_nl (l' :: ls))).
      change (join_nl (l :: l' :: ls)) with (l ++ NL :: join_nl (l' :: ls)) in IH.
      now rewrite IH.
Qed.

(** A text without newline lies within one line. *)
Lemma split_nl_line (p y : str) :
  ~ In NL p ->
  exists l ls, split_nl y = l :: ls /\ split_nl (p ++ y) = (p ++ l) :: ls.
Proof.
  induction p as [|c p IH]; intros N.
  - destruct (split_nl_cons y) as (l & ls & E). now exists l, ls.
  - destruct IH as (l & ls & E1 & E2); [intros I; apply N; now right|].
    exists l, ls. split; [exact E1|]. cbn [app split_nl].
    destruct (N.eqb_spec c NL) as [->|_]; [exfalso; apply N; now left|].
    now rewrite E2.
Qed.

Lemma some_line_contains (p x y : str) :
  ~ In NL p -> existsb (contains p) (split_nl (x ++ p ++ y)) = true.
Proof.
  intros N. induction x as [|c x IH].
  - destruct (split_nl_line p y N) as (l & ls & _ & E). cbn [app]. rewrite E.
    cbn [existsb]. now rewrite (contains_app_l _ _ l (contains_self p)).
  - cbn [app split_nl]. destruct (N.eqb c NL); [cbn [existsb]; now rewrite IH, orb_true_r|].
    destruct (split_nl (x ++ p ++ y)) as [|l ls]; [discriminate|].
    cbn [existsb] in *. apply orb_true_iff in IH as [I|I].
    + now rewrite (contains_cons _ c _ I).
    + now rewrite I, orb_true_r.
Qed.

Lemma join_tail_length (l : str) (ls : list str) :
  length (join_nl ls) <= length (join_nl (l :: ls)).
Proof.
  destruct ls as [|l' ls]; [simpl; lia|].
  change (join_nl (l :: l' :: ls)) with (l ++ NL :: join_nl (l' :: ls)).
  rewrite length_app. simpl. lia.
Qed.

Lemma join_skipn_length (k : nat) (ls : list str) :
  length (join_nl (skipn k ls)) <= length (join_nl ls).
Proof.
  revert ls; induction k as [|k IH]; intros ls; [now rewrite skipn_O|].
  destruct ls as [|l ls]; [simpl; lia|]. cbn [skipn].
  etransitivity; [apply IH|apply join_tail_length].
Qed.

(** Dropping leading lines shortens a text that is not empty. *)
Lemma join_skipn_shorter (k : nat) (ls : list str) :
  join_nl ls <> [] -> length (join_nl (skipn (S k) ls)) < length (join_nl ls).
Proof.
  intros N. destruct ls as [|l ls]; [exfalso; now apply N|]. cbn [skipn].
  apply Nat.le_lt_trans with (length (join_nl ls)); [apply join_skipn_length|].
  destruct ls as [|l' ls].
  - simpl in *. destruct l; [congruence|simpl; lia].
  - change (join_nl (l :: l' :: ls)) with (l ++ NL :: join_nl (l' :: ls)).
    rewrite length_app. simpl. lia.
Qed.

Lemma search_tag_bounds (op cl s : str) (m : tag_match) :
  op <> [] -> search_tag op cl s = Some m ->
  m_start m < length s /\ 0 < m_end m.
Proof.
  intros Hop. unfold search_tag. rewrite search_from_spec by exact Hop.
  destruct (find op s) as [j|] eqn:F; [|discriminate]. cbv zeta.
  destruct (find cl _) as [k|]; [|discriminate]. intros [= <-]. cbn.
  pose proof (find_bound _ _ _ F). destruct op; [congruence|]. simpl in *. lia.
Qed.

End StrFacts.

(* ================================================================== *)
(** * The controller: parsing and routing *)
(* ================================================================== *)

Module ControllerFacts.
Import Controller StrFacts.

Lemma close_tag_present (op cl s : str) :
  contains cl s = true -> close_tag op cl s = s.
Proof. unfold close_tag. intros ->. now rewrite andb_false_r. Qed.

Lemma close_tag_absent (op cl s : str) :
  contains op s = true -> contains cl s = false -> close_tag op cl s = s ++ cl.
Proof. unfold close_tag. now intros -> ->. Qed.

Lemma close_tag_suffix (op cl s : str) : exists t, close_tag op cl s = s ++ t.
Proof.
  unfold close_tag. destruct (contains op s && negb (contains cl s)).
  - now exists cl.
  - exists []. now rewrite app_nil_r.
Qed.

Lemma fix_tags_suffix (s : str) : exists t, fix_tags s = s ++ t.
Proof.
  unfold fix_tags.
  destruct (close_tag_suffix execute_open execute_close s) as [t1 ->].
  destruct (close_tag_suffix solution_open solution_close (s ++ t1)) as [t2 ->].
  destruct (close_tag_suffix think_open think_close ((s ++ t1) ++ t2)) as [t3 ->].
  exists (t1 ++ t2 ++ t3). now rewrite <- !app_assoc.
Qed.

Lemma solution_open_nonempty : solution_open <> [].
Proof. discriminate. Qed.

Lemma execute_open_nonempty : execute_open <> [].
Proof. discriminate. Qed.

(** A reply with a complete solution block ends the turn-taking. *)
Lemma parse_reply_solution (ms : list message) (reply : str) :
  matched (search_tag solution_open solution_close (fix_tags reply)) = true ->
  parse_reply ms reply =
  {| messages := ms ++ [AIMessage (strip (fix_tags reply))]; next_step := Some End |}.
Proof. unfold parse_reply. now intros ->. Qed.

(** [parse_reply] sees the reply through [fix_tags] only. *)
Lemma parse_reply_ext (ms : list message) (a b : str) :
  fix_tags a = fix_tags b -> parse_reply ms a = parse_reply ms b.
Proof. unfold parse_reply. now intros ->. Qed.

Lemma closing_tags_apart :
  contains solution_close execute_close = false
  /\ overlap solution_close execute_close = false
  /\ contains execute_open solution_close = false
  /\ overlap execute_open solution_close = false
  /\ contains execute_close solution_close = false
  /\ overlap execute_close solution_close = false.
Proof. repeat split; vm_compute; reflexivity. Qed.

(** Without a match before, text added at the end gives a match only if it
    brings a tag. *)
Lemma search_tag_app_none (op cl s t : str) :
  op <> [] ->
  contains op t = false -> overlap op t = false ->
  contains cl t = false -> overlap cl t = false ->
  search_tag op cl s = None -> search_tag op cl (s ++ t) = None.
Proof.
  intros Hop O1 O2 C1 C2. unfold search_tag. rewrite !search_from_spec by exact Hop.
  destruct (find op s) as [j|] eqn:F.
  - rewrite (find_app _ _ t _ F). cbv zeta.
    pose proof (find_bound _ _ _ F) as B. rewrite skipn_app_le by lia.
    destruct (find cl (skipn (j + length op) s)) eqn:G; [discriminate|].
    intros _.
    assert (D : contains cl (skipn (j + length op) s ++ t) = false).
    { rewrite contains_app_same by assumption. unfold contains. now rewrite G. }
    unfold contains in D.
    now destruct (find cl (skipn (j + length op) s ++ t)).
  - intros _.
    assert (D : contains op (s ++ t) = false).
    { rewrite contains_app_same by assumption. unfold contains. now rewrite F. }
    unfold contains in D. now destruct (find op (s ++ t)).
Qed.

(** What [generate] does with a reply that has none of the three tags: it
    asks again, and its count of earlier corrections is what it was. *)
Lemma untagged_reply_not_counted (ms : list message) (reply : str) :
  matched (search_tag solution_open solution_close (fix_tags reply)) = false ->
  matched (search_tag execute_open execute_close (fix_tags reply)) = false ->
  matched (search_tag think_open think_close (fix_tags reply)) = false ->
  contains no_tags_marker (strip (fix_tags reply)) = false ->
  error_count ms < 2 ->
  parse_reply ms reply
  = {| messages := (ms ++ [AIMessage (strip (fix_tags reply))])
                   ++ [HumanMessage corrective_instruction];
       next_step := Some Generate |}
  /\ error_count (messages (parse_reply ms reply)) = error_count ms.
Proof.
  intros S X T M E.
  assert (C : error_count (ms ++ [AIMessage (strip (fix_tags reply))]) = error_count ms).
  { unfold error_count. rewrite filter_app, length_app.
    change (filter _ [AIMessage (strip (fix_tags reply))])
      with (if contains no_tags_marker (strip (fix_tags reply))
            then [AIMessage (strip (fix_tags reply))] else []).
    rewrite M. cbn [length]. lia. }
  assert (P : parse_reply ms reply
              = {| messages := (ms ++ [AIMessage (strip (fix_tags reply))])
                               ++ [HumanMessage corrective_instruction];
                   next_step := Some Generate |}).
  { unfold parse_reply. rewrite S, X, T, C.
    destruct (Nat.leb_spec 2 (error_count ms)); [lia|reflexivity]. }
  split; [exact P|]. rewrite P. cbn [messages].
  unfold error_count in *. rewrite filter_app, length_app, C.
  change (filter _ [HumanMessage corrective_instruction]) with (@nil message).
  cbn [length]. lia.
Qed.

Section Routing.
Variable U : unicode.
Variable LLM : Type.
Variable invoke : LLM -> list message -> llm_outcome * LLM.
Variable system_prompt : str.
Variable Env : Type.
Variable run_with_timeout : runner -> str -> Env -> str * Env.
Variable inject_custom_functions_to_repl : Env -> Env.

(** When the model answers, [generate] is [parse_reply] on the answer. *)
Lemma generate_answered (state : AgentState) (llm llm' : LLM) (reply : str) :
  invoke llm (SystemMessage system_prompt :: messages state)
    = (Returned (Some reply), llm') ->
  generate U LLM invoke system_prompt state llm
    = Ok (parse_reply (messages state) reply, llm').
Proof.
  intros H. unfold generate, obtain_reply, try_invoke. now rewrite H.
Qed.

(** C2, as the code has it.  A reply that holds both a complete execute
    block and a complete solution block is routed to [end]: the solution is
    tested first, the execute block is not run. *)
Theorem solution_preferred_over_execute
    (state : AgentState) (llm llm' : LLM) (reply : str) :
  invoke llm (SystemMessage system_prompt :: messages state)
    = (Returned (Some reply), llm') ->
  matched (search_tag execute_open execute_close reply) = true ->
  matched (search_tag solution_open solution_close reply) = true ->
  exists state',
    generate U LLM invoke system_prompt state llm = Ok (state', llm')
    /\ next_step state' = Some End
    /\ messages state' = messages state ++ [AIMessage (strip (fix_tags reply))].
Proof.
  intros H _ Hs. rewrite (generate_answered _ _ _ _ H).
  destruct (fix_tags_suffix reply) as [t Ht].
  assert (M : matched (search_tag solution_open solution_close (fix_tags reply)) = true).
  { rewrite Ht. apply matched_app; [apply solution_open_nonempty|exact Hs]. }
  rewrite (parse_reply_solution _ _ M). eexists. split; [reflexivity|]. now split.
Qed.

(** C5, as the code has it.  A tag counts as left open when its closing tag
    occurs nowhere in the text.  For [<execute>] left open, [generate] and
    the extraction of [execute] give what they give on the text with
    [</execute>] appended.  For [<solution>] left open, [generate] routes to
    [end] with and without [</solution>] appended, and when [<execute>] is
    not left open as well the whole results agree.  Neither node raises on
    the text: [generate] returns once the model has answered, [execute]
    whenever there is a last message. *)
Theorem forgiving_parse (ms : list message) (s : str) :
  (contains execute_open s = true -> contains execute_close s = false ->
     parse_reply ms s = parse_reply ms (s ++ execute_close)
     /\ extract_code s = extract_code (s ++ execute_close)
     /\ next_step (parse_reply ms s) <> Some Generate)
  /\ (contains solution_open s = true -> contains solution_close s = false ->
       next_step (parse_reply ms s) = Some End
       /\ next_step (parse_reply ms (s ++ solution_close)) = Some End
       /\ (contains execute_open s && negb (contains execute_close s) = false ->
           parse_reply ms s = parse_reply ms (s ++ solution_close)
           /\ extract_code s = extract_code (s ++ solution_close)))
  /\ (forall state llm llm',
        invoke llm (SystemMessage system_prompt :: messages state)
          = (Returned (Some s), llm') ->
        generate U LLM invoke system_prompt state llm
          = Ok (parse_reply (messages state) s, llm'))
  /\ (forall state env,
        messages state <> [] ->
        exists r,
          execute Env run_with_timeout inject_custom_functions_to_repl state env
          = Ok r).
Proof.
  destruct closing_tags_apart as (A1 & A2 & A3 & A4 & A5 & A6).
  split; [|split; [|split]]; cycle 2.
  { intros state llm llm'. apply generate_answered. }
  { intros state env N. unfold execute.
    destruct (rev (messages state)) as [|last rest] eqn:R.
    - exfalso. apply N. rewrite <- (rev_involutive (messages state)), R. reflexivity.
    - destruct (extract_code (content last)); [|now eexists].
      destruct (run_code _ _ _ _ env). now eexists. }
  - intros Ho Hc.
    assert (E1 : close_tag execute_open execute_close s = s ++ execute_close)
      by now apply close_tag_absent.
    assert (E2 : close_tag execute_open execute_close (s ++ execute_close)
                 = s ++ execute_close)
      by (apply close_tag_present, contains_app_r, contains_self).
    split; [|split].
    + apply parse_reply_ext. unfold fix_tags. now rewrite E1, E2.
    + unfold extract_code. now rewrite E1, E2.
    + unfold parse_reply, fix_tags. rewrite E1.
      pose proof (matched_closed execute_open execute_close s execute_open_nonempty Ho) as M.
      destruct (close_tag_suffix solution_open solution_close (s ++ execute_close)) as [t1 ->].
      destruct (close_tag_suffix think_open think_close ((s ++ execute_close) ++ t1)) as [t2 ->].
      rewrite <- app_assoc.
      rewrite (matched_app _ _ _ (t1 ++ t2) execute_open_nonempty M).
      now destruct (matched (search_tag solution_open solution_close _)).
  - intros Ho Hc. split; [|split].
    + rewrite parse_reply_solution; [reflexivity|].
      unfold fix_tags.
      destruct (close_tag_suffix think_open think_close
                  (close_tag solution_open solution_close
                     (close_tag execute_open execute_close s))) as [t ->].
      apply matched_app; [apply solution_open_nonempty|].
      assert (C : exists m1, close_tag execute_open execute_close s = m1
                  /\ contains solution_open m1 = true
                  /\ contains solution_close m1 = false).
      { unfold close_tag.
        destruct (contains execute_open s && negb (contains execute_close s)).
        - exists (s ++ execute_close). split; [reflexivity|]. split.
          + now apply contains_app_l.
          + now rewrite contains_app_same.
        - now exists s. }
      destruct C as (m1 & -> & C1 & C2).
      rewrite (close_tag_absent _ _ _ C1 C2).
      now apply matched_closed; [apply solution_open_nonempty|].
    + rewrite parse_reply_solution; [reflexivity|].
      destruct (fix_tags_suffix (s ++ solution_close)) as [t ->].
      apply matched_app; [apply solution_open_nonempty|].
      now apply matched_closed; [apply solution_open_nonempty|].
    + intros Hx.
      assert (X1 : close_tag execute_open execute_close s = s)
        by (unfold close_tag; now rewrite Hx).
      assert (X2 : close_tag execute_open execute_close (s ++ solution_close)
                   = s ++ solution_close).
      { unfold close_tag. rewrite !contains_app_same by assumption. now rewrite Hx. }
      split.
      * apply parse_reply_ext. unfold fix_tags. rewrite X1, X2.
        rewrite (close_tag_absent _ _ _ Ho Hc).
        now rewrite (close_tag_present solution_open solution_close (s ++ solution_close))
          by (apply contains_app_r, contains_self).
      * unfold extract_code. rewrite X1, X2.
        destruct (search_tag execute_open execute_close s) as [m|] eqn:S.
        -- now rewrite (search_tag_app _ _ _ solution_close _ execute_open_nonempty S).
        -- now rewrite search_tag_app_none by (assumption || apply execute_open_nonempty).
Qed.

End Routing.

(** C2: the reply of the example has both blocks complete, and is routed to
    [end], not to [execute]. *)
Lemma execute_not_preferred :
  let reply := lit "<execute>print(1)</execute><solution>4</solution>" in
  matched (search_tag execute_open execute_close reply) = true
  /\ matched (search_tag solution_open solution_close reply) = true
  /\ exists state',
       Scenario.gen Scenario.question [Returned (Some reply)] = Ok (state', [])
       /\ next_step state' = Some End
       /\ next_step state' <> Some Execute.
Proof.
  cbv zeta. split; [vm_compute; reflexivity|]. split; [vm_compute; reflexivity|].
  eexists. split; [vm_compute; reflexivity|]. split; [reflexivity|discriminate].
Qed.

(** The routing of a reply with both blocks, on a scripted run. *)
Lemma solution_preferred_over_execute_witness :
  exists state',
    Scenario.gen Scenario.question
      [Returned (Some (lit "<execute>print(1)</execute><solution>4</solution>"))]
    = Ok (state', [])
    /\ next_step state' = Some End
    /\ messages state'
       = messages Scenario.question
         ++ [AIMessage (strip (fix_tags (lit "<execute>print(1)</execute><solution>4</solution>")))].
Proof.
  apply (solution_preferred_over_execute ascii_tables Scenario.script Scenario.scripted
           (lit "You are a helpful assistant.") Scenario.question
           [Returned (Some (lit "<execute>print(1)</execute><solution>4</solution>"))] []).
  - reflexivity.
  - vm_compute; reflexivity.
  - vm_compute; reflexivity.
Defined.

(** C5: an opening tag that only a preceding closing tag accompanies is left
    open, yet no tag is appended: the reply is a parse error for [generate]
    and holds no code for [execute], while the same text with the closing tag
    appended is routed to [execute] with the code [print(1)]. *)
Lemma closing_tag_before_opening :
  let s := lit "</execute><execute>print(1)" in
  Statements.unterminated execute_open execute_close s
  /\ next_step (parse_reply [] s) = Some Generate
  /\ next_step (parse_reply [] (s ++ execute_close)) = Some Execute
  /\ extract_code s = None
  /\ extract_code (s ++ execute_close) = Some (lit "print(1)").
Proof.
  cbv zeta. split.
  - exists 10. split; vm_compute; reflexivity.
  - repeat split; vm_compute; reflexivity.
Qed.

(** An execute tag left open at the end of a reply. *)
Lemma forgiving_parse_witness :
  let s := lit "Let me run it. <execute>print(1)" in
  parse_reply [] s = parse_reply [] (s ++ execute_close)
  /\ extract_code s = extract_code (s ++ execute_close)
  /\ next_step (parse_reply [] s) <> Some Generate.
Proof.
  cbv zeta.
  apply (proj1 (forgiving_parse ascii_tables Scenario.script Scenario.scripted
                  (lit "You are a helpful assistant.") unit Scenario.echo
                  (fun e => e) [] (lit "Let me run it. <execute>print(1)")));
    vm_compute; reflexivity.
Defined.

(** C1, at the failing run.  Against a model that keeps answering without
    any tag, [generate] asks again after every round: the count of earlier
    corrections stays 0, and the notice of termination is never appended. *)
Theorem untagged_replies_never_end (n : nat) :
  exists state',
    Scenario.rounds (lit "I am not sure.") n Scenario.question = Some state'
    /\ error_count (messages state') = 0
    /\ ~ In (AIMessage termination_notice) (messages state').
Proof.
  assert (G : forall st,
             error_count (messages st) = 0 ->
             ~ In (AIMessage termination_notice) (messages st) ->
             exists st',
               Scenario.gen st [Returned (Some (lit "I am not sure."))] = Ok (st', [])
               /\ next_step st' = Some Generate
               /\ error_count (messages st') = 0
               /\ ~ In (AIMessage termination_notice) (messages st')).
  { intros st E N. unfold Scenario.gen.
    rewrite (generate_answered ascii_tables Scenario.script Scenario.scripted
               (lit "You are a helpful assistant.") st
               [Returned (Some (lit "I am not sure."))] []
               (lit "I am not sure.") eq_refl).
    destruct (untagged_reply_not_counted (messages st) (lit "I am not sure."))
      as [P C]; try (vm_compute; reflexivity); [lia|].
    eexists. split; [reflexivity|]. rewrite C. rewrite P. cbn [next_step messages].
    split; [reflexivity|]. split; [exact E|].
    rewrite !in_app_iff. intros [[I|I]|I]; [now apply N|..];
      destruct I as [I|[]]; vm_compute in I; discriminate. }
  assert (R : forall st,
             error_count (messages st) = 0 ->
             ~ In (AIMessage termination_notice) (messages st) ->
             exists st', Scenario.rounds (lit "I am not sure.") n st = Some st'
               /\ error_count (messages st') = 0
               /\ ~ In (AIMessage termination_notice) (messages st')).
  { induction n as [|k IH]; intros st E N.
    - exists st. now repeat split.
    - destruct (G st E N) as (st1 & G1 & G2 & G3 & G4).
      cbn [Scenario.rounds]. rewrite G1. unfold routing_function. rewrite G2.
      now apply IH. }
  apply R.
  - vm_compute; reflexivity.
  - intros [I|[]]. vm_compute in I. discriminate.
Qed.

End ControllerFacts.

(* ================================================================== *)
(** * The controller: the execute node *)
(* ================================================================== *)

Module ExecuteFacts.
Import Controller StrFacts.

(** The surrounding newline is stripped and nothing else: the observation
    message is the bounded result between its two tags. *)
Lemma observation_message_content (result : str) :
  observation_message result
  = AIMessage (observation_open ++ result ++ observation_close).
Proof.
  unfold observation_message. f_equal.
  change observation_open with (60%N :: lit "observation>").
  change observation_close with (lit "</observation" ++ [62%N]).
  unfold strip. cbn [app]. change (lstrip (NL :: ?x)) with (lstrip x).
  rewrite lstrip_head by reflexivity.
  rewrite !app_assoc. rewrite app_comm_cons.
  now rewrite rstrip_last by reflexivity.
Qed.

Lemma len_slice_to (n : Z) (s : str) :
  (0 <= n <= len s)%Z -> len (slice_to n s) = n.
Proof.
  unfold len, slice_to. intros H. rewrite length_firstn. lia.
Qed.

Section Execute.
Variable Env : Type.
Variable run_with_timeout : runner -> str -> Env -> str * Env.
Variable inject_custom_functions_to_repl : Env -> Env.

(** C4.  The observation appended for a result [r]: above 10,000 characters
    the first 10,000 under a header that gives [len r] (and, when a ['>']
    stands among the first 1,000 characters, the number of lines that begin
    with one); above 5,000 the whole of [r] under a line that gives its
    length; otherwise [r] itself.  The decimal figure in the header
    determines the length. *)
Theorem execute_bounds_output
    (state : AgentState) (env env' : Env)
    (earlier : list message) (last : message) (code r : str) :
  messages state = earlier ++ [last] ->
  extract_code (content last) = Some code ->
  run_code Env run_with_timeout inject_custom_functions_to_repl code env = (r, env') ->
  exists obs,
    execute Env run_with_timeout inject_custom_functions_to_repl state env
    = Ok ({| messages := messages state
                         ++ [AIMessage (observation_open ++ obs ++ observation_close)];
             next_step := next_step state |}, env')
    /\ ((10000 < len r)%Z ->
        exists note,
          obs = lit "[OUTPUT TRUNCATED: " ++ str_of_Z (len r) ++ lit " total characters]"
                ++ [NL] ++ note ++ times 61%N 50 ++ [NL] ++ slice_to 10000 r
          /\ len (slice_to 10000 r) = 10000%Z
          /\ note =
             if contains (lit ">") (slice_to 1000 r) then
               lit "[Contains "
               ++ str_of_Z (Z.of_nat (length (filter (startswith (lit ">")) (split_nl r))))
               ++ lit " sequences/entries]" ++ [NL]
               ++ lit "[Showing first 10K characters below]" ++ [NL]
             else lit "[First 10K characters shown below]" ++ [NL])
    /\ ((5000 < len r <= 10000)%Z ->
        obs = lit "[Output length: " ++ str_of_Z (len r) ++ lit " characters]"
              ++ [NL] ++ r)
    /\ ((len r <= 5000)%Z -> obs = r)
    /\ (forall n : Z, str_of_Z n = str_of_Z (len r) -> n = len r).
Proof.
  intros Hm Hc Hr. exists (bound_output r). split; [|split; [|split; [|split]]].
  - unfold execute. rewrite Hm, rev_app_distr. cbn [rev app]. rewrite Hc, Hr.
    now rewrite observation_message_content, <- Hm.
  - intros L. unfold bound_output, MAX_OUTPUT_LENGTH.
    destruct (Z.ltb_spec 10000 (len r)); [|lia].
    eexists. split; [|split; [apply len_slice_to; lia|reflexivity]].
    destruct (contains (lit ">") (slice_to 1000 r)); cbn [join_nl];
      repeat (rewrite <- ?app_assoc; cbn [app]); reflexivity.
  - intros L. unfold bound_output, MAX_OUTPUT_LENGTH, SUMMARY_THRESHOLD.
    destruct (Z.ltb_spec 10000 (len r)); [lia|].
    destruct (Z.ltb_spec 5000 (len r)); [reflexivity|lia].
  - intros L. unfold bound_output, MAX_OUTPUT_LENGTH, SUMMARY_THRESHOLD.
    destruct (Z.ltb_spec 10000 (len r)); [lia|].
    destruct (Z.ltb_spec 5000 (len r)); [lia|reflexivity].
  - intros n. apply str_of_Z_inj.
Qed.

End Execute.

(** A short result goes through unchanged, between the two tags. *)
Lemma execute_bounds_output_witness :
  Scenario.exe Scenario.short_run
  = Ok ({| messages := messages Scenario.short_run
                       ++ [AIMessage (lit "<observation>print(2+2)</observation>")];
           next_step := Some Execute |}, tt).
Proof.
  destruct (execute_bounds_output unit Scenario.echo (fun e => e)
              Scenario.short_run tt tt
              [HumanMessage (lit "compute 2+2")]
              (AIMessage (lit "<execute>print(2+2)</execute>"))
              (lit "print(2+2)") (lit "print(2+2)"))
    as (obs & E & _ & _ & Small & _).
  - reflexivity.
  - vm_compute; reflexivity.
  - vm_compute; reflexivity.
  - unfold Scenario.exe. rewrite E. rewrite Small by (vm_compute; discriminate).
    reflexivity.
Defined.

End ExecuteFacts.

(* ================================================================== *)
(** * The controller: recovery from a failed model call, and the history *)
(* ================================================================== *)

Module RecoveryFacts.
Import Controller StrFacts ControllerFacts Statements.

Lemma truncate_scan_step (m : message) (older : list message) :
  truncate_scan (m :: older)
  = match long_observation_of m with
    | Some obs => truncated_observation obs :: older
    | None => m :: truncate_scan older
    end.
Proof.
  unfold long_observation_of. cbn [truncate_scan].
  destruct (is_ai m && contains observation_open (content m)); [|reflexivity].
  destruct (search_tag observation_open observation_close (content m)); [|reflexivity].
  now destruct (2000 <? len (m_group t))%Z.
Qed.

(** The scan rewrites the first message it can, and only that one. *)
Lemma truncate_scan_spec (l : list message) :
  (Forall untouched l /\ truncate_scan l = l)
  \/ exists newer m older obs,
       l = newer ++ m :: older
       /\ Forall untouched newer
       /\ long_observation_of m = Some obs
       /\ truncate_scan l = newer ++ truncated_observation obs :: older.
Proof.
  induction l as [|m l IH].
  - left. now split.
  - rewrite truncate_scan_step. destruct (long_observation_of m) as [obs|] eqn:L.
    + right. exists [], m, l, obs. now repeat split.
    + destruct IH as [[F E]|(newer & m' & older & obs & E & F & L' & T)].
      * left. split; [now constructor|now rewrite E].
      * right. exists (m :: newer), m', older, obs. subst l.
        repeat split; [now constructor|exact L'|now rewrite T].
Qed.

(** The recovery rewrites the most recent message that holds an observation
    of more than 2,000 characters, if there is one, and no other. *)
Lemma truncate_last_observation_spec (ms : list message) :
  (Forall untouched ms /\ truncate_last_observation ms = ms)
  \/ exists earlier m later obs,
       ms = earlier ++ m :: later
       /\ long_observation_of m = Some obs
       /\ Forall untouched later
       /\ truncate_last_observation ms = earlier ++ truncated_observation obs :: later.
Proof.
  unfold truncate_last_observation.
  destruct (truncate_scan_spec (rev ms)) as [[F E]|(newer & m & older & obs & E & F & L & T)].
  - left. split.
    + rewrite <- (rev_involutive ms). now apply Forall_rev.
    + now rewrite E, rev_involutive.
  - right. exists (rev older), m, (rev newer), obs.
    assert (M : ms = rev older ++ m :: rev newer).
    { rewrite <- (rev_involutive ms), E, rev_app_distr. cbn [rev].
      now rewrite <- app_assoc. }
    repeat split; [exact M|exact L|now apply Forall_rev|].
    rewrite T, rev_app_distr. cbn [rev]. now rewrite <- app_assoc.
Qed.

Lemma truncate_last_observation_length (ms : list message) :
  length (truncate_last_observation ms) = length ms.
Proof.
  destruct (truncate_last_observation_spec ms)
    as [[_ ->]|(earlier & m & later & obs & -> & _ & _ & ->)]; [reflexivity|].
  now rewrite !length_app.
Qed.

(** The two synthesized replies are complete solutions. *)
Lemma parse_failure_reply (U : unicode) (ms : list message) (e2 : str) :
  parse_reply ms (failure_reply U e2)
  = {| messages := ms ++ [AIMessage (failure_reply U e2)]; next_step := Some End |}.
Proof.
  unfold failure_reply.
  destruct (contains (lit "api key") (lower U e2) || contains (lit "endpoint") (lower U e2)).
  - rewrite parse_reply_solution by (vm_compute; reflexivity).
    now replace (strip (fix_tags auth_failure_reply)) with auth_failure_reply
      by (vm_compute; reflexivity).
  - rewrite parse_reply_solution by (vm_compute; reflexivity).
    now replace (strip (fix_tags context_failure_reply)) with context_failure_reply
      by (vm_compute; reflexivity).
Qed.

Lemma parse_reply_appends (ms : list message) (reply : str) :
  exists added, messages (parse_reply ms reply) = ms ++ added.
Proof.
  unfold parse_reply.
  destruct (matched (search_tag solution_open solution_close (fix_tags reply)));
    [eexists; reflexivity|].
  destruct (matched (search_tag execute_open execute_close (fix_tags reply)));
    [eexists; reflexivity|].
  destruct (matched (search_tag think_open think_close (fix_tags reply)));
    [eexists; reflexivity|].
  destruct (2 <=? error_count _); cbn [messages]; rewrite <- app_assoc;
    eexists; reflexivity.
Qed.

Section Recovery.
Variable U : unicode.
Variable LLM : Type.
Variable invoke : LLM -> list message -> llm_outcome * LLM.
Variable system_prompt : str.
Variable Env : Type.
Variable run_with_timeout : runner -> str -> Env -> str * Env.
Variable inject_custom_functions_to_repl : Env -> Env.
Variable test_time_scale_round : nat.
Variable user_task : str.

(** C3, as the code has it.  When the first call fails with [e1]: an error
    that is not recoverable is raised again; a recoverable one makes
    [generate] rewrite the most recent message whose observation exceeds
    2,000 characters (if any; the rewritten text gives the original length
    and the first 2,000 characters) and call the model a second and last
    time; when that call fails too, the reply is one of two solution-tagged
    texts chosen by the error, and the next step is [end]. *)
Theorem generate_recovery
    (state : AgentState) (llm llm1 llm2 : LLM) (e1 : str) (o2 : llm_outcome) :
  invoke llm (SystemMessage system_prompt :: messages state) = (Failed e1, llm1) ->
  invoke llm1 (SystemMessage system_prompt
                 :: truncate_last_observation (messages state)) = (o2, llm2) ->
  let ms' := truncate_last_observation (messages state) in
  let fall_back (e2 : str) :=
    Ok ({| messages := ms' ++ [AIMessage (failure_reply U e2)];
           next_step := Some End |}, llm2) in
  (recoverable U e1 = false ->
     generate U LLM invoke system_prompt state llm = Raised e1)
  /\ (recoverable U e1 = true ->
      generate U LLM invoke system_prompt state llm =
      match o2 with
      | Returned (Some reply) => Ok (parse_reply ms' reply, llm2)
      | Failed e2 => fall_back e2
      | _ => fall_back (lit "Still received null response after truncation")
      end)
  /\ (forall e2,
        failure_reply U e2 =
        if contains (lit "api key") (lower U e2) || contains (lit "endpoint") (lower U e2)
        then auth_failure_reply else context_failure_reply)
  /\ ((Forall untouched (messages state) /\ ms' = messages state)
      \/ exists earlier m later obs,
           messages state = earlier ++ m :: later
           /\ long_observation_of m = Some obs
           /\ Forall untouched later
           /\ ms' = earlier ++ truncated_observation obs :: later
           /\ content (truncated_observation obs)
              = lit "<observation>[TRUNCATED DUE TO CONTEXT OVERFLOW - Original: "
                ++ str_of_Z (len obs) ++ lit " chars]" ++ [NL]
                ++ slice_to 2000 obs ++ [NL]
                ++ lit "[...truncated...]</observation>"
           /\ len (slice_to 2000 obs) = 2000%Z).
Proof.
  intros H1 H2 ms' fall_back. split; [|split; [|split]].
  - intros R. unfold generate, obtain_reply, try_invoke. now rewrite H1, R.
  - intros R. unfold generate, obtain_reply, try_invoke. rewrite H1, R. fold ms'.
    unfold ms' in *. rewrite H2.
    destruct o2 as [[reply|]| |e2]; unfold fall_back;
      now rewrite ?parse_failure_reply.
  - reflexivity.
  - destruct (truncate_last_observation_spec (messages state))
      as [C|(earlier & m & later & obs & E & L & F & T)]; [now left|].
    right. exists earlier, m, later, obs. repeat split; try assumption.
    apply ExecuteFacts.len_slice_to. unfold long_observation_of in L.
    destruct (is_ai m && _); [|discriminate].
    destruct (search_tag _ _ _) as [om|]; [|discriminate].
    destruct (Z.ltb_spec 2000 (len (m_group om))); [|discriminate].
    injection L as <-. lia.
Qed.

(** C9, as the code has it.  [execute] and [execute_self_critic] only
    append to the message list.  So does [generate], except after a
    recoverable failure of the model call, when it first rewrites the list
    by [truncate_last_observation]; that rewriting keeps the length of the
    list and every message but at most one, a long observation, whose place
    the truncated observation takes. *)
Theorem history_kept_up_to_truncation :
  (forall state env state' env',
     execute Env run_with_timeout inject_custom_functions_to_repl state env
       = Ok (state', env') ->
     exists added, messages state' = messages state ++ added)
  /\ (forall state k llm state' k' llm',
        execute_self_critic LLM invoke test_time_scale_round user_task state k llm
          = Ok (state', k', llm') ->
        exists added, messages state' = messages state ++ added)
  /\ (forall state llm state' llm',
        generate U LLM invoke system_prompt state llm = Ok (state', llm') ->
        exists added,
          messages state' = messages state ++ added
          \/ ((exists e1 llm1,
                 try_invoke LLM invoke system_prompt
                   (lit "Received null response from LLM") llm (messages state)
                 = (inr e1, llm1) /\ recoverable U e1 = true)
              /\ messages state'
                 = truncate_last_observation (messages state) ++ added))
  /\ (forall ms,
        length (truncate_last_observation ms) = length ms
        /\ (truncate_last_observation ms = ms
            \/ exists earlier m later obs,
                 ms = earlier ++ m :: later
                 /\ long_observation_of m = Some obs
                 /\ truncate_last_observation ms
                    = earlier ++ truncated_observation obs :: later)).
Proof.
  split; [|split; [|split]].
  - intros state env state' env'. unfold execute.
    destruct (rev (messages state)) as [|last rest]; [discriminate|].
    destruct (extract_code (content last)) as [code|].
    + destruct (run_code _ _ _ code env) as [r env1]. intros [= <- _].
      eexists; reflexivity.
    + intros [= <- _]. exists []. now rewrite app_nil_r.
  - intros state k llm state' k' llm'. unfold execute_self_critic.
    destruct (k <? test_time_scale_round).
    + destruct (invoke llm _) as [[[c|]| |e] l1]; try discriminate;
        intros [= <- _ _]; eexists; reflexivity.
    + intros [= <- _ _]. exists []. cbn [messages]. now rewrite app_nil_r.
  - intros state llm state' llm'. unfold generate, obtain_reply.
    destruct (try_invoke _ _ _ _ llm (messages state)) as [[reply|e1] l1] eqn:T1.
    + intros [= <- _]. destruct (parse_reply_appends (messages state) reply) as [a A].
      exists a. now left.
    + destruct (recoverable U e1) eqn:R; [|discriminate].
      destruct (try_invoke _ _ _ _ l1 _) as [[reply|e2] l2]; intros [= <- _].
      * destruct (parse_reply_appends (truncate_last_observation (messages state)) reply)
          as [a A].
        exists a. right. split; [now exists e1, l1|exact A].
      * destruct (parse_reply_appends (truncate_last_observation (messages state))
                    (failure_reply U e2)) as [a A].
        exists a. right. split; [now exists e1, l1|exact A].
  - intros ms. split; [apply truncate_last_observation_length|].
    destruct (truncate_last_observation_spec ms)
      as [[_ E]|(earlier & m & later & obs & E & L & _ & T)]; [now left|].
    right. now exists earlier, m, later, obs.
Qed.

End Recovery.

(** A context overflow at the first call, an answer at the second. *)
Lemma generate_recovery_witness :
  Scenario.gen Scenario.history [Scenario.overflow; Scenario.done]
  = Ok (parse_reply (truncate_last_observation (messages Scenario.history))
                    (lit "<solution>done</solution>"), []).
Proof.
  destruct (generate_recovery ascii_tables Scenario.script Scenario.scripted
              (lit "You are a helpful assistant.") Scenario.history
              [Scenario.overflow; Scenario.done] [Scenario.done] []
              (lit "maximum context length exceeded") Scenario.done
              eq_refl eq_refl) as (_ & R & _).
  apply R. vm_compute; reflexivity.
Defined.

(** C3: the most recent message that bears an observation is the short one
    at index 2; the recovery leaves it as it is, without any marker, and
    rewrites the older, longer observation at index 1. *)
Lemma recovery_skips_recent_observation :
  recoverable ascii_tables (lit "maximum context length exceeded") = true
  /\ nth_error (messages Scenario.history) 2 = Some Scenario.short_observation
  /\ bears_observation Scenario.short_observation = true
  /\ Scenario.gen Scenario.history [Scenario.overflow; Scenario.done]
     = Ok (Scenario.recovered, [])
  /\ nth_error (messages Scenario.recovered) 2 = Some Scenario.short_observation
  /\ nth_error (messages Scenario.history) 1 = Some Scenario.long_observation
  /\ nth_error (messages Scenario.recovered) 1
     = Some (truncated_observation Scenario.long_text).
Proof.
  split; [vm_compute; reflexivity|]. split; [reflexivity|].
  split; [vm_compute; reflexivity|]. split; [vm_compute; reflexivity|].
  repeat split; reflexivity.
Qed.

(** C9: the same run of [generate] replaces the message at index 1, so the
    old list is not a prefix of the new one. *)
Lemma recovery_rewrites_history :
  Scenario.gen Scenario.history [Scenario.overflow; Scenario.done]
  = Ok (Scenario.recovered, [])
  /\ nth_error (messages Scenario.history) 1 = Some Scenario.long_observation
  /\ nth_error (messages Scenario.recovered) 1
     = Some (truncated_observation Scenario.long_text)
  /\ truncated_observation Scenario.long_text <> Scenario.long_observation
  /\ ~ exists added,
        messages Scenario.recovered = messages Scenario.history ++ added.
Proof.
  assert (D : truncated_observation Scenario.long_text <> Scenario.long_observation).
  { intros H. apply (f_equal (fun m => nth_error (content m) 13)) in H.
    vm_compute in H. discriminate. }
  split; [vm_compute; reflexivity|]. split; [reflexivity|]. split; [reflexivity|].
  split; [exact D|].
  intros [added H]. apply D.
  exact (f_equal (fun l => nth 1 l (HumanMessage [])) H).
Qed.

(** The run of the overflow: the list after [generate] is the truncated
    list with the answer appended. *)
Lemma history_kept_up_to_truncation_witness :
  exists added,
    messages Scenario.recovered = messages Scenario.history ++ added
    \/ ((exists e1 llm1,
           try_invoke Scenario.script Scenario.scripted
             (lit "You are a helpful assistant.")
             (lit "Received null response from LLM")
             [Scenario.overflow; Scenario.done] (messages Scenario.history)
           = (inr e1, llm1) /\ recoverable ascii_tables e1 = true)
        /\ messages Scenario.recovered
           = truncate_last_observation (messages Scenario.history) ++ added).
Proof.
  apply (proj1 (proj2 (proj2
           (history_kept_up_to_truncation ascii_tables Scenario.script
              Scenario.scripted (lit "You are a helpful assistant.")
              unit Scenario.echo (fun e => e) 0 [])))
           Scenario.history [Scenario.overflow; Scenario.done]
           Scenario.recovered []).
  vm_compute; reflexivity.
Defined.

End RecoveryFacts.

(* ================================================================== *)
(** * The event classifier *)
(* ================================================================== *)

Module ClassifierFacts.
Import Classifier StrFacts Statements.

Section Classify.
Variable U : unicode.

(** Each of the six searches yields no event or one event of its kind. *)
Lemma planning_events_shape (c : str) :
  planning_events U c = []
  \/ exists e, planning_events U c = [e] /\ type e = planning.
Proof.
  unfold planning_events. destruct (contains_any markers c); [|now left].
  destruct (extract_plan_steps U _); [now left|]. right. eexists. now split.
Qed.

Lemma reasoning_events_shape (c : str) :
  reasoning_events c = []
  \/ exists e, reasoning_events c = [e] /\ type e = reasoning.
Proof.
  unfold reasoning_events. destruct (strip _); [now left|].
  destruct (_ && _); [|now left]. right. eexists. now split.
Qed.


(** C10.  [_classify_message_multi] never returns an empty list, and
    [_classify_message] returns its first element: the default dictionary
    of [_classify_message] is never used. *)
Theorem classify_message_is_first (message : py_message) :
  _classify_message_multi U message <> []
  /\ hd_error (_classify_message_multi U message) = Some (_classify_message U message)
  /\ exists rest,
       _classify_message_multi U message = _classify_message U message :: rest.
Proof.
  unfold _classify_message.
  assert (N : _classify_message_multi U message <> []).
  { unfold _classify_message_multi. now destruct (_ ++ _). }
  destruct (_classify_message_multi U message) as [|e rest]; [congruence|].
  split; [discriminate|]. split; [reflexivity|]. now exists rest.
Qed.


(** The part of C7 that is about the classifier: a message in which the six
    searches find nothing is returned whole, as one reasoning event. *)
Lemma classifier_default (message : py_message) :
  planning_events U (content_of message) = [] ->
  reasoning_events (content_of message) = [] ->
  block_events tool_call Controller.execute_open Controller.execute_close
    (content_of message) = [] ->
  block_events tool_output observe_open observe_close (content_of message) = [] ->
  block_events final_result Controller.solution_open Controller.solution_close
    (content_of message) = [] ->
  block_events thinking Controller.think_open Controller.think_close
    (content_of message) = [] ->
  _classify_message_multi U message
  = [mk reasoning (content_of message) (content_of message)].
Proof.
  intros H1 H2 H3 H4 H5 H6. unfold _classify_message_multi.
  now rewrite H1, H2, H3, H4, H5, H6.
Qed.

End Classify.



End ClassifierFacts.

(* ================================================================== *)
(** * The streaming orchestrator *)
(* ================================================================== *)

Module OrchestratorFacts.
Import Orchestrator Statements.

Lemma str_eqb_eq (a b : str) : str_eqb a b = true <-> a = b.
Proof.
  revert b; induction a as [|x a IH]; intros [|y b]; simpl; split;
    try discriminate; try reflexivity.
  - intros H. apply andb_true_iff in H as [E H]. apply N.eqb_eq in E.
    apply IH in H. now subst.
  - intros [= -> ->]. rewrite N.eqb_refl. now apply IH.
Qed.

Lemma str_eqb_refl (a : str) : str_eqb a a = true.
Proof. now apply str_eqb_eq. Qed.

Lemma str_eqb_sym (a b : str) : str_eqb a b = str_eqb b a.
Proof.
  destruct (str_eqb a b) eqn:E, (str_eqb b a) eqn:F; try reflexivity.
  - apply str_eqb_eq in E. subst. now rewrite str_eqb_refl in F.
  - apply str_eqb_eq in F. subst. now rewrite str_eqb_refl in E.
Qed.

Section Dict.
Context {V : Type}.
Implicit Types (d : PyDict.dict V) (k : str).

Lemma get_none_iff k d : PyDict.get k d = None <-> ~ In k (PyDict.keys d).
Proof.
  induction d as [|[k' v] d IH]; simpl; [tauto|].
  destruct (str_eqb k k') eqn:E.
  - apply str_eqb_eq in E. subst. split; [discriminate|tauto].
  - rewrite IH. split; [|tauto]. intros N [->|I]; [|tauto].
    now rewrite str_eqb_refl in E.
Qed.

Lemma keys_del_incl k d x : In x (PyDict.keys (PyDict.del k d)) -> In x (PyDict.keys d).
Proof.
  induction d as [|[k' v] d IH]; simpl; [tauto|].
  destruct (str_eqb k k'); simpl; tauto.
Qed.

Lemma wf_del k d : PyDict.wf d -> PyDict.wf (PyDict.del k d).
Proof.
  unfold PyDict.wf. induction d as [|[k' v] d IH]; simpl; [tauto|].
  intros H. inversion H as [|? ? N D]; subst.
  destruct (str_eqb k k'); [exact D|]. simpl. constructor; [|now apply IH].
  intros I. apply N. now apply keys_del_incl in I.
Qed.

Lemma get_del_same k d : PyDict.wf d -> PyDict.get k (PyDict.del k d) = None.
Proof.
  unfold PyDict.wf. induction d as [|[k' v] d IH]; simpl; [reflexivity|].
  intros H. inversion H as [|? ? N D]; subst.
  destruct (str_eqb k k') eqn:E.
  - apply str_eqb_eq in E. subst. now apply get_none_iff.
  - simpl. rewrite E. now apply IH.
Qed.

Lemma get_del_other k k' d :
  str_eqb k k' = false -> PyDict.get k (PyDict.del k' d) = PyDict.get k d.
Proof.
  intros E. induction d as [|[k2 v] d IH]; simpl; [reflexivity|].
  destruct (str_eqb k' k2) eqn:F.
  - apply str_eqb_eq in F. subst. now rewrite E.
  - simpl. now rewrite IH.
Qed.

Lemma wf_set k (v : V) d : PyDict.wf d -> PyDict.wf (PyDict.set k v d).
Proof.
  unfold PyDict.wf. induction d as [|[k' v'] d IH]; simpl.
  - intros _. constructor; [tauto|constructor].
  - intros H. inversion H as [|? ? N D]; subst.
    destruct (str_eqb k k') eqn:E.
    + apply str_eqb_eq in E. subst. simpl. now constructor.
    + simpl. constructor; [|now apply IH].
      intros I. apply N. clear - I E.
      induction d as [|[k2 v2] d IH]; simpl in *.
      * destruct I as [->|[]]. now rewrite str_eqb_refl in E.
      * destruct (str_eqb k k2) eqn:F; simpl in *.
        -- apply str_eqb_eq in F. subst. tauto.
        -- destruct I as [->|I]; [tauto|]. right. now apply IH.
Qed.

Lemma get_set_same k (v : V) d : PyDict.get k (PyDict.set k v d) = Some v.
Proof.
  induction d as [|[k' v'] d IH]; simpl.
  - now rewrite str_eqb_refl.
  - destruct (str_eqb k k') eqn:E; simpl.
    + now rewrite str_eqb_refl.
    + now rewrite E.
Qed.

End Dict.

(** How many timeout events the first loop emits for one call. *)
Lemma expire_count (cur tmo : Q) (tool_id : str) (items : list (str * Q))
      (table : PyDict.dict Q) :
  PyDict.wf items ->
  length (filter (is_timeout_for tool_id) (fst (expire cur tmo items table)))
  = match PyDict.get tool_id items with
    | Some t => if timed_out cur tmo t then 1 else 0
    | None => 0
    end.
Proof.
  unfold PyDict.wf, timed_out. revert table.
  induction items as [|[k t0] items IH]; intros table H; [reflexivity|].
  simpl in H. inversion H as [|? ? N D]; subst. cbn [expire PyDict.get].
  destruct (str_eqb tool_id k) eqn:E.
  - apply str_eqb_eq in E. subst k.
    assert (G : PyDict.get tool_id items = None) by now apply get_none_iff.
    destruct (Qlt_le_dec tmo (cur - t0)).
    + destruct (expire cur tmo items (PyDict.del tool_id table)) as [ev tb] eqn:X.
      cbn [fst filter is_timeout_for]. rewrite str_eqb_refl. cbn [length].
      specialize (IH (PyDict.del tool_id table) D). rewrite X, G in IH.
      cbn [fst] in IH. now rewrite IH.
    + rewrite (IH table D). now rewrite G.
  - destruct (Qlt_le_dec tmo (cur - t0)).
    + destruct (expire cur tmo items (PyDict.del k table)) as [ev tb] eqn:X.
      cbn [fst filter is_timeout_for]. rewrite str_eqb_sym, E.
      specialize (IH (PyDict.del k table) D). now rewrite X in IH.
    + now apply IH.
Qed.

(** What the first loop leaves in the table for one call. *)
Lemma expire_get (cur tmo : Q) (tool_id : str) (items : list (str * Q))
      (table : PyDict.dict Q) :
  PyDict.wf items -> PyDict.wf table ->
  PyDict.get tool_id (snd (expire cur tmo items table))
  = match PyDict.get tool_id items with
    | Some t => if timed_out cur tmo t then None else PyDict.get tool_id table
    | None => PyDict.get tool_id table
    end.
Proof.
  unfold timed_out. revert table.
  induction items as [|[k t0] items IH]; intros table H W; [reflexivity|].
  unfold PyDict.wf in H. simpl in H. inversion H as [|? ? N D]; subst.
  cbn [expire PyDict.get].
  destruct (str_eqb tool_id k) eqn:E.
  - apply str_eqb_eq in E. subst k.
    assert (G : PyDict.get tool_id items = None) by now apply get_none_iff.
    destruct (Qlt_le_dec tmo (cur - t0)).
    + destruct (expire cur tmo items (PyDict.del tool_id table)) as [ev tb] eqn:X.
      cbn [snd]. specialize (IH (PyDict.del tool_id table) D (wf_del _ _ W)).
      rewrite X, G in IH. cbn [snd] in IH. rewrite IH. now apply get_del_same.
    + rewrite (IH table D W). now rewrite G.
  - destruct (Qlt_le_dec tmo (cur - t0)).
    + destruct (expire cur tmo items (PyDict.del k table)) as [ev tb] eqn:X.
      cbn [snd]. specialize (IH (PyDict.del k table) D (wf_del _ _ W)).
      rewrite X in IH. cbn [snd] in IH. rewrite IH.
      now rewrite (get_del_other _ _ _ E).
    + now apply IH.
Qed.

Lemma expire_wf (cur tmo : Q) (items : list (str * Q)) (table : PyDict.dict Q) :
  PyDict.wf table -> PyDict.wf (snd (expire cur tmo items table)).
Proof.
  revert table. induction items as [|[k t0] items IH]; intros table W; [exact W|].
  cbn [expire]. destruct (Qlt_le_dec tmo (cur - t0)).
  - specialize (IH (PyDict.del k table) (wf_del _ _ W)).
    now destruct (expire cur tmo items (PyDict.del k table)).
  - now apply IH.
Qed.

Lemma expire_in (cur tmo : Q) (tool_id : str) (items : list (str * Q))
      (table : PyDict.dict Q) :
  length (filter (is_timeout_for tool_id) (fst (expire cur tmo items table))) = 1 ->
  In (TimeoutObservation tool_id) (fst (expire cur tmo items table)).
Proof.
  generalize (fst (expire cur tmo items table)) as l.
  induction l as [|e l IH]; [discriminate|]. cbn [filter].
  destruct (is_timeout_for tool_id e) eqn:E.
  - intros _. left. destruct e; try discriminate. simpl in E.
    apply str_eqb_eq in E. now subst.
  - intros H. right. now apply IH.
Qed.

(** The placeholders of [ensure_event_completion] are not timeout events. *)
Lemma completion_not_timeout (tool_id : str) (d : PyDict.dict bool) :
  filter (is_timeout_for tool_id) (fst (ensure_event_completion d)) = [].
Proof.
  induction d as [|[k flag] d IH]; [reflexivity|]. cbn [ensure_event_completion].
  destruct (ensure_event_completion d) as [ev kept]. cbn [fst] in IH.
  destruct flag; cbn [fst filter is_timeout_for]; exact IH.
Qed.

Section Processor.
Variable time_time : nat -> Q.

(** The shape of one run of [check_pending_events]. *)
Lemma check_pending_events_shape (p : processor) (now : nat) :
  exists completion,
    fst (fst (check_pending_events time_time p now))
    = fst (expire (time_time now) (tool_timeout p) (p_pending_tool_calls p)
                  (p_pending_tool_calls p)) ++ completion
    /\ (forall tool_id, filter (is_timeout_for tool_id) completion = [])
    /\ p_pending_tool_calls (snd (fst (check_pending_events time_time p now)))
       = snd (expire (time_time now) (tool_timeout p) (p_pending_tool_calls p)
                     (p_pending_tool_calls p))
    /\ tool_timeout (snd (fst (check_pending_events time_time p now))) = tool_timeout p.
Proof.
  unfold check_pending_events.
  destruct (expire _ _ _ _) as [timeouts pend].
  destruct (Qlt_le_dec 2 _).
  - pose proof (fun i => completion_not_timeout i (o_pending_tool_calls (orchestrator p))) as C.
    destruct (ensure_event_completion _) as [ev kept]. cbn [fst snd] in *.
    exists ev. now repeat split.
  - cbn [fst snd]. exists []. now repeat split.
Qed.

(** [process_agent_output] registers a tool call under its id, with the
    time read at that moment. *)
Lemma track_registers (p : processor) (now : nat) (tool_id code : str) :
  PyDict.get tool_id
    (p_pending_tool_calls (fst (track time_time p now (ToolCall tool_id code))))
  = Some (time_time (S now)).
Proof. unfold track. cbn. apply get_set_same. Qed.

(** The exact difference of two times on the grid, less than 2^31 seconds
    apart, is j / 2^22 for a natural number j below 2^53: a float (53 bits
    of significand, exponent -22).  The float subtraction of the source
    rounds the exact difference to the nearest float, so on such times it
    returns the exact difference, and the comparison of [expire] is the
    comparison of the source. *)
Lemma grid_difference_exact (a b : Q) :
  on_grid a -> on_grid b -> (0 <= a - b)%Q -> (a - b < 2147483648)%Q ->
  exists j : Z, (0 <= j < 9007199254740992)%Z /\ (a - b == j # 4194304)%Q.
Proof.
  intros [ka Ea] [kb Eb] L H. exists (ka - kb)%Z.
  assert (E : (a - b == (ka - kb) # 4194304)%Q).
  { rewrite Ea, Eb. unfold Qeq, Qminus, Qplus, Qopp. cbn [Qnum Qden]. lia. }
  split; [|exact E].
  rewrite E in L, H. unfold Qle, Qlt in L, H. cbn [Qnum Qden] in L, H. lia.
Qed.

(** C6.  A call that is still in the table of pending calls, registered at
    time [t], and a run of [check_pending_events] that reads a time later
    than [t] + 600, both times readings of the clock less than 2^31 seconds
    apart: the difference the run compares with the timeout is a float, so
    that the float subtraction of the source is exact on it; the run yields
    exactly one timeout observation for the call and removes its entry; a
    later run yields none for it. *)
Theorem pending_call_times_out_once
    (p : processor) (now : nat) (tool_id : str) (t : Q)
    (events : list event) (p' : processor) (now' : nat) :
  PyDict.wf (p_pending_tool_calls p) ->
  tool_timeout p = 600%Q ->
  PyDict.get tool_id (p_pending_tool_calls p) = Some t ->
  on_grid t ->
  on_grid (time_time now) ->
  (time_time now - t < 2147483648)%Q ->
  (t + 600 < time_time now)%Q ->
  check_pending_events time_time p now = (events, p', now') ->
  (exists j : Z, (0 <= j < 9007199254740992)%Z
                 /\ (time_time now - t == j # 4194304)%Q)
  /\ length (filter (is_timeout_for tool_id) events) = 1
  /\ In (TimeoutObservation tool_id) events
  /\ PyDict.get tool_id (p_pending_tool_calls p') = None
  /\ PyDict.wf (p_pending_tool_calls p')
  /\ forall later events2 p2 now2,
       check_pending_events time_time p' later = (events2, p2, now2) ->
       filter (is_timeout_for tool_id) events2 = []
       /\ PyDict.get tool_id (p_pending_tool_calls p2) = None
       /\ PyDict.wf (p_pending_tool_calls p2).
Proof.
  intros W T G Gt Gn N L E.
  split; [apply grid_difference_exact; try assumption; lra|].
  destruct (check_pending_events_shape p now) as (c & E1 & E2 & E3 & E4).
  rewrite E in E1, E3, E4. cbn [fst snd] in E1, E3, E4.
  assert (X : timed_out (time_time now) (tool_timeout p) t = true).
  { unfold timed_out. rewrite T. destruct (Qlt_le_dec 600 (time_time now - t)); [reflexivity|].
    exfalso. lra. }
  assert (C : length (filter (is_timeout_for tool_id)
                (fst (expire (time_time now) (tool_timeout p)
                        (p_pending_tool_calls p) (p_pending_tool_calls p)))) = 1).
  { rewrite expire_count by exact W. now rewrite G, X. }
  assert (G' : PyDict.get tool_id (p_pending_tool_calls p') = None).
  { rewrite E3, expire_get by exact W. now rewrite G, X. }
  assert (W' : PyDict.wf (p_pending_tool_calls p')).
  { rewrite E3. now apply expire_wf. }
  split; [|split; [|split; [|split]]]; try assumption.
  - now rewrite E1, filter_app, E2, app_nil_r.
  - rewrite E1. apply in_or_app. left. now apply expire_in.
  - intros later events2 p2 now2 F.
    destruct (check_pending_events_shape p' later) as (c2 & F1 & F2 & F3 & _).
    rewrite F in F1, F3. cbn [fst snd] in F1, F3. split; [|split].
    + rewrite F1, filter_app, F2, app_nil_r.
      apply length_zero_iff_nil. rewrite expire_count by exact W'. now rewrite G'.
    + rewrite F3, expire_get by exact W'. now rewrite G'.
    + rewrite F3. now apply expire_wf.
Qed.

End Processor.

Section Parser.
Variable U : unicode.
Variable time_time : nat -> Q.

(** Whether a rule returns does not depend on what the recursive calls
    find. *)
Lemma rule_header_none (rec rec' : parser) (c : str) (st : pstate) :
  rule_header rec c st = None -> rule_header rec' c st = None.
Proof.
  unfold rule_header. destruct (contains ai_header c); [|reflexivity].
  destruct (nonempty (ai_content_of c)); [|reflexivity].
  destruct (contains Controller.execute_open (ai_content_of c)); [|discriminate].
  destruct (rec (ai_content_of c) st). discriminate.
Qed.

Lemma rule_observation_none (rec rec' : parser) (c : str) (st : pstate) :
  rule_observation rec c st = None -> rule_observation rec' c st = None.
Proof.
  unfold rule_observation. destruct (_ && _); [|reflexivity].
  destruct (search_tag _ _ c) as [m|]; [|reflexivity].
  destruct (parse_if_nonempty rec _ st) as [a st1].
  destruct (parse_if_nonempty rec _ st1). discriminate.
Qed.

Lemma rule_execute_none (rec rec' : parser) (c : str) (st : pstate) :
  rule_execute U time_time rec c st = None ->
  rule_execute U time_time rec' c st = None.
Proof.
  unfold rule_execute. destruct (_ && _); [|reflexivity].
  destruct (search_tag _ _ c) as [m|]; [|reflexivity].
  destruct (parse_if_nonempty rec _ _). discriminate.
Qed.

Lemma rule_message_header_none (rec rec' : parser) (c : str) (st : pstate) :
  rule_message_header U rec c st = None ->
  rule_message_header U rec' c st = None.
Proof.
  unfold rule_message_header. destruct (contains (lit "Ai Message") c).
  - destruct (nonempty (strip (after_two_lines c))); [|discriminate].
    destruct (contains Controller.execute_open (after_two_lines c)); [|discriminate].
    destruct (rec (after_two_lines c) st). discriminate.
  - destruct (contains (lit "Human Message") c); [|reflexivity].
    destruct (nonempty (strip (after_two_lines c))); discriminate.
Qed.

(** ** The recursion of the parser ends

    Every recursive call of [parse_chunk_with_llm] is on a text strictly
    shorter than the chunk, so the result does not depend on the fuel once
    there is more of it than the chunk has characters. *)

Lemma index_where_some {A : Type} (f : A -> bool) (l : list A) :
  existsb f l = true -> exists i, index_where f l = Some i.
Proof.
  induction l as [|x l IH]; [discriminate|]. cbn [existsb index_where].
  destruct (f x); [now eexists|]. intros H. destruct (IH H) as [i ->]. now eexists.
Qed.

Lemma ai_content_shorter (c : str) :
  contains ai_header c = true -> length (ai_content_of c) < length c.
Proof.
  intros H. apply StrFacts.contains_iff in H as (a & b & E).
  assert (L : existsb (contains (lit "Ai Message")) (split_nl c) = true).
  { rewrite E.
    change ai_header with (lit "================================== "
                           ++ lit "Ai Message"
                           ++ lit " ==================================").
    rewrite <- !app_assoc, (app_assoc a).
    apply StrFacts.some_line_contains. vm_compute. intuition discriminate. }
  destruct (index_where_some _ _ L) as [i I].
  unfold ai_content_of. rewrite I.
  eapply Nat.le_lt_trans; [apply StrFacts.strip_length|].
  rewrite <- (StrFacts.join_split c) at 2.
  apply StrFacts.join_skipn_shorter. rewrite StrFacts.join_split.
  rewrite E. destruct a; discriminate.
Qed.

Lemma after_two_lines_shorter (c : str) :
  after_two_lines c <> [] -> length (after_two_lines c) < length c.
Proof.
  unfold after_two_lines. destruct (2 <? length (split_nl c)) eqn:T; [|congruence].
  intros _. rewrite <- (StrFacts.join_split c) at 2.
  apply StrFacts.join_skipn_shorter. rewrite StrFacts.join_split.
  intros ->. discriminate.
Qed.

Lemma parse_if_nonempty_agree (n : nat) (f g : parser) (s : str) (st : pstate) :
  agree_below n f g -> length s < n ->
  parse_if_nonempty f s st = parse_if_nonempty g s st.
Proof.
  intros A L. unfold parse_if_nonempty. destruct (nonempty s); [now apply A|reflexivity].
Qed.

Lemma before_match_shorter (op cl c : str) (m : tag_match) :
  op <> [] -> search_tag op cl c = Some m ->
  length (strip (firstn (m_start m) c)) < length c
  /\ length (strip (skipn (m_end m) c)) < length c.
Proof.
  intros Hop H. destruct (StrFacts.search_tag_bounds _ _ _ _ Hop H) as [B1 B2]. split.
  - eapply Nat.le_lt_trans; [apply StrFacts.strip_length|].
    rewrite length_firstn. lia.
  - eapply Nat.le_lt_trans; [apply StrFacts.strip_length|].
    rewrite length_skipn. lia.
Qed.

Lemma rule_header_agree (f g : parser) (c : str) (st : pstate) :
  agree_below (length c) f g -> rule_header f c st = rule_header g c st.
Proof.
  intros A. unfold rule_header. destruct (contains ai_header c) eqn:H; [|reflexivity].
  destruct (nonempty (ai_content_of c)); [|reflexivity].
  destruct (contains Controller.execute_open (ai_content_of c)); [|reflexivity].
  now rewrite (A _ st (ai_content_shorter _ H)).
Qed.

Lemma rule_observation_agree (f g : parser) (c : str) (st : pstate) :
  agree_below (length c) f g -> rule_observation f c st = rule_observation g c st.
Proof.
  intros A. unfold rule_observation. destruct (_ && _); [|reflexivity].
  destruct (search_tag _ _ c) as [m|] eqn:S; [|reflexivity].
  assert (Hop : Controller.observation_open <> []) by discriminate.
  destruct (before_match_shorter _ _ _ _ Hop S) as [B1 B2].
  rewrite (parse_if_nonempty_agree _ f g _ st A B1).
  destruct (parse_if_nonempty g _ st) as [ev st1].
  now rewrite (parse_if_nonempty_agree _ f g _ st1 A B2).
Qed.

Lemma rule_execute_agree (f g : parser) (c : str) (st : pstate) :
  agree_below (length c) f g ->
  rule_execute U time_time f c st = rule_execute U time_time g c st.
Proof.
  intros A. unfold rule_execute. destruct (_ && _); [|reflexivity].
  destruct (search_tag _ _ c) as [m|] eqn:S; [|reflexivity].
  destruct (before_match_shorter _ _ _ _ ControllerFacts.execute_open_nonempty S)
    as [_ B2].
  now rewrite (parse_if_nonempty_agree _ f g _ _ A B2).
Qed.

Lemma rule_message_header_agree (f g : parser) (c : str) (st : pstate) :
  agree_below (length c) f g ->
  rule_message_header U f c st = rule_message_header U g c st.
Proof.
  intros A. unfold rule_message_header.
  destruct (contains (lit "Ai Message") c); [|reflexivity].
  destruct (nonempty (strip (after_two_lines c))); [|reflexivity].
  destruct (contains Controller.execute_open (after_two_lines c)) eqn:X; [|reflexivity].
  rewrite (A (after_two_lines c) st); [reflexivity|].
  apply after_two_lines_shorter. intros E. rewrite E in X. discriminate.
Qed.

Lemma parse_rules_agree (f g : parser) (c : str) (st : pstate) :
  agree_below (length c) f g ->
  parse_rules U time_time f c st = parse_rules U time_time g c st.
Proof.
  intros A. unfold parse_rules.
  now rewrite (rule_header_agree f g c st A), (rule_observation_agree f g c st A),
    (rule_execute_agree f g c st A), (rule_message_header_agree f g c st A).
Qed.

Lemma parse_fuel_agree (n m : nat) (s : str) (st : pstate) :
  length s < n -> length s < m ->
  parse_fuel U time_time n s st = parse_fuel U time_time m s st.
Proof.
  revert m s st. induction n as [|n IH]; intros m s st Hn Hm; [lia|].
  destruct m as [|m]; [lia|]. cbn [parse_fuel].
  destruct (nonempty (strip s)); [|reflexivity].
  apply parse_rules_agree. intros s' st' L.
  pose proof (StrFacts.strip_length s). apply IH; lia.
Qed.

(** More fuel than the chunk has characters is enough fuel. *)
Lemma parse_fuel_enough (n : nat) (chunk : str) (st : pstate) :
  length chunk < n ->
  parse_fuel U time_time n chunk st = parse_chunk_with_llm U time_time chunk st.
Proof. intros L. unfold parse_chunk_with_llm. apply parse_fuel_agree; lia. Qed.

(** The recursive calls see the parser itself, not a truncation of it. *)
Lemma parse_chunk_with_llm_unfold (chunk : str) (st : pstate) :
  parse_chunk_with_llm U time_time chunk st
  = if nonempty (strip chunk)
    then parse_rules U time_time (parse_chunk_with_llm U time_time) (strip chunk) st
    else ([], st).
Proof.
  unfold parse_chunk_with_llm at 1. cbn [parse_fuel].
  destruct (nonempty (strip chunk)); [|reflexivity].
  apply parse_rules_agree. intros s st' L.
  apply parse_fuel_enough. pose proof (StrFacts.strip_length chunk). lia.
Qed.

(** C7, as the code has it.  The classifier never returns an empty list,
    and returns a message in which its six searches find nothing whole, as
    one reasoning event.  The chunk parser strips the chunk; when the
    stripped chunk is not empty and no rule returns on it, the result is one
    event of type [message] that holds the stripped chunk, or no event at
    all when the stripped chunk begins with ['=']. *)
Theorem unmatched_text_default :
  (forall message : Classifier.py_message,
     Classifier._classify_message_multi U message <> []
     /\ (Classifier.planning_events U (Classifier.content_of message) = [] ->
         Classifier.reasoning_events (Classifier.content_of message) = [] ->
         Classifier.block_events Classifier.tool_call Controller.execute_open
           Controller.execute_close (Classifier.content_of message) = [] ->
         Classifier.block_events Classifier.tool_output Classifier.observe_open
           Classifier.observe_close (Classifier.content_of message) = [] ->
         Classifier.block_events Classifier.final_result Controller.solution_open
           Controller.solution_close (Classifier.content_of message) = [] ->
         Classifier.block_events Classifier.thinking Controller.think_open
           Controller.think_close (Classifier.content_of message) = [] ->
         Classifier._classify_message_multi U message
         = [Classifier.mk Classifier.reasoning (Classifier.content_of message)
              (Classifier.content_of message)]))
  /\ (forall (chunk : str) (st : pstate),
        strip chunk <> [] ->
        unmatched U time_time (strip chunk) st ->
        parse_chunk_with_llm U time_time chunk st
        = (if startswith (lit "=") (strip chunk) then []
           else [Message (strip chunk)], st)).
Proof.
  split.
  - intros message. split.
    + unfold Classifier._classify_message_multi. now destruct (_ ++ _).
    + apply ClassifierFacts.classifier_default.
  - intros chunk st N (H1 & H2 & H3 & H4 & H5 & H6 & H7 & H8).
    unfold parse_chunk_with_llm. cbn [parse_fuel].
    destruct (strip chunk) as [|a c] eqn:S; [congruence|]. cbn [nonempty].
    unfold parse_rules.
    rewrite (rule_header_none _ (parse_fuel U time_time (length chunk)) _ _ H1).
    rewrite (rule_observation_none _ (parse_fuel U time_time (length chunk)) _ _ H2).
    rewrite (rule_execute_none _ (parse_fuel U time_time (length chunk)) _ _ H3).
    rewrite (rule_message_header_none _ (parse_fuel U time_time (length chunk)) _ _ H7).
    rewrite H4, H5, H6, H8. cbn [pure option_map or_else].
    unfold default_rule. cbn [nonempty andb].
    now destruct (startswith (lit "=") (a :: c)).
Qed.

End Parser.

(** C7: two chunks on which no rule returns.  The first comes back as an
    event of type [message], not [reasoning]; the second, which begins with
    ['='], is dropped and the list is empty. *)
Lemma unmatched_chunk_not_reasoning :
  unmatched ascii_tables Scenario.clock (lit "hello") Scenario.fresh
  /\ parse_chunk_with_llm ascii_tables Scenario.clock (lit "hello") Scenario.fresh
     = ([Message (lit "hello")], Scenario.fresh)
  /\ type (Message (lit "hello")) <> reasoning
  /\ unmatched ascii_tables Scenario.clock (lit "=====") Scenario.fresh
  /\ parse_chunk_with_llm ascii_tables Scenario.clock (lit "=====") Scenario.fresh
     = ([], Scenario.fresh).
Proof.
  split; [repeat split; vm_compute; reflexivity|].
  split; [vm_compute; reflexivity|]. split; [discriminate|].
  split; [repeat split; vm_compute; reflexivity|]. vm_compute; reflexivity.
Qed.

(** A greeting between blanks comes back stripped, as a message event. *)
Lemma unmatched_text_default_witness :
  parse_chunk_with_llm ascii_tables Scenario.clock (lit "  hello ") Scenario.fresh
  = ([Message (lit "hello")], Scenario.fresh).
Proof.
  rewrite (proj2 (unmatched_text_default ascii_tables Scenario.clock)
             (lit "  hello ") Scenario.fresh).
  - vm_compute; reflexivity.
  - vm_compute; discriminate.
  - repeat split; vm_compute; reflexivity.
Defined.

(** A call dispatched at second 1,699,999,000, checked at second
    1,700,000,000. *)
Lemma pending_call_times_out_once_witness :
  length (filter (is_timeout_for (lit "tool_1699999000000"))
            (fst (fst (check_pending_events Scenario.clock Scenario.stale 0)))) = 1
  /\ PyDict.get (lit "tool_1699999000000")
       (p_pending_tool_calls
          (snd (fst (check_pending_events Scenario.clock Scenario.stale 0)))) = None.
Proof.
  destruct (pending_call_times_out_once Scenario.clock Scenario.stale 0
              (lit "tool_1699999000000") 1699999000%Q
              (fst (fst (check_pending_events Scenario.clock Scenario.stale 0)))
              (snd (fst (check_pending_events Scenario.clock Scenario.stale 0)))
              (snd (check_pending_events Scenario.clock Scenario.stale 0)))
    as (_ & A & _ & B & _).
  - unfold PyDict.wf. simpl. constructor; [intros []|constructor].
  - reflexivity.
  - vm_compute; reflexivity.
  - exists (1699999000 * 4194304)%Z. vm_compute; reflexivity.
  - exists (1700000000 * 4194304)%Z. vm_compute; reflexivity.
  - vm_compute; reflexivity.
  - vm_compute; reflexivity.
  - vm_compute; reflexivity.
  - now split.
Defined.

End OrchestratorFacts.

(* ================================================================== *)
(** * More on strings: stripping and matching *)
(* ================================================================== *)

Module StrMore.
Import StrFacts.

Lemma lstrip_app_solid (a : str) (x : char) (rest : str) :
  isspace x = false -> lstrip (a ++ x :: rest) = lstrip a ++ x :: rest.
Proof.
  intros H. induction a as [|c a IH]; cbn [app lstrip].
  - now rewrite H.
  - destruct (isspace c); [exact IH|reflexivity].
Qed.

Lemma rstrip_app_solid (a : str) (z : char) (c : str) :
  isspace z = false -> rstrip (a ++ z :: c) = a ++ z :: rstrip c.
Proof.
  intros H. unfold rstrip. rewrite rev_app_distr. cbn [rev].
  rewrite <- app_assoc. cbn [app]. rewrite lstrip_app_solid by exact H.
  rewrite rev_app_distr. cbn [rev]. rewrite rev_involutive, <- app_assoc.
  reflexivity.
Qed.

Lemma lstrip_suffix (s : str) : exists ws, s = ws ++ lstrip s.
Proof.
  induction s as [|c s (ws & E)]; [now exists []|]. cbn [lstrip].
  destruct (isspace c); [|now exists []].
  exists (c :: ws). cbn [app]. now rewrite <- E.
Qed.

Lemma rstrip_prefix (s : str) : exists ws, s = rstrip s ++ ws.
Proof.
  unfold rstrip. destruct (lstrip_suffix (rev s)) as (ws & E).
  exists (rev ws). rewrite <- rev_app_distr, <- E. now rewrite rev_involutive.
Qed.

(** The first occurrence comes no later than any occurrence. *)
Lemma find_before (p a t : str) :
  exists j, find p (a ++ p ++ t) = Some j /\ j <= length a.
Proof.
  induction a as [|x a (j & F & L)].
  - exists 0. split; [|reflexivity]. cbn [app].
    destruct (p ++ t) as [|c r] eqn:E.
    + destruct p; [reflexivity|discriminate].
    + cbn [find]. rewrite <- E. now rewrite startswith_refl_app.
  - cbn [app find]. destruct (startswith p (x :: a ++ p ++ t)).
    + exists 0. split; [reflexivity|cbn; lia].
    + rewrite F. exists (S j). split; [reflexivity|cbn; lia].
Qed.

(** A match is an opening tag with a closing tag somewhere after it. *)
Lemma matched_iff (op cl s : str) :
  op <> [] ->
  matched (search_tag op cl s) = true
  <-> exists a b c, s = a ++ op ++ b ++ cl ++ c.
Proof.
  intros Hop. unfold search_tag. rewrite search_from_spec by exact Hop. split.
  - destruct (find op s) as [j|] eqn:F; [|discriminate]. cbv zeta.
    destruct (find cl (skipn (j + length op) s)) as [k|] eqn:G; [|discriminate].
    intros _.
    exists (firstn j s), (firstn k (skipn (j + length op) s)),
      (skipn (length cl) (skipn k (skipn (j + length op) s))).
    rewrite <- (startswith_split _ _ (find_startswith _ _ _ G)), firstn_skipn.
    rewrite Nat.add_comm, <- skipn_skipn.
    rewrite <- (startswith_split _ _ (find_startswith _ _ _ F)).
    now rewrite firstn_skipn.
  - intros (a & b & c & ->).
    destruct (find_before op a (b ++ cl ++ c)) as (j & F & L). rewrite F. cbv zeta.
    assert (C : contains cl (skipn (j + length op) (a ++ op ++ b ++ cl ++ c)) = true).
    { replace (a ++ op ++ b ++ cl ++ c) with ((a ++ op ++ b) ++ cl ++ c)
        by now rewrite <- !app_assoc.
      rewrite skipn_app_le by (rewrite !length_app; lia).
      apply contains_app_r, contains_app_l, contains_self. }
    unfold contains in C. now destruct (find cl _).
Qed.

Section Solid.
(** An opening tag that begins, and a closing tag that ends, with a
    character that is not white space. *)
Variables (o : char) (op' cl' : str) (z : char) (cl : str).
Hypothesis Ho : isspace o = false.
Hypothesis Hz : isspace z = false.
Hypothesis Hcl : cl = cl' ++ [z].

Lemma search_skips_space (w : char) (s : str) (i : nat) :
  isspace w = true ->
  search_from (o :: op') cl i (w :: s) = search_from (o :: op') cl (S i) s.
Proof.
  intros W. cbn [search_from startswith].
  destruct (N.eqb_spec o w) as [->|_]; [congruence|reflexivity].
Qed.

Lemma group_lstrip (s : str) :
  option_map m_group (search_tag (o :: op') cl (lstrip s))
  = option_map m_group (search_tag (o :: op') cl s).
Proof.
  induction s as [|w s IH]; [reflexivity|]. cbn [lstrip].
  destruct (isspace w) eqn:W; [|reflexivity].
  rewrite IH. unfold search_tag. rewrite (search_skips_space _ _ _ W).
  rewrite !search_from_spec by discriminate.
  destruct (find (o :: op') s); [|reflexivity]. cbv zeta.
  now destruct (find cl _).
Qed.

Lemma matched_rstrip (s : str) :
  matched (search_tag (o :: op') cl s) = true ->
  matched (search_tag (o :: op') cl (rstrip s)) = true.
Proof.
  intros M. apply matched_iff in M as (a & b & c & ->); [|discriminate].
  apply matched_iff; [discriminate|]. exists a, b, (rstrip c).
  rewrite Hcl.
  replace (a ++ (o :: op') ++ b ++ (cl' ++ [z]) ++ c)
    with ((a ++ (o :: op') ++ b ++ cl') ++ z :: c)
    by (rewrite <- !app_assoc; reflexivity).
  rewrite rstrip_app_solid by exact Hz. rewrite <- !app_assoc. reflexivity.
Qed.

(** Stripping a text keeps its match and the text matched. *)
Lemma strip_keeps_group (s : str) (m : tag_match) :
  search_tag (o :: op') cl s = Some m ->
  exists m', search_tag (o :: op') cl (strip s) = Some m'
             /\ m_group m' = m_group m.
Proof.
  intros H.
  assert (L : option_map m_group (search_tag (o :: op') cl (lstrip s))
              = Some (m_group m)) by now rewrite group_lstrip, H.
  destruct (search_tag (o :: op') cl (lstrip s)) as [m1|] eqn:S1; [|discriminate].
  injection L as L.
  assert (M : matched (search_tag (o :: op') cl (strip s)) = true).
  { unfold strip. apply matched_rstrip. now rewrite S1. }
  destruct (search_tag (o :: op') cl (strip s)) as [m'|] eqn:S2; [|discriminate].
  exists m'. split; [reflexivity|].
  destruct (rstrip_prefix (lstrip s)) as (ws & E).
  assert (A : search_tag (o :: op') cl (lstrip s) = Some m').
  { rewrite E. apply search_tag_app; [discriminate|exact S2]. }
  rewrite S1 in A. injection A as <-. exact L.
Qed.

End Solid.

End StrMore.

(* ================================================================== *)
(** * More on the controller: routing, edge cases, composition *)
(* ================================================================== *)

Module ControllerMore.
Import Controller StrFacts ControllerFacts Statements.

Lemma search_tag_absent (op cl s : str) :
  op <> [] -> contains op s = false -> search_tag op cl s = None.
Proof.
  intros Hop C. unfold search_tag. rewrite search_from_spec by exact Hop.
  unfold contains in C. now destruct (find op s).
Qed.

Lemma close_tag_noop (op cl s : str) :
  contains op s = false -> close_tag op cl s = s.
Proof. unfold close_tag. now intros ->. Qed.

Lemma think_open_nonempty : think_open <> [].
Proof. discriminate. Qed.

(** The message [generate] stores for a reply, and what it appends. *)
Lemma parse_reply_shape (ms : list message) (reply : str) :
  exists s,
    next_step (parse_reply ms reply) = Some s
    /\ (messages (parse_reply ms reply) = ms ++ [AIMessage (strip (fix_tags reply))]
        \/ exists m,
             messages (parse_reply ms reply)
             = ms ++ [AIMessage (strip (fix_tags reply)); m]).
Proof.
  unfold parse_reply.
  destruct (matched (search_tag solution_open solution_close (fix_tags reply)));
    [eexists; split; [reflexivity|now left]|].
  destruct (matched (search_tag execute_open execute_close (fix_tags reply)));
    [eexists; split; [reflexivity|now left]|].
  destruct (matched (search_tag think_open think_close (fix_tags reply)));
    [eexists; split; [reflexivity|now left]|].
  destruct (2 <=? error_count _); eexists; (split; [reflexivity|]); right;
    cbn [messages]; rewrite <- app_assoc; eexists; reflexivity.
Qed.

Section Nodes.
Variable U : unicode.
Variable LLM : Type.
Variable invoke : LLM -> list message -> llm_outcome * LLM.
Variable system_prompt : str.
Variable Env : Type.
Variable run_with_timeout : runner -> str -> Env -> str * Env.
Variable inject_custom_functions_to_repl : Env -> Env.
Variable test_time_scale_round : nat.
Variable user_task : str.

(** A state returned by [generate] comes from [parse_reply], on a list as
    long as the one [generate] was given. *)
Lemma generate_inv (state state' : AgentState) (llm llm' : LLM) :
  generate U LLM invoke system_prompt state llm = Ok (state', llm') ->
  exists ms reply,
    state' = parse_reply ms reply /\ length ms = length (messages state).
Proof.
  unfold generate, obtain_reply.
  destruct (try_invoke _ _ _ _ llm (messages state)) as [[reply|e1] l1].
  - intros [= <- _]. now exists (messages state), reply.
  - destruct (recoverable U e1); [|discriminate].
    destruct (try_invoke _ _ _ _ l1 _) as [[reply|e2] l2]; intros [= <- _];
      eexists; eexists; (split; [reflexivity|]);
      apply RecoveryFacts.truncate_last_observation_length.
Qed.

(** X1.  Whenever [generate] returns, it has set [next_step], so that
    [routing_function] does not raise, and it has added one message or two
    to the list. *)
Theorem generate_then_routing (state state' : AgentState) (llm llm' : LLM) :
  generate U LLM invoke system_prompt state llm = Ok (state', llm') ->
  (exists s, routing_function state' = Ok s)
  /\ (length (messages state') = length (messages state) + 1
      \/ length (messages state') = length (messages state) + 2).
Proof.
  intros H. destruct (generate_inv _ _ _ _ H) as (ms & reply & -> & L).
  destruct (parse_reply_shape ms reply) as (s & N & M). split.
  - exists s. unfold routing_function. now rewrite N.
  - destruct M as [->|[m ->]]; rewrite length_app; cbn [length]; lia.
Qed.

(** X2.  A reply that holds a complete think block and neither an execute nor a
    solution tag is stored as it is and answered by another call of the
    model: no correction is appended and nothing is counted. *)
Theorem think_only_reply_loops
    (state : AgentState) (llm llm' : LLM) (reply : str) :
  invoke llm (SystemMessage system_prompt :: messages state)
    = (Returned (Some reply), llm') ->
  contains execute_open reply = false ->
  contains solution_open reply = false ->
  matched (search_tag think_open think_close reply) = true ->
  generate U LLM invoke system_prompt state llm
  = Ok ({| messages := messages state ++ [AIMessage (strip reply)];
           next_step := Some Generate |}, llm')
  /\ error_count (messages state ++ [AIMessage (strip reply)])
     = error_count (messages state)
       + (if contains no_tags_marker (strip reply) then 1 else 0).
Proof.
  intros H X S T. rewrite (generate_answered _ _ _ _ _ _ _ _ H).
  assert (F : fix_tags reply = reply).
  { unfold fix_tags. rewrite (close_tag_noop _ _ _ X), (close_tag_noop _ _ _ S).
    apply close_tag_present.
    now destruct (matched_contains _ _ _ think_open_nonempty T). }
  split.
  - unfold parse_reply. rewrite F, T.
    rewrite (search_tag_absent _ _ _ solution_open_nonempty S).
    now rewrite (search_tag_absent _ _ _ execute_open_nonempty X).
  - unfold error_count. rewrite filter_app, length_app.
    change (filter _ [AIMessage (strip reply)])
      with (if contains no_tags_marker (strip reply)
            then [AIMessage (strip reply)] else []).
    now destruct (contains no_tags_marker (strip reply)).
Qed.

(** X3.  The route of a reply without any of the three opening tags.  What is
    counted is the AI messages that contain the words "There are no tags",
    the reply included: at two or more the run is ended with the notice of
    termination, below two the instruction to follow the format is
    appended and the model is called again. *)
Theorem untagged_reply_routing (ms : list message) (reply : str) :
  contains execute_open reply = false ->
  contains solution_open reply = false ->
  contains think_open reply = false ->
  let said := if contains no_tags_marker (strip reply) then 1 else 0 in
  (2 <= error_count ms + said ->
     parse_reply ms reply
     = {| messages := ms ++ [AIMessage (strip reply); AIMessage termination_notice];
          next_step := Some End |})
  /\ (error_count ms + said < 2 ->
      parse_reply ms reply
      = {| messages := ms ++ [AIMessage (strip reply);
                              HumanMessage corrective_instruction];
           next_step := Some Generate |}).
Proof.
  intros X S T said.
  assert (F : fix_tags reply = reply).
  { unfold fix_tags.
    now rewrite (close_tag_noop _ _ _ X), (close_tag_noop _ _ _ S),
      (close_tag_noop _ _ _ T). }
  assert (C : error_count (ms ++ [AIMessage (strip reply)]) = error_count ms + said).
  { unfold error_count, said. rewrite filter_app, length_app.
    change (filter _ [AIMessage (strip reply)])
      with (if contains no_tags_marker (strip reply)
            then [AIMessage (strip reply)] else []).
    now destruct (contains no_tags_marker (strip reply)). }
  assert (P : parse_reply ms reply
              = if 2 <=? error_count ms + said
                then {| messages := (ms ++ [AIMessage (strip reply)])
                                    ++ [AIMessage termination_notice];
                        next_step := Some End |}
                else {| messages := (ms ++ [AIMessage (strip reply)])
                                    ++ [HumanMessage corrective_instruction];
                        next_step := Some Generate |}).
  { unfold parse_reply. rewrite F, C.
    rewrite (search_tag_absent _ _ _ solution_open_nonempty S).
    rewrite (search_tag_absent _ _ _ execute_open_nonempty X).
    now rewrite (search_tag_absent _ _ _ think_open_nonempty T). }
  rewrite P, <- !app_assoc. cbn [app]. split; intros L.
  - now destruct (Nat.leb_spec 2 (error_count ms + said)); [|lia].
  - now destruct (Nat.leb_spec 2 (error_count ms + said)); [lia|].
Qed.

(** X4.  A missing response is not among the errors [generate] recovers from:
    when lowering leaves the ASCII text of its own error message as ASCII
    lowering does, a call that returns [None], or a response without
    content, makes [generate] raise that error after this one call. *)
Theorem null_response_is_raised
    (state : AgentState) (llm llm' : LLM) (o : llm_outcome) :
  lower U (lit "Received null response from LLM")
    = lit "received null response from llm" ->
  invoke llm (SystemMessage system_prompt :: messages state) = (o, llm') ->
  o = ReturnedNone \/ o = Returned None ->
  generate U LLM invoke system_prompt state llm
  = Raised (lit "Received null response from LLM").
Proof.
  intros L H O. unfold generate, obtain_reply, try_invoke. rewrite H.
  assert (R : recoverable U (lit "Received null response from LLM") = false).
  { unfold recoverable. rewrite L. vm_compute. reflexivity. }
  destruct O as [->| ->]; now rewrite R.
Qed.

(** X5.  [execute] calls no runner when the last message holds no execute tag:
    the state and the interpreters are returned as they were. *)
Theorem execute_without_tag
    (state : AgentState) (env : Env) (earlier : list message) (last : message) :
  messages state = earlier ++ [last] ->
  contains execute_open (content last) = false ->
  execute Env run_with_timeout inject_custom_functions_to_repl state env
  = Ok (state, env).
Proof.
  intros M C. unfold execute. rewrite M, rev_app_distr. cbn [rev app].
  unfold extract_code. rewrite (close_tag_noop _ _ _ C).
  now rewrite (search_tag_absent _ _ _ execute_open_nonempty C).
Qed.

(** X6.  A block marked [#!CLI] is handed to the shell runner as one line: the
    command holds no newline. *)
Theorem cli_command_is_one_line (code : str) (env : Env) :
  startswith (lit "#!CLI") (strip code) = true ->
  exists cli_command,
    run_code Env run_with_timeout inject_custom_functions_to_repl code env
    = run_with_timeout run_bash_script cli_command env
    /\ ~ In NL cli_command.
Proof.
  intros H. unfold run_code. rewrite H.
  pose proof (startswith_split _ _ H) as E.
  assert (N : forall p, startswith p (lit "#!CLI" ++ skipn (length (lit "#!CLI")) (strip code))
                        = startswith p (strip code)) by (intros p; now rewrite <- E).
  rewrite <- (N (lit "#!R")), <- (N (lit "# R code")), <- (N (lit "# R script")),
    <- (N (lit "#!BASH")), <- (N (lit "# Bash script")).
  change (startswith (lit "#!R") (lit "#!CLI" ++ ?r)) with false.
  change (startswith (lit "# R code") (lit "#!CLI" ++ ?r)) with false.
  change (startswith (lit "# R script") (lit "#!CLI" ++ ?r)) with false.
  change (startswith (lit "#!BASH") (lit "#!CLI" ++ ?r)) with false.
  change (startswith (lit "# Bash script") (lit "#!CLI" ++ ?r)) with false.
  cbn [orb].
  eexists. split; [reflexivity|].
  unfold replace_nl_space. intros I. apply in_map_iff in I as (c & Ec & _).
  destruct (N.eqb_spec c NL); [discriminate|congruence].
Qed.

(** X7.  The self-critique is bounded: a count that has reached
    [test_time_scale_round] ends the run without a call of the model, a
    smaller count grows by one, and from a count within the bound the count
    stays within it.  Whenever the node returns, the routing function after
    it does not raise. *)
Theorem self_critic_bounded
    (state state' : AgentState) (k k' : nat) (llm llm' : LLM) :
  execute_self_critic LLM invoke test_time_scale_round user_task state k llm
    = Ok (state', k', llm') ->
  (test_time_scale_round <= k ->
     state' = {| messages := messages state; next_step := Some End |}
     /\ k' = k /\ llm' = llm)
  /\ (k < test_time_scale_round ->
      k' = S k /\ next_step state' = Some Generate
      /\ exists feedback,
           messages state' = messages state ++ [HumanMessage feedback])
  /\ (k <= test_time_scale_round -> k' <= test_time_scale_round)
  /\ exists s, routing_function_self_critic state' = Ok s.
Proof.
  unfold execute_self_critic. destruct (Nat.ltb_spec k test_time_scale_round) as [L|L].
  - destruct (invoke llm _) as [[[c|]| |e] l1]; try discriminate;
      intros [= <- <- <-]; (split; [lia|]); (split; [intros _|split; [lia|]]);
      try (split; [reflexivity|split; [reflexivity|eexists; reflexivity]]);
      now exists Generate.
  - intros [= <- <- <-]. split; [now intros _|]. split; [lia|]. split; [lia|].
    now exists End.
Qed.

(** X8.  After [generate] has routed to [execute], the last message holds a
    complete execute block: [execute] finds code in it, runs it, and appends
    one observation. *)
Theorem execute_after_generate
    (state state' : AgentState) (llm llm' : LLM) (env : Env) :
  generate U LLM invoke system_prompt state llm = Ok (state', llm') ->
  next_step state' = Some Execute ->
  exists code,
    execute Env run_with_timeout inject_custom_functions_to_repl state' env
    = (let (r, env') :=
         run_code Env run_with_timeout inject_custom_functions_to_repl code env in
       Ok ({| messages := messages state' ++ [observation_message (bound_output r)];
              next_step := Some Execute |}, env')).
Proof.
  intros G N. destruct (generate_inv _ _ _ _ G) as (ms & reply & -> & _).
  unfold parse_reply in N |- *.
  destruct (matched (search_tag solution_open solution_close (fix_tags reply)));
    [discriminate|].
  destruct (search_tag execute_open execute_close (fix_tags reply)) as [m|] eqn:X.
  - cbn [matched messages next_step] in *.
    destruct (StrMore.strip_keeps_group 60%N (lit "execute>") (lit "</execute")
                62%N execute_close eq_refl eq_refl eq_refl _ _ X) as (m' & S & E).
    assert (C : extract_code (strip (fix_tags reply)) = Some (m_group m')).
    { unfold extract_code.
      destruct (close_tag_suffix execute_open execute_close (strip (fix_tags reply)))
        as [t ->].
      now rewrite (search_tag_app _ _ _ t _ execute_open_nonempty S). }
    exists (m_group m'). unfold execute. cbn [messages].
    rewrite rev_app_distr. cbn [rev app content AIMessage]. rewrite C.
    now destruct (run_code _ _ _ _ env).
  - cbn [matched] in N.
    destruct (matched (search_tag think_open think_close (fix_tags reply)));
      [discriminate|].
    destruct (2 <=? error_count _); discriminate.
Qed.

End Nodes.

Lemma generate_then_routing_witness :
  (exists s, routing_function Scenario2.answered = Ok s)
  /\ (length (messages Scenario2.answered) = length (messages Scenario.question) + 1
      \/ length (messages Scenario2.answered) = length (messages Scenario.question) + 2).
Proof.
  apply (generate_then_routing ascii_tables Scenario.script Scenario.scripted
           Scenario2.system_prompt Scenario.question Scenario2.answered
           [Scenario.done] []).
  vm_compute. reflexivity.
Defined.

Lemma think_only_reply_loops_witness :
  generate ascii_tables Scenario.script Scenario.scripted Scenario2.system_prompt
           Scenario.question [Returned (Some Scenario2.thought)]
  = Ok ({| messages := messages Scenario.question ++ [AIMessage (strip Scenario2.thought)];
           next_step := Some Generate |}, [])
  /\ error_count (messages Scenario.question ++ [AIMessage (strip Scenario2.thought)])
     = error_count (messages Scenario.question)
       + (if contains no_tags_marker (strip Scenario2.thought) then 1 else 0).
Proof.
  apply (think_only_reply_loops ascii_tables Scenario.script Scenario.scripted
           Scenario2.system_prompt Scenario.question
           [Returned (Some Scenario2.thought)] [] Scenario2.thought);
    vm_compute; reflexivity.
Defined.

Lemma untagged_reply_routing_witness :
  (2 <= error_count [AIMessage no_tags_marker]
        + (if contains no_tags_marker (strip (lit "The answer is 4. ")) then 1 else 0) ->
     parse_reply [AIMessage no_tags_marker] (lit "The answer is 4. ")
     = {| messages := [AIMessage no_tags_marker]
                      ++ [AIMessage (strip (lit "The answer is 4. "));
                          AIMessage termination_notice];
          next_step := Some End |})
  /\ (error_count [AIMessage no_tags_marker]
      + (if contains no_tags_marker (strip (lit "The answer is 4. ")) then 1 else 0) < 2 ->
      parse_reply [AIMessage no_tags_marker] (lit "The answer is 4. ")
      = {| messages := [AIMessage no_tags_marker]
                       ++ [AIMessage (strip (lit "The answer is 4. "));
                           HumanMessage corrective_instruction];
           next_step := Some Generate |}).
Proof.
  apply (untagged_reply_routing [AIMessage no_tags_marker] (lit "The answer is 4. "));
    vm_compute; reflexivity.
Defined.

Lemma null_response_is_raised_witness :
  generate ascii_tables Scenario.script Scenario.scripted Scenario2.system_prompt
           Scenario.question [Returned None; Scenario.done]
  = Raised (lit "Received null response from LLM").
Proof.
  apply (null_response_is_raised ascii_tables Scenario.script Scenario.scripted
           Scenario2.system_prompt Scenario.question
           [Returned None; Scenario.done] [Scenario.done] (Returned None)).
  - vm_compute. reflexivity.
  - reflexivity.
  - right. reflexivity.
Defined.

Lemma execute_without_tag_witness :
  execute unit Scenario.echo (fun e => e) Scenario2.answered tt
  = Ok (Scenario2.answered, tt).
Proof.
  apply (execute_without_tag unit Scenario.echo (fun e => e) Scenario2.answered tt
           [HumanMessage (lit "compute 2+2")]
           (AIMessage (lit "<solution>done</solution>"))).
  - reflexivity.
  - vm_compute. reflexivity.
Defined.

Lemma cli_command_is_one_line_witness :
  exists cli_command,
    run_code unit Scenario.echo (fun e => e) (lit "#!CLI
ls -l
pwd
") tt
    = Scenario.echo run_bash_script cli_command tt
    /\ ~ In NL cli_command.
Proof.
  apply (cli_command_is_one_line unit Scenario.echo (fun e => e)).
  vm_compute. reflexivity.
Defined.

Lemma self_critic_bounded_witness :
  (1 <= 0 ->
     Scenario2.criticised
     = {| messages := messages Scenario2.answered; next_step := Some End |}
     /\ 1 = 0 /\ [Scenario.done] = [Returned (Some (lit "show the steps")); Scenario.done])
  /\ (0 < 1 ->
      1 = 1 /\ next_step Scenario2.criticised = Some Generate
      /\ exists feedback,
           messages Scenario2.criticised
           = messages Scenario2.answered ++ [HumanMessage feedback])
  /\ (0 <= 1 -> 1 <= 1)
  /\ exists s, routing_function_self_critic Scenario2.criticised = Ok s.
Proof.
  apply (self_critic_bounded Scenario.script Scenario.scripted 1 (lit "compute 2+2")
           Scenario2.answered Scenario2.criticised 0 1
           [Returned (Some (lit "show the steps")); Scenario.done] [Scenario.done]).
  vm_compute. reflexivity.
Defined.

Lemma execute_after_generate_witness :
  exists code,
    execute unit Scenario.echo (fun e => e) Scenario.short_run tt
    = (let (r, env') := run_code unit Scenario.echo (fun e => e) code tt in
       Ok ({| messages := messages Scenario.short_run
                          ++ [observation_message (bound_output r)];
              next_step := Some Execute |}, env')).
Proof.
  apply (execute_after_generate ascii_tables Scenario.script Scenario.scripted
           Scenario2.system_prompt unit Scenario.echo (fun e => e)
           Scenario.question Scenario.short_run [Scenario2.asks_to_run] [] tt).
  - vm_compute. reflexivity.
  - reflexivity.
Defined.

End ControllerMore.

(* ================================================================== *)
(** * The workflow: how a run ends *)
(* ================================================================== *)

Module WorkflowFacts.
Import Controller Workflow.

Section Run.
Variable U : unicode.
Variable LLM : Type.
Variable invoke : LLM -> list message -> llm_outcome * LLM.
Variable system_prompt : str.
Variable Env : Type.
Variable run_with_timeout : runner -> str -> Env -> str * Env.
Variable inject_custom_functions_to_repl : Env -> Env.
Variable self_critic : bool.
Variable test_time_scale_round : nat.
Variable user_task : str.

Lemma routing_function_ok (st : AgentState) (s : step) :
  routing_function st = Ok s -> next_step st = Some s.
Proof. unfold routing_function. destruct (next_step st); now intros [= ->]. Qed.

(** The self-critique node, followed by its routing. *)
Lemma self_critic_step (st st' : AgentState) (k k' : nat) (l l' : LLM) (s : step) :
  execute_self_critic LLM invoke test_time_scale_round user_task st k l
    = Ok (st', k', l') ->
  routing_function_self_critic st' = Ok s ->
  k <= test_time_scale_round ->
  k' <= test_time_scale_round
  /\ (s = Generate \/ s = End /\ next_step st' = Some End /\ k' = test_time_scale_round).
Proof.
  unfold execute_self_critic.
  destruct (Nat.ltb_spec k test_time_scale_round) as [L|L].
  - destruct (invoke l _) as [[[c|]| |e] l1]; try discriminate;
      intros [= <- <- <-]; cbn; intros [= <-] _; (split; [lia|now left]).
  - intros [= <- <- <-]. cbn. intros [= <-] B. split; [lia|]. right.
    repeat split. lia.
Qed.

Lemma run_at_end (limit : nat) (w : world LLM Env) :
  run U LLM invoke system_prompt Env run_with_timeout
      inject_custom_functions_to_repl self_critic test_time_scale_round
      user_task limit END w = Finished w.
Proof. now destruct limit. Qed.

(** X9.  A run that reaches [END] has [next_step] at "end".  Without the
    self-critique the count of critiques is what it was; with it, a run
    that starts with a count within [test_time_scale_round] ends with the
    count equal to it: every round of critique has been made. *)
Theorem run_finishes_at_end
    (limit : nat) (n : node) (w w' : world LLM Env) :
  run U LLM invoke system_prompt Env run_with_timeout
      inject_custom_functions_to_repl self_critic test_time_scale_round
      user_task limit n w = Finished w' ->
  n <> END ->
  (self_critic = false -> n <> self_critic_node) ->
  next_step (state w') = Some End
  /\ (self_critic = false -> critic_count w' = critic_count w)
  /\ (self_critic = true -> critic_count w <= test_time_scale_round ->
      critic_count w' = test_time_scale_round).
Proof.
  revert n w. induction limit as [|limit IH]; intros n w R NE NS.
  - destruct n; cbn in R; congruence.
  - destruct n; [| | |congruence]; cbn [run node_step] in R.
    + (* generate *)
      destruct (generate _ _ _ _ (state w) (llm w)) as [[st l]|e]; [|discriminate].
      destruct (routing_function st) as [s|e] eqn:RF; [|discriminate].
      apply routing_function_ok in RF.
      destruct s; cbn [after_generate] in R.
      * apply IH in R; [exact R|discriminate|discriminate].
      * apply IH in R; [exact R|discriminate|discriminate].
      * destruct self_critic eqn:SC.
        -- apply IH in R; [exact R|discriminate|discriminate].
        -- rewrite <- SC, run_at_end in R. injection R as <-. cbn.
           split; [exact RF|split; [reflexivity|discriminate]].
    + (* execute *)
      destruct (execute _ _ _ (state w) (env w)) as [[st e]|e]; [|discriminate].
      apply IH in R; [exact R|discriminate|discriminate].
    + (* self-critique *)
      destruct (execute_self_critic _ _ _ _ (state w) (critic_count w) (llm w))
        as [[[st k] l]|e] eqn:X; [|discriminate].
      destruct (routing_function_self_critic st) as [s|e] eqn:RF; [|discriminate].
      destruct self_critic eqn:SC; [|now exfalso; apply NS].
      assert (T : critic_count w <= test_time_scale_round ->
                  k <= test_time_scale_round
                  /\ (s = Generate
                      \/ s = End /\ next_step st = Some End
                         /\ k = test_time_scale_round))
        by (intros B; exact (self_critic_step _ _ _ _ _ _ _ X RF B)).
      destruct s; cbn [after_self_critic] in R.
      * unfold routing_function_self_critic in RF.
        destruct (next_step st) as [[]|]; discriminate.
      * apply IH in R; [|discriminate|discriminate].
        destruct R as (R1 & R2 & R3). cbn [critic_count] in *.
        split; [exact R1|]. split; [discriminate|]. intros _ B.
        apply R3; [reflexivity|]. now apply T.
      * rewrite <- SC, run_at_end in R. injection R as <-. cbn [state critic_count].
        assert (E : next_step st = Some End).
        { unfold routing_function_self_critic in RF.
          destruct (next_step st) as [[]|]; try discriminate; reflexivity. }
        split; [exact E|]. split; [discriminate|]. intros _ B.
        destruct (T B) as [_ [D|(_ & _ & D)]]; [discriminate|exact D].
Qed.

End Run.

Lemma run_finishes_at_end_witness :
  next_step (state Scenario2.finish) = Some End
  /\ (true = false -> critic_count Scenario2.finish = critic_count Scenario2.start)
  /\ (true = true -> critic_count Scenario2.start <= 1 ->
      critic_count Scenario2.finish = 1).
Proof.
  apply (run_finishes_at_end ascii_tables Scenario.script Scenario.scripted
           Scenario2.system_prompt unit Scenario.echo (fun e => e) true 1
           (lit "compute 2+2") 10 generate_node Scenario2.start Scenario2.finish).
  - vm_compute. reflexivity.
  - discriminate.
  - discriminate.
Defined.

End WorkflowFacts.

(* ================================================================== *)
(** * More on the classifier *)
(* ================================================================== *)

Module ClassifierMore.
Import Classifier StrFacts Statements Statements2 ClassifierFacts.

Lemma startswith_firstn (p s t : str) :
  startswith p (s ++ t) = true -> length s <= length p -> firstn (length s) p = s.
Proof.
  revert p; induction s as [|c s IH]; intros p; [reflexivity|].
  destruct p as [|x p]; cbn [app startswith length firstn]; [intros _ L; cbn in L; lia|].
  intros H L. apply andb_true_iff in H as [E H]. apply N.eqb_eq in E. subst.
  f_equal. apply IH; [exact H|cbn in L; lia].
Qed.

(** An occurrence in [s ++ t] lies in [s], or in [t], or across the
    junction, a head of [p] ending [s]. *)
Lemma contains_app_cases (p s t : str) :
  contains p (s ++ t) = true ->
  contains p s = true \/ contains p t = true
  \/ exists k, 0 < k < length p /\ endswith (firstn k p) s = true.
Proof.
  induction s as [|c s IH]; intros H.
  - right; left; exact H.
  - unfold contains in H. cbn [app find] in H.
    destruct (startswith p (c :: s ++ t)) eqn:E.
    + destruct (Nat.le_gt_cases (length p) (length (c :: s))) as [L|L].
      * left. change (c :: s ++ t) with ((c :: s) ++ t) in E.
        rewrite startswith_app_inv in E by exact L.
        unfold contains. cbn [find]. now rewrite E.
      * right; right. exists (length (c :: s)). split; [cbn in *; lia|].
        change (c :: s ++ t) with ((c :: s) ++ t) in E.
        rewrite (startswith_firstn _ _ _ E) by lia.
        unfold endswith. rewrite <- (app_nil_r (rev (c :: s))) at 2.
        apply startswith_refl_app.
    + assert (C : contains p (s ++ t) = true).
      { unfold contains. now destruct (find p (s ++ t)). }
      destruct (IH C) as [A|[A|(k & K & A)]].
      * left. now apply contains_cons.
      * right; left. exact A.
      * right; right. exists k. split; [exact K|].
        unfold endswith in *. cbn [rev]. now apply startswith_app.
Qed.

(** A text between two fixed ends holds [p] only if the text itself does,
    when [p] can neither lie in an end nor across a junction. *)
Lemma contains_between (p s body e : str) :
  contains p s = false -> no_straddle p s = true ->
  contains p e = false -> overlap p e = false ->
  contains p body = false ->
  contains p (s ++ body ++ e) = false.
Proof.
  intros Cs Ns Ce Oe Cb.
  rewrite app_assoc, contains_app_same by assumption.
  destruct (contains p (s ++ body)) eqn:C; [|reflexivity].
  destruct (contains_app_cases _ _ _ C) as [A|[A|(k & K & A)]]; try congruence.
  unfold no_straddle in Ns. rewrite forallb_forall in Ns.
  specialize (Ns k). rewrite A in Ns. discriminate Ns. apply in_seq. lia.
Qed.

(** The closing tag appended to a text that does not hold it is found at
    the end of the text. *)
Lemma find_closing (cl body : str) :
  contains cl body = false -> overlap cl cl = false ->
  find cl (body ++ cl) = Some (length body).
Proof.
  intros C O. induction body as [|c body IH].
  - cbn [app length]. pose proof (contains_self cl) as S. unfold contains in S.
    destruct cl as [|x cl]; [reflexivity|]. cbn [find].
    rewrite <- (app_nil_r (x :: cl)) at 2. now rewrite startswith_refl_app.
  - assert (C' : contains cl body = false).
    { destruct (contains cl body) eqn:E; [|reflexivity].
      now rewrite (contains_cons _ c _ E) in C. }
    cbn [app find length].
    destruct (startswith cl (c :: body ++ cl)) eqn:E.
    + exfalso. change (c :: body ++ cl) with ((c :: body) ++ cl) in E.
      destruct (Nat.le_gt_cases (length cl) (length (c :: body))) as [L|L].
      * rewrite startswith_app_inv in E by exact L.
        unfold contains in C. cbn [find] in C. now rewrite E in C.
      * pose proof (startswith_across _ _ _ E L) as A.
        assert (X : overlap cl cl = true).
        { unfold overlap. apply existsb_exists. exists (length (c :: body)).
          split; [apply in_seq; cbn in *; lia|exact A]. }
        congruence.
    + now rewrite (IH C').
Qed.

Section Classify.
Variable U : unicode.

Lemma block_events_kinds (k : kind) (op cl c : str) :
  op <> [] ->
  kinds (block_events k op cl c)
  = if matched (search_tag op cl c) then [k] else [].
Proof.
  intros Hop. unfold block_events.
  destruct (search_tag op cl c) as [m|] eqn:S.
  - assert (C : contains op c = true).
    { apply (matched_contains op cl c Hop). now rewrite S. }
    rewrite C. now destruct k.
  - now destruct (contains op c).
Qed.

Lemma planning_kinds (c : str) :
  kinds (planning_events U c) = [] \/ kinds (planning_events U c) = [planning].
Proof.
  destruct (planning_events_shape U c) as [->|(e & -> & E)]; [now left|].
  right. cbn. now rewrite E.
Qed.

Lemma reasoning_kinds (c : str) :
  kinds (reasoning_events c) = [] \/ kinds (reasoning_events c) = [reasoning].
Proof.
  destruct (reasoning_events_shape c) as [->|(e & -> & E)]; [now left|].
  right. cbn. now rewrite E.
Qed.

Lemma kinds_multi (message : py_message) :
  let c := content_of message in
  let found :=
    kinds (planning_events U c) ++ kinds (reasoning_events c)
    ++ (if matched (search_tag Controller.execute_open Controller.execute_close c)
        then [tool_call] else [])
    ++ (if matched (search_tag observe_open observe_close c)
        then [tool_output] else [])
    ++ (if matched (search_tag Controller.solution_open Controller.solution_close c)
        then [final_result] else [])
    ++ (if matched (search_tag Controller.think_open Controller.think_close c)
        then [thinking] else []) in
  kinds (_classify_message_multi U message)
  = match found with [] => [reasoning] | _ => found end.
Proof.
  cbv zeta. unfold _classify_message_multi.
  rewrite <- !block_events_kinds by discriminate.
  unfold kinds. rewrite <- !map_app.
  now destruct (_ ++ _).
Qed.

(** X10.  The classifier reports a tagged block exactly when the block is
    complete in the message as it stands: it does not close a tag that was
    left open, so a message without [</execute>] gives no tool_call event. *)
Theorem block_event_iff_complete (message : py_message) :
  let c := content_of message in
  let ks := kinds (_classify_message_multi U message) in
  (In tool_call ks
     <-> matched (search_tag Controller.execute_open Controller.execute_close c) = true)
  /\ (In tool_output ks
      <-> matched (search_tag observe_open observe_close c) = true)
  /\ (In final_result ks
      <-> matched (search_tag Controller.solution_open Controller.solution_close c) = true)
  /\ (In thinking ks
      <-> matched (search_tag Controller.think_open Controller.think_close c) = true)
  /\ (contains Controller.execute_close c = false -> ~ In tool_call ks).
Proof.
  cbv zeta. rewrite kinds_multi. cbv zeta.
  assert (X : contains Controller.execute_close (content_of message) = false ->
              matched (search_tag Controller.execute_open Controller.execute_close
                         (content_of message)) = false).
  { intros C.
    destruct (matched (search_tag _ _ (content_of message))) eqn:M; [|reflexivity].
    apply (matched_contains _ _ _ ControllerFacts.execute_open_nonempty) in M.
    destruct M as [_ M]. congruence. }
  destruct (planning_kinds (content_of message)) as [-> | ->];
  destruct (reasoning_kinds (content_of message)) as [-> | ->];
  destruct (matched (search_tag Controller.execute_open _ _));
  destruct (matched (search_tag observe_open _ _));
  destruct (matched (search_tag Controller.solution_open _ _));
  destruct (matched (search_tag Controller.think_open _ _));
  cbn [app In];
  repeat split; intros; try reflexivity; try discriminate;
  try (specialize (X ltac:(assumption)); discriminate);
  intuition discriminate.
Qed.

(** X11.  A message that is one solution block and nothing else, the text in
    the block holding no tag and no checklist marker, is classified as one
    final_result event that carries that text. *)
Theorem solution_only_message (body : str) :
  contains_any markers body = false ->
  contains Controller.execute_open body = false ->
  contains observe_open body = false ->
  contains Controller.think_open body = false ->
  contains Controller.solution_close body = false ->
  let text := Controller.solution_open ++ body ++ Controller.solution_close in
  _classify_message_multi U (with_content text) = [mk final_result body text].
Proof.
  intros Hm Hx Ho Ht Hc text.
  assert (M : contains_any markers text = false).
  { unfold contains_any, markers in *. cbn [existsb] in *.
    apply orb_false_iff in Hm as [M1 Hm]. apply orb_false_iff in Hm as [M2 Hm].
    apply orb_false_iff in Hm as [M3 _]. unfold text.
    rewrite !contains_between; try assumption; vm_compute; reflexivity. }
  assert (X : contains Controller.execute_open text = false)
    by (unfold text; apply contains_between; try assumption; vm_compute; reflexivity).
  assert (O : contains observe_open text = false)
    by (unfold text; apply contains_between; try assumption; vm_compute; reflexivity).
  assert (T : contains Controller.think_open text = false)
    by (unfold text; apply contains_between; try assumption; vm_compute; reflexivity).
  assert (F : find Controller.solution_open text = Some 0) by reflexivity.
  assert (S : search_tag Controller.solution_open Controller.solution_close text
              = Some {| m_start := 0; m_group := body;
                        m_end := 0 + length Controller.solution_open + length body
                                 + length Controller.solution_close |}).
  { unfold search_tag.
    rewrite search_from_spec by apply ControllerFacts.solution_open_nonempty.
    rewrite F. cbv zeta. unfold text. cbn [Nat.add].
    change (skipn (length Controller.solution_open)
              (Controller.solution_open ++ body ++ Controller.solution_close))
      with (body ++ Controller.solution_close).
    rewrite find_closing by (assumption || (vm_compute; reflexivity)).
    now rewrite firstn_app_le, firstn_all by lia. }
  unfold _classify_message_multi. cbn [content_of with_content attr_content].
  fold text.
  assert (P : planning_events U text = []) by (unfold planning_events; now rewrite M).
  assert (R : reasoning_events text = []).
  { unfold reasoning_events. cbn [text_before_tags]. unfold before.
    unfold contains in X. destruct (find Controller.execute_open text); [discriminate|].
    cbn [option_map]. now rewrite F. }
  rewrite P, R. unfold block_events. rewrite X, O, T.
  assert (C : contains Controller.solution_open text = true)
    by (unfold contains; now rewrite F).
  now rewrite C, S.
Qed.

Lemma drop_while_run (f : char -> bool) (ds : str) (c : char) (r : str) :
  forallb f ds = true -> f c = false ->
  drop_while f (ds ++ c :: r) = c :: r.
Proof.
  intros Hd Hc. induction ds as [|d ds IH]; cbn [app drop_while].
  - now rewrite Hc.
  - cbn [forallb] in Hd. apply andb_true_iff in Hd as [-> Hd]. now apply IH.
Qed.

(** X12.  A numbered line whose box is the "completed" or the "failed" marker, as
    the source spells them, is not a plan step: the box of a plan step holds
    one character, the markers hold three. *)
Theorem marked_lines_are_not_steps (digits text : str) (box : str) :
  re_digit U 46%N = false ->
  forallb (re_digit U) digits = true ->
  box = box_done \/ box = box_fail ->
  plan_line U (digits ++ lit ". " ++ box ++ text) = None.
Proof.
  intros Hdot Hd Hb. unfold plan_line.
  change (lit ". " ++ box ++ text) with (46%N :: 32%N :: box ++ text).
  rewrite (drop_while_run _ _ _ _ Hd Hdot).
  destruct digits as [|d ds]; cbn [app].
  - now rewrite Hdot.
  - cbn [forallb] in Hd. apply andb_true_iff in Hd as [-> _].
    destruct Hb as [-> | ->]; reflexivity.
Qed.

End Classify.

Lemma solution_only_message_witness :
  _classify_message_multi ascii_tables
    (with_content (Controller.solution_open ++ lit "The sum is 4." ++ Controller.solution_close))
  = [mk final_result (lit "The sum is 4.")
        (Controller.solution_open ++ lit "The sum is 4." ++ Controller.solution_close)].
Proof.
  apply (solution_only_message ascii_tables (lit "The sum is 4.")); vm_compute; reflexivity.
Defined.

Lemma marked_lines_are_not_steps_witness :
  plan_line ascii_tables (lit "12" ++ lit ". " ++ box_done ++ lit " Load the data") = None.
Proof.
  apply (marked_lines_are_not_steps ascii_tables (lit "12") (lit " Load the data") box_done).
  - vm_compute. reflexivity.
  - vm_compute. reflexivity.
  - left. reflexivity.
Defined.

End ClassifierMore.

(* ================================================================== *)
(** * More on the orchestrator *)
(* ================================================================== *)

Module OrchestratorMore.
Import Orchestrator Statements Statements2 OrchestratorFacts.

Lemma get_set_other {V : Type} (k k' : str) (v : V) (d : PyDict.dict V) :
  str_eqb k k' = false -> PyDict.get k (PyDict.set k' v d) = PyDict.get k d.
Proof.
  intros E. induction d as [|[k2 v2] d IH]; cbn [PyDict.set PyDict.get].
  - now rewrite E.
  - destruct (str_eqb k' k2) eqn:F; cbn [PyDict.get].
    + apply str_eqb_eq in F. subst. now rewrite E.
    + now rewrite IH.
Qed.

Lemma get_set_true (k k' : str) (d : PyDict.dict bool) :
  PyDict.get k d = Some true -> PyDict.get k (PyDict.set k' true d) = Some true.
Proof.
  intros H. destruct (str_eqb k k') eqn:E.
  - apply str_eqb_eq in E. subst. apply get_set_same.
  - now rewrite get_set_other.
Qed.

Lemma all_true_set (k : str) (d : PyDict.dict bool) :
  forallb snd d = true -> forallb snd (PyDict.set k true d) = true.
Proof.
  induction d as [|[k' v] d IH]; cbn; [reflexivity|].
  intros H. apply andb_true_iff in H as [-> H].
  destruct (str_eqb k k'); cbn; [exact H|now apply IH].
Qed.

Lemma get_some_in {V : Type} (k : str) (v : V) (d : PyDict.dict V) :
  PyDict.get k d = Some v -> In k (PyDict.keys d).
Proof.
  intros H. destruct (in_dec (list_eq_dec N.eq_dec) k (PyDict.keys d)) as [I|I];
    [exact I|]. apply get_none_iff in I. congruence.
Qed.

Lemma keys_set_incl {V : Type} (k x : str) (v : V) (d : PyDict.dict V) :
  In x (PyDict.keys d) -> In x (PyDict.keys (PyDict.set k v d)).
Proof.
  induction d as [|[k' v'] d IH]; cbn; [tauto|].
  destruct (str_eqb k k') eqn:E; cbn.
  - apply str_eqb_eq in E. subst. tauto.
  - intros [->|I]; [now left|right; now apply IH].
Qed.

Lemma keys_set_in {V : Type} (k : str) (v : V) (d : PyDict.dict V) :
  In k (PyDict.keys (PyDict.set k v d)).
Proof. apply (get_some_in k v). apply get_set_same. Qed.

(** ** What a parse leaves behind *)

Lemma tracked_none (events : list event) (st : pstate) :
  forallb from_parser events = true ->
  forallb (fun e => negb (is_tool_call e)) events = true ->
  tracked events st st.
Proof.
  intros F N. split; [|split; [|split; [|split; [|split]]]]; try tauto.
  - intros id code I. rewrite forallb_forall in N. specialize (N _ I). discriminate.
  - assert (E : filter is_tool_call events = []).
    { clear F. induction events as [|e l IH]; [reflexivity|]. cbn in *.
      apply andb_true_iff in N as [N1 N2]. destruct (is_tool_call e); [discriminate|].
      now apply IH. }
    rewrite E. cbn. lia.
Qed.

Lemma tracked_app (ev1 ev2 : list event) (st st1 st2 : pstate) :
  tracked ev1 st st1 -> tracked ev2 st1 st2 -> tracked (ev1 ++ ev2) st st2.
Proof.
  intros (A1 & A2 & A3 & A4 & A5 & A6) (B1 & B2 & B3 & B4 & B5 & B6).
  split; [|split; [|split; [|split; [|split]]]].
  - intros id code I. apply in_app_or in I as [I|I]; [|now apply (B1 id code)].
    apply B2. now apply (A1 id code).
  - intros id G. now apply B2, A2.
  - rewrite filter_app, length_app. lia.
  - rewrite forallb_app. now rewrite A4, B4.
  - tauto.
  - tauto.
Qed.

Lemma tracked_filter (f : event -> bool) (ev : list event) (st st' : pstate) :
  (forall e, is_tool_call e = true -> f e = true) ->
  tracked ev st st' -> tracked (filter f ev) st st'.
Proof.
  intros K (A1 & A2 & A3 & A4 & A5 & A6).
  split; [|split; [|split; [|split; [|split]]]]; try assumption.
  - intros id code I. apply filter_In in I as [I _]. now apply (A1 id code).
  - rewrite A3. f_equal. f_equal. clear - K.
    induction ev as [|e l IH]; [reflexivity|]. cbn [filter].
    destruct (is_tool_call e) eqn:T.
    + rewrite (K e T). cbn [filter]. rewrite T. now rewrite IH.
    + destruct (f e); cbn [filter]; rewrite ?T; exact IH.
  - rewrite forallb_forall in *. intros e I. apply filter_In in I as [I _].
    now apply A4.
Qed.

Section Parser.
Variable U : unicode.
Variable time_time : nat -> Q.

Lemma parse_if_nonempty_tracked (rec : parser) (s : str) (st : pstate) :
  sound rec ->
  tracked (fst (parse_if_nonempty rec s st)) st (snd (parse_if_nonempty rec s st)).
Proof.
  intros S. unfold parse_if_nonempty. destruct (nonempty s); [apply S|].
  now apply tracked_none.
Qed.

Lemma rule_header_tracked (rec : parser) (c : str) (st : pstate) ev st' :
  sound rec -> rule_header rec c st = Some (ev, st') -> tracked ev st st'.
Proof.
  intros S. unfold rule_header. destruct (contains ai_header c); [|discriminate].
  destruct (nonempty (ai_content_of c)); [|discriminate].
  set (events := if _ && _ then _ else _).
  assert (E : tracked events st st).
  { apply tracked_none; unfold events; destruct (_ && _); try reflexivity;
      destruct (search_tag _ _ _); try reflexivity;
      destruct (_ || _); try reflexivity; destruct (nonempty _); reflexivity. }
  destruct (contains Controller.execute_open (ai_content_of c)).
  - pose proof (S (ai_content_of c) st) as T.
    destruct (rec (ai_content_of c) st) as [rem st1]. intros [= <- <-].
    apply (tracked_app _ _ st st st1 E). apply tracked_filter; [|exact T].
    intros e. now destruct e.
  - now intros [= <- <-].
Qed.

Lemma rule_observation_tracked (rec : parser) (c : str) (st : pstate) ev st' :
  sound rec -> rule_observation rec c st = Some (ev, st') -> tracked ev st st'.
Proof.
  intros S. unfold rule_observation. destruct (_ && _); [|discriminate].
  destruct (search_tag _ _ c) as [m|]; [|discriminate].
  pose proof (parse_if_nonempty_tracked rec (strip (firstn (m_start m) c)) st S) as T1.
  destruct (parse_if_nonempty rec (strip (firstn (m_start m) c)) st) as [e1 st1].
  pose proof (parse_if_nonempty_tracked rec (strip (skipn (m_end m) c)) st1 S) as T2.
  destruct (parse_if_nonempty rec (strip (skipn (m_end m) c)) st1) as [e2 st2].
  intros [= <- <-]. cbn [fst snd] in *.
  change (Observation (strip (m_group m)) :: e1 ++ e2)
    with ([Observation (strip (m_group m))] ++ e1 ++ e2).
  apply (tracked_app _ _ st st st2); [now apply tracked_none|].
  now apply (tracked_app _ _ st st1 st2).
Qed.

Lemma rule_execute_tracked (rec : parser) (c : str) (st : pstate) ev st' :
  sound rec -> rule_execute U time_time rec c st = Some (ev, st') ->
  tracked ev st st'.
Proof.
  intros S. unfold rule_execute. destruct (_ && _); [|discriminate].
  destruct (search_tag _ _ c) as [m|]; [|discriminate].
  set (tool_id := lit "tool_" ++ _).
  set (st1 := {| pending_tool_calls := _; ticks := _ |}).
  set (before := if nonempty _ then _ else _).
  pose proof (parse_if_nonempty_tracked rec (strip (skipn (m_end m) c)) st1 S) as T2.
  destruct (parse_if_nonempty rec (strip (skipn (m_end m) c)) st1) as [e2 st2].
  intros [= <- <-]. cbn [fst snd] in *.
  apply (tracked_app _ _ st st st2).
  { apply tracked_none; unfold before; destruct (nonempty _); try reflexivity;
      destruct (nonempty _); try reflexivity; destruct (isearch _ _ _); reflexivity. }
  change (ToolCall tool_id (strip (m_group m)) :: e2)
    with ([ToolCall tool_id (strip (m_group m))] ++ e2).
  apply (tracked_app _ _ st st1 st2); [|exact T2].
  unfold st1. split; [|split; [|split; [|split; [|split]]]];
    cbn [pending_tool_calls ticks].
  - intros id code [[= <- <-]|[]]. apply get_set_same.
  - intros id. apply get_set_true.
  - cbn. lia.
  - reflexivity.
  - apply wf_set.
  - apply all_true_set.
Qed.

Lemma rule_message_header_tracked (rec : parser) (c : str) (st : pstate) ev st' :
  sound rec -> rule_message_header U rec c st = Some (ev, st') ->
  tracked ev st st'.
Proof.
  intros S. unfold rule_message_header.
  destruct (contains (lit "Ai Message") c).
  - destruct (nonempty (strip (after_two_lines c)));
      [|intros [= <- <-]; now apply tracked_none].
    set (events := AiMessage _ _ :: _).
    assert (E : tracked events st st)
      by (apply tracked_none; unfold events; destruct (nonempty _); reflexivity).
    destruct (contains Controller.execute_open (after_two_lines c)).
    + pose proof (S (after_two_lines c) st) as T.
      destruct (rec (after_two_lines c) st) as [rem st1]. intros [= <- <-].
      apply (tracked_app _ _ st st st1 E). apply tracked_filter; [|exact T].
      intros e. now destruct e.
    + now intros [= <- <-].
  - destruct (contains (lit "Human Message") c); [|discriminate].
    destruct (nonempty (strip (after_two_lines c))); intros [= <- <-];
      now apply tracked_none.
Qed.

Lemma parse_rules_tracked (rec : parser) (c : str) (st : pstate) :
  sound rec ->
  tracked (fst (parse_rules U time_time rec c st)) st
          (snd (parse_rules U time_time rec c st)).
Proof.
  intros S. unfold parse_rules.
  destruct (rule_header rec c st) as [[ev st']|] eqn:R0;
    [exact (rule_header_tracked _ _ _ _ _ S R0)|]. cbn [or_else].
  destruct (rule_observation rec c st) as [[ev st']|] eqn:R1;
    [exact (rule_observation_tracked _ _ _ _ _ S R1)|]. cbn [or_else].
  destruct (rule_execute U time_time rec c st) as [[ev st']|] eqn:R2;
    [exact (rule_execute_tracked _ _ _ _ _ S R2)|]. cbn [or_else].
  unfold rule_solution, rule_protocol, rule_todos, rule_reasoning, default_rule, pure.
  destruct (_ && _); [destruct (search_tag _ _ c)|];
    cbn [option_map or_else fst snd]; try (now apply tracked_none);
  (destruct (contains_any protocol_keywords (lower U c));
     [destruct (_ && _)|]; cbn [option_map or_else fst snd];
     try (now apply tracked_none);
   (destruct (nonempty (extract_todos U c)); cbn [option_map or_else fst snd];
      try (now apply tracked_none);
    (destruct (rule_message_header U rec c st) as [[ev st']|] eqn:R5;
       [exact (rule_message_header_tracked _ _ _ _ _ S R5)|]; cbn [or_else];
     destruct (isearch U reasoning_words c); cbn [option_map or_else fst snd];
       try (now apply tracked_none);
     destruct (_ && _); now apply tracked_none))).
Qed.

Lemma parse_fuel_sound (n : nat) : sound (parse_fuel U time_time n).
Proof.
  induction n as [|n IH]; intros s st; cbn [parse_fuel].
  - now apply tracked_none.
  - destruct (nonempty (strip s)); [|now apply tracked_none].
    now apply parse_rules_tracked.
Qed.

(** X13.  Every tool call among the events of [parse_chunk_with_llm] is in the
    table of pending calls afterwards, with what was pending before; the
    clock has been read once for each of them; no event is a timeout
    observation or a placeholder; and the flags of the table stay true, so
    that [ensure_event_completion] will empty it. *)
Theorem parsed_tool_calls_are_pending
    (chunk : str) (st st' : pstate) (events : list event) :
  parse_chunk_with_llm U time_time chunk st = (events, st') ->
  (forall id code, In (ToolCall id code) events ->
     PyDict.get id (pending_tool_calls st') = Some true)
  /\ (forall id, PyDict.get id (pending_tool_calls st) = Some true ->
        PyDict.get id (pending_tool_calls st') = Some true)
  /\ ticks st' = ticks st + length (filter is_tool_call events)
  /\ forallb from_parser events = true
  /\ (PyDict.wf (pending_tool_calls st) -> PyDict.wf (pending_tool_calls st'))
  /\ (forallb snd (pending_tool_calls st) = true ->
      forallb snd (pending_tool_calls st') = true).
Proof.
  intros H. pose proof (parse_fuel_sound (S (length chunk)) chunk st) as T.
  unfold parse_chunk_with_llm in H. rewrite H in T. exact T.
Qed.

(** ** The stream of one chunk *)

Lemma dedup_spec (events : list event) (last : option etype) :
  subseq (fst (dedup events last)) events
  /\ filter always_yielded (fst (dedup events last)) = filter always_yielded events.
Proof.
  revert last. induction events as [|e l IH]; intros last; [split; constructor|].
  cbn [dedup]. unfold always_yielded at 2. cbn [filter].
  destruct (priority_of e) as [[|]|] eqn:P.
  - destruct (IH last) as [A B]. destruct (dedup l last) as [ys la]. cbn [fst] in *.
    split; [now constructor|]. cbn [filter]. unfold always_yielded at 1.
    now rewrite P, B.
  - destruct (negb _ || exempt_from_dedup (type e)) eqn:K.
    + destruct (IH (Some (type e))) as [A B].
      destruct (dedup l (Some (type e))) as [ys la]. cbn [fst] in *.
      split; [now constructor|]. cbn [filter]. unfold always_yielded at 1.
      now rewrite P, B.
    + destruct (IH last) as [A B]. apply orb_false_iff in K as [_ K]. rewrite K.
      split; [now constructor|exact B].
  - destruct (negb _ || exempt_from_dedup (type e)) eqn:K.
    + destruct (IH (Some (type e))) as [A B].
      destruct (dedup l (Some (type e))) as [ys la]. cbn [fst] in *.
      split; [now constructor|]. cbn [filter]. unfold always_yielded at 1.
      now rewrite P, B.
    + destruct (IH last) as [A B]. apply orb_false_iff in K as [_ K]. rewrite K.
      split; [now constructor|exact B].
Qed.

Lemma etype_eqb_true (a b : etype) : etype_eqb a b = true -> a = b.
Proof. destruct a, b; cbn; intros H; try reflexivity; discriminate H. Qed.

Lemma dedup_recorded (events : list event) (last : option etype) :
  snd (dedup events last) = recorded last (fst (dedup events last)).
Proof.
  revert last. induction events as [|e l IH]; intros last; [reflexivity|].
  cbn [dedup]. destruct (priority_of e) as [[|]|] eqn:P.
  - specialize (IH last). destruct (dedup l last) as [ys la].
    cbn [fst snd recorded] in *. unfold is_high. now rewrite P.
  - destruct (negb _ || exempt_from_dedup (type e)); [|apply IH].
    specialize (IH (Some (type e))). destruct (dedup l (Some (type e))) as [ys la].
    cbn [fst snd recorded] in *. unfold is_high. now rewrite P.
  - destruct (negb _ || exempt_from_dedup (type e)); [|apply IH].
    specialize (IH (Some (type e))). destruct (dedup l (Some (type e))) as [ys la].
    cbn [fst snd recorded] in *. unfold is_high. now rewrite P.
Qed.

Lemma dedup_no_repeat (events : list event) (last : option etype) :
  no_repeat last (fst (dedup events last)) = true.
Proof.
  revert last. induction events as [|e l IH]; intros last; [reflexivity|].
  cbn [dedup]. destruct (priority_of e) as [[|]|] eqn:P.
  - specialize (IH last). destruct (dedup l last) as [ys la].
    cbn [fst no_repeat] in *. unfold is_high. now rewrite P.
  - destruct (negb _ || exempt_from_dedup (type e)) eqn:K; [|apply IH].
    specialize (IH (Some (type e))). destruct (dedup l (Some (type e))) as [ys la].
    cbn [fst no_repeat] in *. unfold is_high. now rewrite P, K, IH.
  - destruct (negb _ || exempt_from_dedup (type e)) eqn:K; [|apply IH].
    specialize (IH (Some (type e))). destruct (dedup l (Some (type e))) as [ys la].
    cbn [fst no_repeat] in *. unfold is_high. now rewrite P, K, IH.
Qed.

(** One step of [dedup] on an event that is not of high priority. *)
Lemma dedup_normal (x : event) (l : list event) (last : option etype) :
  is_high x = false ->
  dedup (x :: l) last
  = if negb match last with Some t => etype_eqb (type x) t | None => false end
       || exempt_from_dedup (type x)
    then (x :: fst (dedup l (Some (type x))), snd (dedup l (Some (type x))))
    else dedup l last.
Proof.
  unfold is_high. intros H. cbn [dedup].
  destruct (priority_of x) as [[|]|]; try discriminate H;
    destruct (negb _ || _); try reflexivity;
    now destruct (dedup l (Some (type x))).
Qed.

Lemma dedup_high (x : event) (l : list event) (last : option etype) :
  is_high x = true ->
  dedup (x :: l) last = (x :: fst (dedup l last), snd (dedup l last)).
Proof.
  unfold is_high. intros H. cbn [dedup].
  destruct (priority_of x) as [[|]|]; try discriminate H.
  now destruct (dedup l last).
Qed.

(** An event that is left out is none of those always yielded, and has the
    type that was recorded last: the type the orchestrator started with, or
    that of a yielded event that is not of high priority. *)
Lemma dedup_dropped (events : list event) (last : option etype) (e : event) :
  In e events -> ~ In e (fst (dedup events last)) ->
  always_yielded e = false
  /\ (last = Some (type e)
      \/ exists y, In y (fst (dedup events last)) /\ is_high y = false
                   /\ type y = type e).
Proof.
  revert last. induction events as [|x l IH]; intros last I N; [destruct I|].
  destruct (is_high x) eqn:H.
  - rewrite (dedup_high _ _ _ H) in N |- *. cbn [fst] in *.
    destruct I as [->|I]; [exfalso; apply N; now left|].
    destruct (IH last I) as [A B]; [intros J; apply N; now right|].
    split; [exact A|]. destruct B as [B|(y & Y1 & Y2 & Y3)]; [now left|].
    right. exists y. repeat split; try assumption. now right.
  - rewrite (dedup_normal _ _ _ H) in N |- *.
    destruct (negb _ || exempt_from_dedup (type x)) eqn:K; cbn [fst] in *.
    + destruct I as [->|I]; [exfalso; apply N; now left|].
      destruct (IH (Some (type x)) I) as [A B]; [intros J; apply N; now right|].
      split; [exact A|]. right. destruct B as [[= B]|(y & Y1 & Y2 & Y3)].
      * exists x. repeat split; try assumption. now left.
      * exists y. repeat split; try assumption. now right.
    + destruct I as [->|I]; [|now apply IH].
      apply orb_false_iff in K as [K1 K2]. apply negb_false_iff in K1. split.
      * unfold always_yielded. unfold is_high in H.
        destruct (priority_of e) as [[|]|]; try discriminate H; exact K2.
      * left. destruct last as [t|]; [|discriminate K1].
        now rewrite (etype_eqb_true _ _ K1).
Qed.

(** X14.  [process_chunk_stream] yields the parsed events in their order, some
    left out.  It leaves out no event of high priority and no tool call, tool
    output or plan.  An event it leaves out has the type recorded in
    [last_event_type] at that point: the one the orchestrator started with,
    or that of a yielded event that is not of high priority.  Events of high
    priority do not change what is recorded, so that an event can be left
    out although an event of another type, of high priority, was yielded
    just before it.  Among the yielded events that are not of high priority
    none repeats the type of the one before it, tool calls, tool outputs and
    plans apart, and the type of the last of them is what is recorded at the
    end.  The chunk is appended to the buffer. *)
Theorem chunk_stream_keeps_priority
    (chunk : str) (o o' : orchestrator_state) (now now' : nat)
    (yielded : list event) :
  process_chunk_stream U time_time chunk o now = (yielded, o', now') ->
  let parsed :=
    fst (parse_chunk_with_llm U time_time chunk
           {| pending_tool_calls := o_pending_tool_calls o; ticks := now |}) in
  subseq yielded parsed
  /\ filter always_yielded yielded = filter always_yielded parsed
  /\ chunk_buffer o' = chunk_buffer o ++ [chunk]
  /\ (forall e, In e parsed -> ~ In e yielded ->
        always_yielded e = false
        /\ (last_event_type o = Some (type e)
            \/ exists y, In y yielded /\ is_high y = false /\ type y = type e))
  /\ no_repeat (last_event_type o) yielded = true
  /\ last_event_type o' = recorded (last_event_type o) yielded.
Proof.
  unfold process_chunk_stream.
  destruct (parse_chunk_with_llm U time_time chunk _) as [events st].
  destruct (dedup_spec events (last_event_type o)) as [A B].
  pose proof (dedup_dropped events (last_event_type o)) as C.
  pose proof (dedup_no_repeat events (last_event_type o)) as D.
  pose proof (dedup_recorded events (last_event_type o)) as R.
  destruct (dedup events (last_event_type o)) as [ys la].
  intros [= <- <- <-]. cbn [fst snd chunk_buffer last_event_type] in *.
  repeat split; try assumption; now apply C.
Qed.

(** ** What the processor keeps *)

Lemma subseq_forallb {A : Type} (f : A -> bool) (ys l : list A) :
  subseq ys l -> forallb f l = true -> forallb f ys = true.
Proof.
  induction 1 as [|x ys l _ IH|x ys l _ IH]; cbn; [reflexivity| |].
  - intros Hf. apply andb_true_iff in Hf as [-> Hf]. now apply IH.
  - intros Hf. apply andb_true_iff in Hf as [_ Hf]. now apply IH.
Qed.

Lemma deque_append_length {A : Type} (n : nat) (x : A) (d : list A) :
  length (deque_append n x d) = Nat.min n (S (length d)).
Proof.
  unfold deque_append. rewrite length_skipn, length_app. cbn [length]. lia.
Qed.

Lemma deque_append_last {A : Type} (n : nat) (x d0 : A) (d : list A) :
  0 < n -> last (deque_append n x d) d0 = x.
Proof.
  intros H. unfold deque_append.
  rewrite StrFacts.skipn_app_le by (rewrite length_app; cbn [length]; lia).
  apply last_last.
Qed.

(** What one event does to the table of the processor and to its history. *)
Lemma track_keeps (p : processor) (now : nat) (e : event) :
  from_parser e = true ->
  let p' := fst (track time_time p now e) in
  (forall id, In id (PyDict.keys (p_pending_tool_calls p)) ->
     In id (PyDict.keys (p_pending_tool_calls p')))
  /\ (forall id code, e = ToolCall id code ->
        In id (PyDict.keys (p_pending_tool_calls p')))
  /\ (PyDict.wf (p_pending_tool_calls p) -> PyDict.wf (p_pending_tool_calls p'))
  /\ tool_timeout p' = tool_timeout p
  /\ length (event_history p') <= 50
  /\ forall d, last (event_history p') d = e.
Proof.
  intros F. unfold track.
  assert (H : length (deque_append 50 e (event_history p)) <= 50
              /\ forall d, last (deque_append 50 e (event_history p)) d = e).
  { split; [rewrite deque_append_length; lia|intros d; apply deque_append_last; lia]. }
  destruct e; try discriminate; cbn; repeat split; try tauto; try discriminate;
    try apply H; try (intros id I; now apply keys_set_incl);
    try (intros id c [= <- _]; apply keys_set_in); try apply wf_set.
Qed.

Lemma track_all_keeps (events : list event) (p : processor) (now : nat) :
  forallb from_parser events = true ->
  let p' := fst (track_all time_time p now events) in
  (forall id, In id (PyDict.keys (p_pending_tool_calls p)) ->
     In id (PyDict.keys (p_pending_tool_calls p')))
  /\ (forall id code, In (ToolCall id code) events ->
        In id (PyDict.keys (p_pending_tool_calls p')))
  /\ (PyDict.wf (p_pending_tool_calls p) -> PyDict.wf (p_pending_tool_calls p'))
  /\ tool_timeout p' = tool_timeout p
  /\ (length (event_history p) <= 50 -> length (event_history p') <= 50)
  /\ (forall d, events <> [] -> last (event_history p') d = last events d).
Proof.
  revert p now. induction events as [|e l IH]; intros p now F.
  - cbn. repeat split; tauto.
  - cbn [forallb] in F. apply andb_true_iff in F as [Fe Fl].
    cbn [track_all].
    destruct (track_keeps p now e Fe) as (A1 & A2 & A3 & A4 & A5 & A6).
    destruct (track time_time p now e) as [p1 now1]. cbn [fst] in *.
    destruct (IH p1 now1 Fl) as (B1 & B2 & B3 & B4 & B5 & B6).
    cbv zeta in *. repeat split.
    + intros id I. now apply B1, A1.
    + intros id code [->|I]; [now apply B1, (A2 id code)|now apply (B2 id code)].
    + tauto.
    + congruence.
    + intros _. now apply B5.
    + intros d _. destruct l as [|e' l'].
      * cbn [track_all fst last]. apply A6.
      * rewrite B6 by discriminate. reflexivity.
Qed.

(** X15.  Agent output never takes a call out of the table of pending calls: the
    observations of the parser carry no tool id, so every call that was
    pending still is after [process_agent_output], and so is every tool call
    among the events it yields.  The history holds at most 50 events, the
    last of them the last event yielded. *)
Theorem agent_output_never_clears
    (content : str) (p p' : processor) (now now' : nat) (events : list event) :
  process_agent_output U time_time content p now = (events, p', now') ->
  (forall id, In id (PyDict.keys (p_pending_tool_calls p)) ->
     In id (PyDict.keys (p_pending_tool_calls p')))
  /\ (forall id code, In (ToolCall id code) events ->
        In id (PyDict.keys (p_pending_tool_calls p')))
  /\ (PyDict.wf (p_pending_tool_calls p) -> PyDict.wf (p_pending_tool_calls p'))
  /\ tool_timeout p' = tool_timeout p
  /\ (length (event_history p) <= 50 -> length (event_history p') <= 50)
  /\ (forall d, events <> [] -> last (event_history p') d = last events d).
Proof.
  unfold process_agent_output. destruct (_ && _).
  - destruct (process_chunk_stream U time_time content (orchestrator p) now)
      as [[evs orch] now1] eqn:PS.
    assert (F : forallb from_parser evs = true).
    { unfold process_chunk_stream in PS.
      pose proof (parse_fuel_sound (S (length content)) content
                    {| pending_tool_calls := o_pending_tool_calls (orchestrator p);
                       ticks := now |}) as (_ & _ & _ & T & _).
      fold (parse_chunk_with_llm U time_time content
              {| pending_tool_calls := o_pending_tool_calls (orchestrator p);
                 ticks := now |}) in T.
      destruct (parse_chunk_with_llm U time_time content _) as [parsed st].
      destruct (dedup_spec parsed (last_event_type (orchestrator p))) as [A _].
      destruct (dedup parsed (last_event_type (orchestrator p))) as [ys la].
      injection PS as <- _ _. cbn [fst] in *. exact (subseq_forallb _ _ _ A T). }
    set (p1 := {| orchestrator := orch; event_history := event_history p;
                  last_sent_time := last_sent_time p;
                  p_pending_tool_calls := p_pending_tool_calls p;
                  tool_timeout := tool_timeout p |}).
    pose proof (track_all_keeps evs p1 now1 F) as K.
    destruct (track_all time_time p1 now1 evs) as [p2 now2].
    intros [= <- <- <-]. exact K.
  - intros [= <- <- <-]. repeat split; try tauto.
    intros id code [].
Qed.

End Parser.

Section Checks.
Variable time_time : nat -> Q.

Lemma append_all_length {A : Type} (xs d : list A) :
  length d <= 50 -> length (append_all 50 xs d) <= 50.
Proof.
  revert d. induction xs as [|x xs IH]; intros d L; [exact L|].
  cbn [append_all]. apply IH. rewrite deque_append_length. lia.
Qed.

(** X16.  A call that is pending and not older than the timeout is left alone by
    [check_pending_events]: no timeout observation is yielded for it and
    its entry stays, with the time at which it was registered.  The history
    stays within 50 events. *)
Theorem pending_call_not_timed_out_early
    (p p' : processor) (now now' : nat) (tool_id : str) (t : Q)
    (events : list event) :
  PyDict.wf (p_pending_tool_calls p) ->
  PyDict.get tool_id (p_pending_tool_calls p) = Some t ->
  (time_time now <= t + tool_timeout p)%Q ->
  check_pending_events time_time p now = (events, p', now') ->
  filter (is_timeout_for tool_id) events = []
  /\ PyDict.get tool_id (p_pending_tool_calls p') = Some t
  /\ (length (event_history p) <= 50 -> length (event_history p') <= 50).
Proof.
  intros W G L E.
  destruct (check_pending_events_shape time_time p now) as (c & E1 & E2 & E3 & _).
  rewrite E in E1, E3. cbn [fst snd] in E1, E3.
  assert (X : timed_out (time_time now) (tool_timeout p) t = false).
  { unfold timed_out. destruct (Qlt_le_dec (tool_timeout p) (time_time now - t));
      [exfalso; lra|reflexivity]. }
  split; [|split].
  - rewrite E1, filter_app, E2, app_nil_r. apply length_zero_iff_nil.
    rewrite expire_count by exact W. now rewrite G, X.
  - rewrite E3, expire_get by assumption. now rewrite G, X.
  - intros H. unfold check_pending_events in E.
    destruct (expire _ _ _ _) as [timeouts pend].
    destruct (Qlt_le_dec 2 _).
    + destruct (ensure_event_completion _) as [ev kept]. injection E as <- <- <-.
      cbn [event_history]. now apply append_all_length.
    + injection E as <- <- <-. cbn [event_history]. now apply append_all_length.
Qed.

End Checks.

(** X17.  [ensure_event_completion] yields one placeholder for each entry whose
    flag is true, in the order of the table, keeps the other entries, and
    yields nothing when it is run again on what it kept.  When every flag is
    true nothing is kept. *)
Theorem completion_is_idempotent (d : PyDict.dict bool) :
  let (events, kept) := ensure_event_completion d in
  events = map Placeholder (PyDict.keys (filter (fun kv => snd kv) d))
  /\ kept = filter (fun kv => negb (snd kv)) d
  /\ ensure_event_completion kept = ([], kept)
  /\ (forallb (fun kv => snd kv) d = true -> kept = [] /\ length events = length d).
Proof.
  induction d as [|[k flag] d IH]; [now repeat split|].
  cbn [ensure_event_completion]. destruct (ensure_event_completion d) as [ev kept].
  destruct IH as (A & B & C & D). destruct flag; cbn [filter snd negb map fst].
  - repeat split; try assumption.
    + cbn. now rewrite A.
    + cbn in H. now apply D.
    + cbn in *. f_equal. now apply D.
  - repeat split; try assumption.
    + now rewrite B.
    + cbn [ensure_event_completion]. now rewrite C.
    + cbn in H. discriminate.
    + cbn in H. discriminate.
Qed.

Lemma parsed_tool_calls_are_pending_witness :
  (forall id code, In (ToolCall id code) [Scenario2.dispatched] ->
     PyDict.get id (pending_tool_calls Scenario2.after_dispatch) = Some true)
  /\ (forall id, PyDict.get id (pending_tool_calls Scenario.fresh) = Some true ->
        PyDict.get id (pending_tool_calls Scenario2.after_dispatch) = Some true)
  /\ ticks Scenario2.after_dispatch
     = ticks Scenario.fresh + length (filter is_tool_call [Scenario2.dispatched])
  /\ forallb from_parser [Scenario2.dispatched] = true
  /\ (PyDict.wf (pending_tool_calls Scenario.fresh) ->
      PyDict.wf (pending_tool_calls Scenario2.after_dispatch))
  /\ (forallb snd (pending_tool_calls Scenario.fresh) = true ->
      forallb snd (pending_tool_calls Scenario2.after_dispatch) = true).
Proof.
  apply (parsed_tool_calls_are_pending ascii_tables Scenario.clock Scenario2.run_chunk
           Scenario.fresh Scenario2.after_dispatch [Scenario2.dispatched]).
  vm_compute. reflexivity.
Defined.

Lemma chunk_stream_keeps_priority_witness :
  let parsed :=
    fst (parse_chunk_with_llm ascii_tables Scenario.clock Scenario2.run_and_remark
           {| pending_tool_calls := o_pending_tool_calls Scenario2.reasoned;
              ticks := 0 |}) in
  parsed = [Scenario2.dispatched; Scenario2.remark]
  /\ subseq [Scenario2.dispatched] parsed
  /\ filter always_yielded [Scenario2.dispatched] = filter always_yielded parsed
  /\ chunk_buffer Scenario2.after_remark
     = chunk_buffer Scenario2.reasoned ++ [Scenario2.run_and_remark]
  /\ (forall e, In e parsed -> ~ In e [Scenario2.dispatched] ->
        always_yielded e = false
        /\ (last_event_type Scenario2.reasoned = Some (type e)
            \/ exists y, In y [Scenario2.dispatched] /\ is_high y = false
                         /\ type y = type e))
  /\ no_repeat (last_event_type Scenario2.reasoned) [Scenario2.dispatched] = true
  /\ last_event_type Scenario2.after_remark
     = recorded (last_event_type Scenario2.reasoned) [Scenario2.dispatched].
Proof.
  split; [vm_compute; reflexivity|].
  apply (chunk_stream_keeps_priority ascii_tables Scenario.clock Scenario2.run_and_remark
           Scenario2.reasoned Scenario2.after_remark 0 1 [Scenario2.dispatched]).
  vm_compute. reflexivity.
Defined.

Lemma agent_output_never_clears_witness :
  (forall id, In id (PyDict.keys (p_pending_tool_calls Scenario.waiting)) ->
     In id (PyDict.keys (p_pending_tool_calls Scenario2.after_output)))
  /\ (forall id code, In (ToolCall id code) [Scenario2.dispatched] ->
        In id (PyDict.keys (p_pending_tool_calls Scenario2.after_output)))
  /\ (PyDict.wf (p_pending_tool_calls Scenario.waiting) ->
      PyDict.wf (p_pending_tool_calls Scenario2.after_output))
  /\ tool_timeout Scenario2.after_output = tool_timeout Scenario.waiting
  /\ (length (event_history Scenario.waiting) <= 50 ->
      length (event_history Scenario2.after_output) <= 50)
  /\ (forall d, [Scenario2.dispatched] <> [] ->
        last (event_history Scenario2.after_output) d = last [Scenario2.dispatched] d).
Proof.
  apply (agent_output_never_clears ascii_tables Scenario.clock Scenario2.run_chunk
           Scenario.waiting Scenario2.after_output 0 4 [Scenario2.dispatched]).
  vm_compute. reflexivity.
Defined.

Lemma pending_call_not_timed_out_early_witness :
  filter (is_timeout_for (lit "tool_100000")) [] = []
  /\ PyDict.get (lit "tool_100000") (p_pending_tool_calls Scenario.waiting) = Some 100%Q
  /\ (length (event_history Scenario.waiting) <= 50 ->
      length (event_history Scenario.waiting) <= 50).
Proof.
  apply (pending_call_not_timed_out_early Scenario2.stopped Scenario.waiting
           Scenario.waiting 0 2 (lit "tool_100000") 100%Q []).
  - repeat constructor. intros [].
  - reflexivity.
  - vm_compute. discriminate.
  - vm_compute. reflexivity.
Defined.

End OrchestratorMore.

(* ================================================================== *)
(** * The custom data of the agent *)
(* ================================================================== *)

Module RegistryFacts.
Import Registry OrchestratorFacts OrchestratorMore.

Lemma contains_slash (s : str) : contains (lit "/") s = existsb (N.eqb 47) s.
Proof.
  unfold contains. change (lit "/") with [47%N].
  induction s as [|c s IH]; [reflexivity|].
  cbn [find existsb startswith].
  rewrite N.eqb_sym. destruct (N.eqb c 47); cbn [andb orb].
  - now destruct s.
  - rewrite <- IH. now destruct (find [47%N] s).
Qed.

Lemma basename_no_slash (p : str) : existsb (N.eqb 47) (basename p) = false.
Proof.
  induction p as [|c p IH]; [reflexivity|].
  cbn [basename]. destruct (existsb (N.eqb 47) p) eqn:E; [exact IH|].
  destruct (N.eqb c 47) eqn:F; [exact E|].
  cbn [existsb]. rewrite N.eqb_sym in F. now rewrite F, E.
Qed.

Lemma filename_no_slash (p : str) : contains (lit "/") (filename_of p) = false.
Proof.
  unfold filename_of. destruct (contains (lit "/") p) eqn:E; [|exact E].
  rewrite contains_slash. apply basename_no_slash.
Qed.

(** A path without a slash is its own file name, and taking the file name
    twice changes nothing. *)
Lemma filename_of_idem (p : str) : filename_of (filename_of p) = filename_of p.
Proof.
  unfold filename_of at 1. now rewrite filename_no_slash.
Qed.


Lemma later_names_app a b : later_names (a ++ b) = later_names a ++ later_names b.
Proof. apply flat_map_app. Qed.


Lemma add_items_wf items custom lake :
  PyDict.wf custom -> PyDict.wf lake ->
  PyDict.wf (fst (add_items items custom lake)) /\
  PyDict.wf (snd (add_items items custom lake)).
Proof.
  revert custom lake.
  induction items as [|[[p|] [d|]] items IH]; intros custom lake Wc Wl;
    cbn [add_items]; try (now apply IH); [now split|].
  apply IH; now apply wf_set.
Qed.

Lemma add_items_names items custom lake name :
  In name (PyDict.keys (fst (add_items items custom lake))) ->
  In name (PyDict.keys custom) \/ In name (later_names items).
Proof.
  revert custom lake.
  induction items as [|[[p|] [d|]] items IH]; intros custom lake I;
    cbn [add_items] in I; try (now apply IH in I); [now left|].
  apply IH in I. cbn [later_names flat_map app In]. destruct I as [I|I]; [|tauto].
  destruct (str_eqb name (filename_of p)) eqn:E.
  - apply str_eqb_eq in E. right. now left.
  - left. destruct (PyDict.get name custom) as [v|] eqn:G.
    + now apply (get_some_in name v).
    + exfalso. rewrite <- (get_set_other _ _ {| path := p; description := d |} _ E) in G.
      apply get_none_iff in G. now apply G.
Qed.

Lemma later_names_in items name :
  In name (later_names items) <->
  exists p d, In (Some p, Some d) items /\ filename_of p = name.
Proof.
  unfold later_names. rewrite in_flat_map. split.
  - intros [[[p|] [d|]] [I J]]; cbn [In] in J; try tauto.
    destruct J as [<-|[]]. now exists p, d.
  - intros (p & d & I & <-). exists (Some p, Some d). split; [exact I|now left].
Qed.

Lemma get_in_pair {V : Type} (k : str) (v : V) (d : PyDict.dict V) :
  PyDict.get k d = Some v -> In (k, v) d.
Proof.
  induction d as [|[k' v'] d IH]; cbn [PyDict.get]; [discriminate|].
  destruct (str_eqb k k') eqn:E.
  - apply str_eqb_eq in E. intros [= ->]. subst. now left.
  - intros G. right. now apply IH.
Qed.

Lemma has_key_false {V : Type} (k : str) (d : PyDict.dict V) :
  has_key k d = false -> PyDict.get k d = None.
Proof. unfold has_key. now destruct (PyDict.get k d). Qed.



(** X19.  [remove_custom_data] removes the name from the custom data and
    from the data lake, built-in entries of the data lake included, leaves
    every other name as it was, and returns whether the name was in either
    of them; a second removal of the same name returns [False] and changes
    nothing. *)
Theorem removed_data_is_gone (name : str) (a : agent) :
  PyDict.wf (or_empty (_custom_data a)) ->
  PyDict.wf (data_lake_dict a) ->
  let r := remove_custom_data name a in
  get_custom_data name (fst r) = None /\
  PyDict.get name (data_lake_dict (fst r)) = None /\
  snd r = (match get_custom_data name a with Some _ => true | None => false end
           || has_key name (data_lake_dict a)) /\
  (forall other, other <> name ->
     get_custom_data other (fst r) = get_custom_data other a /\
     PyDict.get other (data_lake_dict (fst r)) = PyDict.get other (data_lake_dict a)) /\
  remove_custom_data name (fst r) = (fst r, false).
Proof.
  intros Wc Wl r. subst r.
  destruct a as [custom lake]. cbn [_custom_data data_lake_dict] in *.
  assert (O : forall other, other <> name -> str_eqb other name = false).
  { intros other N. destruct (str_eqb other name) eqn:E; [|reflexivity].
    now apply str_eqb_eq in E. }
  assert (L : PyDict.get name (if has_key name lake then PyDict.del name lake else lake) = None
              /\ forall other, other <> name ->
                   PyDict.get other (if has_key name lake then PyDict.del name lake else lake)
                   = PyDict.get other lake).
  { destruct (has_key name lake) eqn:H.
    - split; [now apply get_del_same|]. intros other N. apply get_del_other. now apply O.
    - split; [now apply has_key_false|reflexivity]. }
  destruct L as [L1 L2].
  unfold remove_custom_data, get_custom_data. cbn [_custom_data data_lake_dict].
  destruct custom as [custom|]; cbn [or_empty] in Wc.
  - assert (C : PyDict.get name (if has_key name custom then PyDict.del name custom else custom)
                = None
                /\ forall other, other <> name ->
                     PyDict.get other (if has_key name custom then PyDict.del name custom
                                       else custom)
                     = PyDict.get other custom).
    { destruct (has_key name custom) eqn:H.
      - split; [now apply get_del_same|]. intros other N. apply get_del_other. now apply O.
      - split; [now apply has_key_false|reflexivity]. }
    destruct C as [C1 C2].
    unfold has_key in *.
    destruct (PyDict.get name custom) eqn:Gc, (PyDict.get name lake) eqn:Gl;
      cbn [fst snd _custom_data data_lake_dict orb];
      rewrite ?C1, ?L1, ?Gc, ?Gl; repeat split; try reflexivity;
      try (intros other N; split; [now apply C2|now apply L2]);
      try (now apply C2); try (now apply L2).
  - unfold has_key in *.
    destruct (PyDict.get name lake) eqn:Gl;
      cbn [fst snd _custom_data data_lake_dict orb];
      rewrite ?L1, ?Gl; repeat split; try reflexivity;
      try (now apply L2).
Qed.

Lemma removed_data_is_gone_witness :
  let a := {| _custom_data := Some [(lit "x.csv", {| path := lit "b/x.csv";
                                                    description := lit "new" |})];
              data_lake_dict := [(lit "x.csv", lit "new"); (lit "lake.parquet", lit "built in")] |} in
  let r := remove_custom_data (lit "lake.parquet") a in
  get_custom_data (lit "lake.parquet") (fst r) = None /\
  PyDict.get (lit "lake.parquet") (data_lake_dict (fst r)) = None /\
  snd r = (match get_custom_data (lit "lake.parquet") a with Some _ => true | None => false end
           || has_key (lit "lake.parquet") (data_lake_dict a)) /\
  (forall other, other <> lit "lake.parquet" ->
     get_custom_data other (fst r) = get_custom_data other a /\
     PyDict.get other (data_lake_dict (fst r)) = PyDict.get other (data_lake_dict a)) /\
  remove_custom_data (lit "lake.parquet") (fst r) = (fst r, false).
Proof.
  apply (removed_data_is_gone (lit "lake.parquet")
           {| _custom_data := Some [(lit "x.csv", {| path := lit "b/x.csv";
                                                    description := lit "new" |})];
              data_lake_dict := [(lit "x.csv", lit "new");
                                 (lit "lake.parquet", lit "built in")] |}).
  - repeat constructor. intros [].
  - constructor; [intros [E|[]]; discriminate E|].
    constructor; [intros []|constructor].
Defined.

(** X20.  The names of the custom data are base names: if no listed name
    holds a slash, none does after [add_data] or [remove_custom_data],
    whatever is added or removed; and both keep the names of the custom data
    and of the data lake free of repetitions. *)
Theorem custom_data_names_are_base_names
        (data : data_arg) (configure_returns : bool) (name : str) (a : agent) :
  base_names a ->
  base_names (fst (add_data data configure_returns a)) /\
  base_names (fst (remove_custom_data name a)).
Proof.
  intros (S & Wc & Wl). split.
  - destruct data as [|items]; cbn [add_data fst]; [now repeat split|].
    destruct (add_items_wf items _ _ Wc Wl) as [W1 W2].
    pose proof (add_items_names items (or_empty (_custom_data a)) (data_lake_dict a)) as K.
    destruct (add_items items _ _) as [custom lake]. cbn [fst snd] in *.
    repeat split; try assumption.
    intros n I. unfold list_custom_data in I. cbn [_custom_data] in I.
    rewrite map_map in I. cbn [fst] in I.
    destruct (K n I) as [J|J].
    + apply S. unfold list_custom_data. destruct (_custom_data a); [|destruct J].
      rewrite map_map. exact J.
    + apply later_names_in in J as (p & d & _ & <-). apply filename_no_slash.
  - destruct a as [custom lake]. unfold remove_custom_data, base_names in *.
    cbn [_custom_data data_lake_dict] in *.
    destruct custom as [custom|]; cbn [or_empty] in *.
    + destruct (has_key name custom), (has_key name lake);
        cbn [fst _custom_data data_lake_dict or_empty];
        repeat split; try assumption; try (now apply wf_del);
        intros n I; apply S; unfold list_custom_data in *; cbn [_custom_data] in *;
        rewrite map_map in *; cbn [fst] in *; try assumption;
        now apply (keys_del_incl name).
    + destruct (has_key name lake);
        cbn [fst _custom_data data_lake_dict or_empty];
        repeat split; try assumption; try (now apply wf_del).
Qed.

Lemma custom_data_names_are_base_names_witness :
  let a := {| _custom_data := None; data_lake_dict := [(lit "lake.parquet", lit "built in")] |} in
  base_names (fst (add_data (Dict [(Some (lit "a/b/x.csv"), Some (lit "new"))]) false a)) /\
  base_names (fst (remove_custom_data (lit "x.csv") a)).
Proof.
  apply (custom_data_names_are_base_names
           (Dict [(Some (lit "a/b/x.csv"), Some (lit "new"))]) false (lit "x.csv")
           {| _custom_data := None;
              data_lake_dict := [(lit "lake.parquet", lit "built in")] |}).
  repeat split.
  - intros n [].
  - constructor.
  - repeat constructor. intros [].
Defined.

Lemma add_software_items_other (items : list (option str * option str)) n custom lib :
  ~ In n (valid_names items) ->
  PyDict.get n (fst (add_software_items items custom lib)) = PyDict.get n custom /\
  PyDict.get n (snd (add_software_items items custom lib)) = PyDict.get n lib.
Proof.
  revert custom lib.
  induction items as [|[[p|] [d|]] items IH]; intros custom lib N;
    cbn [add_software_items]; try (apply IH; exact N); [now split|].
  cbn [valid_names flat_map app] in N.
  assert (E : str_eqb n p = false).
  { destruct (str_eqb n p) eqn:E; [|reflexivity].
    apply str_eqb_eq in E. exfalso. apply N. now left. }
  destruct (IH (PyDict.set p {| name := p; sw_description := d |} custom)
               (PyDict.set p d lib)) as [A B].
  { intros I. apply N. now right. }
  rewrite A, B. split; now apply get_set_other.
Qed.

Lemma add_software_items_app a b custom lib :
  add_software_items (a ++ b) custom lib =
  add_software_items b (fst (add_software_items a custom lib))
                       (snd (add_software_items a custom lib)).
Proof.
  revert custom lib.
  induction a as [|[[p|] [d|]] a IH]; intros custom lib;
    cbn [app add_software_items]; try apply IH. reflexivity.
Qed.

Lemma add_software_items_wf items custom lib :
  PyDict.wf custom -> PyDict.wf lib ->
  PyDict.wf (fst (add_software_items items custom lib)) /\
  PyDict.wf (snd (add_software_items items custom lib)).
Proof.
  revert custom lib.
  induction items as [|[[p|] [d|]] items IH]; intros custom lib Wc Wl;
    cbn [add_software_items]; try (now apply IH); [now split|].
  apply IH; now apply wf_set.
Qed.

Lemma valid_names_in items n :
  In n (valid_names items) <-> exists d, In (Some n, Some d) items.
Proof.
  unfold valid_names. rewrite in_flat_map. split.
  - intros [[[p|] [d|]] [I J]]; cbn [In] in J; try tauto.
    destruct J as [<-|[]]. now exists d.
  - intros (d & I). exists (Some n, Some d). split; [exact I|now left].
Qed.

(** X21.  Software added with [add_software] is stored under its name as
    given, in the custom software and in the library, and
    [remove_custom_software] takes it out of both again: after adding a
    dictionary that holds the name [n] with the description [d], and no
    later valid item of that name, [get_custom_software] gives the name and
    the description; removing [n] then returns [True], after which neither
    the custom software nor the library holds it and a further removal
    returns [False]. *)
Theorem software_added_then_removed
        (earlier later : list (option str * option str)) (n d : str)
        (configure_returns : bool) (a : library) :
  (forall d', ~ In (Some n, Some d') later) ->
  PyDict.wf (or_none (_custom_software a)) ->
  PyDict.wf (library_content_dict a) ->
  let added := fst (add_software (Dict (earlier ++ (Some n, Some d) :: later))
                                 configure_returns a) in
  let removed := remove_custom_software n added in
  get_custom_software n added = Some {| name := n; sw_description := d |} /\
  PyDict.get n (library_content_dict added) = Some d /\
  In (n, d) (list_custom_software added) /\
  snd removed = true /\
  get_custom_software n (fst removed) = None /\
  PyDict.get n (library_content_dict (fst removed)) = None /\
  snd (remove_custom_software n (fst removed)) = false.
Proof.
  intros L Wc Wl added removed. subst removed added. unfold add_software.
  rewrite add_software_items_app. cbn [add_software_items].
  pose proof (add_software_items_wf earlier _ _ Wc Wl) as [W1 W2].
  set (c0 := fst (add_software_items earlier _ _)) in *.
  set (l0 := snd (add_software_items earlier _ _)) in *.
  set (item := {| name := n; sw_description := d |}).
  assert (N : ~ In n (valid_names later)).
  { intros I. apply valid_names_in in I as (d' & I). exact (L d' I). }
  destruct (add_software_items_other later n (PyDict.set n item c0) (PyDict.set n d l0) N)
    as [A B].
  pose proof (add_software_items_wf later _ _ (wf_set n item c0 W1) (wf_set n d l0 W2))
    as [V1 V2].
  destruct (add_software_items later _ _) as [custom lib] eqn:E. cbn [fst snd] in *.
  rewrite get_set_same in A. rewrite get_set_same in B.
  unfold remove_custom_software, get_custom_software, list_custom_software, has_key.
  cbn [_custom_software library_content_dict fst snd]. rewrite A, B.
  cbn [_custom_software library_content_dict fst snd orb].
  rewrite !get_del_same by assumption.
  repeat split; try reflexivity.
  apply get_in_pair in A.
  apply (in_map (fun kv => (fst kv, sw_description (snd kv)))) in A. exact A.
Qed.

Lemma software_added_then_removed_witness :
  let a := {| _custom_software := None;
              library_content_dict := [(lit "numpy", lit "arrays")] |} in
  let added := fst (add_software (Dict ([(Some (lit "tools/blast"), Some (lit "old"))] ++
                                        (Some (lit "tools/blast"), Some (lit "alignment")) ::
                                        [(Some (lit "samtools"), None)]))
                                 true a) in
  let removed := remove_custom_software (lit "tools/blast") added in
  get_custom_software (lit "tools/blast") added
    = Some {| name := lit "tools/blast"; sw_description := lit "alignment" |} /\
  PyDict.get (lit "tools/blast") (library_content_dict added) = Some (lit "alignment") /\
  In (lit "tools/blast", lit "alignment") (list_custom_software added) /\
  snd removed = true /\
  get_custom_software (lit "tools/blast") (fst removed) = None /\
  PyDict.get (lit "tools/blast") (library_content_dict (fst removed)) = None /\
  snd (remove_custom_software (lit "tools/blast") (fst removed)) = false.
Proof.
  apply (software_added_then_removed
           [(Some (lit "tools/blast"), Some (lit "old"))]
           [(Some (lit "samtools"), None)]
           (lit "tools/blast") (lit "alignment") true
           {| _custom_software := None;
              library_content_dict := [(lit "numpy", lit "arrays")] |}).
  - intros d' [I|[]]. discriminate I.
  - constructor.
  - repeat constructor. intros [].
Defined.

End RegistryFacts.

(* ================================================================== *)
(** * The checklist items of [extract_todos] *)
(* ================================================================== *)

Module TodoFacts.
Import Orchestrator Statements2 StrFacts StrMore.









Section Items.
Variable U : unicode.


End Items.








End TodoFacts.
